(** * mplhep.plot: a shallow embedding of the histogram plotting layer

    The development follows [src/mplhep/plot.py].  Array contents are
    numpy floats in the program; here they are exact rationals ([Q]), so
    every equation below is an equation of exact arithmetic.  Python
    exceptions are values of type [exn] carried by the [result] monad, and
    calls on the matplotlib axes are recorded as a list of [draw_event]s. *)

From Stdlib Require Import ZArith QArith Lia Permutation Sorted Ascii String.
From stdpp Require Import base option list gmap strings pretty.

Local Open Scope Q_scope.

(** ** Python exceptions and results *)

(** [NotFinite] is not a Python exception: numpy goes on with [inf] and
    [nan] after a division by zero, which exact rationals cannot carry, so
    the model stops there. *)
Inductive exn : Type :=
| AssertionError (msg : string)
| ValueError (msg : string)
| RuntimeError (msg : string)
| TypeError (msg : string)
| IndexError
| UnboundLocalError
| NotFinite.

Inductive result (A : Type) : Type :=
| Ok (a : A)
| Raise (e : exn).
Arguments Ok {A} a.
Arguments Raise {A} e.

#[global] Instance result_ret : MRet result := fun A a => Ok a.
#[global] Instance result_bind : MBind result := fun A B k m =>
  match m with
  | Ok a => k a
  | Raise e => Raise e
  end.

Definition is_ok {A} (r : result A) : bool :=
  match r with Ok _ => true | Raise _ => false end.

Definition py_assert (b : bool) (msg : string) : result unit :=
  if b then Ok tt else Raise (AssertionError msg).

(** ** Numbers and one-dimensional arrays *)

(** [a > b] on numbers. *)
Definition Qgtb (a b : Q) : bool := negb (Qle_bool a b).

Definition Qmaxb (a b : Q) : Q := if Qle_bool a b then b else a.

Definition Qsum (l : list Q) : Q := foldr Qplus 0 l.

(** [np.diff] *)
Fixpoint diff (l : list Q) : list Q :=
  match l with
  | a :: ((b :: _) as t) => (b - a) :: diff t
  | _ => []
  end.

(** [np.mean]; the mean of an empty array is not a number, which the
    callers below never reach with well-formed bin edges. *)
Definition mean (l : list Q) : Q := Qsum l / inject_Z (Z.of_nat (length l)).

(** [a[0]] and [a[-1]]: an empty array raises. *)
Definition item0 {A} (l : list A) : result A :=
  match l !! 0%nat with Some x => Ok x | None => Raise IndexError end.

Definition item_last {A} (l : list A) : result A :=
  match last l with Some x => Ok x | None => Raise IndexError end.

(** [a[0] += d] and [a[-1] += d] *)
Definition add_item0 (l : list Q) (d : Q) : result (list Q) :=
  x ← item0 l; Ok (<[0%nat := x + d]> l).

Definition add_item_last (l : list Q) (d : Q) : result (list Q) :=
  x ← item_last l; Ok (<[pred (length l) := x + d]> l).

(** ** Histogram sources and plottables *)

(** How a histogram exposes its flow bins (lines 196-223 probe for these
    three situations). *)
Inductive flow_support : Type :=
| TraitsAxis (underflow overflow : bool)
| FlowAccessor
| NoFlow.

(** A one-dimensional histogram as [histplot] reads it: [values()],
    [variances()], [values(flow=True)], [variances(flow=True)] and the
    traits of [axes[0]]. *)
Record Hist : Type := mkHist {
  h_values : list Q;
  h_variances : option (list Q);
  h_support : flow_support;
  h_values_flow : list Q;
  h_variances_flow : list Q
}.

(** Modelled from the spec: the class [Plottable] of [mplhep/utils.py] is not
    among the sources.  It is the canonical histogram value object: bin
    edges, per-bin values, optional per-bin variances, optional explicit
    asymmetric errors and the density flag; [method] is the [w2method] that
    [histplot] stores on it. *)
Record Plottable : Type := mkPlottable {
  values : list Q;
  edges : list Q;
  variances : option (list Q);
  yerr_lo : option (list Q);
  yerr_hi : option (list Q);
  density : bool;
  method : option string
}.

(** [Plottable(value, edges=..., variances=...)] *)
Definition new_Plottable (value edges : list Q) (variance : option (list Q))
  : Plottable :=
  mkPlottable value edges variance None None false None.

(** ** Flow content of a histogram (lines 193-223) *)

Record FlowContent : Type := mkFlow {
  underflow : Q;
  overflow : Q;
  underflowv : Q;
  overflowv : Q
}.

Definition read_flow (flagged has_variances : bool)
    (item : list Q -> result Q) (h : Hist) : result (Q * Q) :=
  if flagged then
    x ← item (h_values_flow h);
    xv ← (if has_variances then item (h_variances_flow h) else Ok 0);
    Ok (x, xv)
  else Ok (0, 0).

Definition flow_content (h : Hist) : result FlowContent :=
  let has_variances := bool_decide (is_Some (h_variances h)) in
  match h_support h with
  | TraitsAxis tu to =>
      '(o, ov) ← read_flow to has_variances item_last h;
      '(u, uv) ← read_flow tu has_variances item0 h;
      Ok (mkFlow u o uv ov)
  | FlowAccessor =>
      if (length (h_values h) + 2 =? length (h_values_flow h))%nat then
        u ← item0 (h_values_flow h);
        o ← item_last (h_values_flow h);
        uv ← (if has_variances then item0 (h_variances_flow h) else Ok 0);
        ov ← (if has_variances then item_last (h_variances_flow h) else Ok 0);
        Ok (mkFlow u o uv ov)
      else Ok (mkFlow 0 0 0 0)
  | NoFlow => Ok (mkFlow 0 0 0 0)
  end.

(** ** Flow policy (lines 225-257) *)

(** [flow == s] and [flow in l], for a [flow] that may be [None] *)
Definition flow_is (flow : option string) (s : string) : bool :=
  match flow with
  | Some f => String.eqb f s
  | None => false
  end.

Definition flow_in (flow : option string) (l : list string) : bool :=
  existsb (flow_is flow) l.

(** Under [flow="show"] the edges grow by one synthetic bin on each side
    with positive flow content. *)
Definition flow_bin_size (final_bins : list Q) : result Q :=
  hi ← item_last final_bins;
  lo ← item0 final_bins;
  Ok (Qmaxb ((5 # 100) * (hi - lo)) (mean (diff final_bins))).

Definition show_underflow (size : Q) (f : FlowContent)
    (st : list Q * list Q * option (list Q))
  : result (list Q * list Q * option (list Q)) :=
  let '(flow_bins, value, variance) := st in
  if Qgtb (underflow f) 0 then
    b0 ← item0 flow_bins;
    Ok ((b0 - size) :: flow_bins, underflow f :: value,
        (fun v => underflowv f :: v) <$> variance)
  else Ok st.

Definition show_overflow (size : Q) (f : FlowContent)
    (st : list Q * list Q * option (list Q))
  : result (list Q * list Q * option (list Q)) :=
  let '(flow_bins, value, variance) := st in
  if Qgtb (overflow f) 0 then
    bl ← item_last flow_bins;
    Ok (flow_bins ++ [bl + size], value ++ [overflow f],
        (fun v => v ++ [overflowv f]) <$> variance)
  else Ok st.

Definition show_flow (final_bins value : list Q) (variance : option (list Q))
    (f : FlowContent) : result (list Q * list Q * option (list Q)) :=
  size ← flow_bin_size final_bins;
  st ← show_underflow size f (final_bins, value, variance);
  show_overflow size f st.

(** [variance[i] += d], when the histogram has variances *)
Definition add_variance (add : list Q -> Q -> result (list Q))
    (variance : option (list Q)) (d : Q) : result (option (list Q)) :=
  match variance with
  | Some v => v' ← add v d; Ok (Some v')
  | None => Ok None
  end.

Definition sum_underflow (f : FlowContent) (st : list Q * option (list Q))
  : result (list Q * option (list Q)) :=
  let '(value, variance) := st in
  if Qgtb (underflow f) 0 then
    value ← add_item0 value (underflow f);
    variance ← add_variance add_item0 variance (underflowv f);
    Ok (value, variance)
  else Ok st.

Definition sum_overflow (f : FlowContent) (st : list Q * option (list Q))
  : result (list Q * option (list Q)) :=
  let '(value, variance) := st in
  if Qgtb (overflow f) 0 then
    value ← add_item_last value (overflow f);
    variance ← add_variance add_item_last variance (overflowv f);
    Ok (value, variance)
  else Ok st.

Definition sum_flow (value : list Q) (variance : option (list Q))
    (f : FlowContent) : result (list Q * option (list Q)) :=
  st ← sum_underflow f (value, variance);
  sum_overflow f st.

(** One turn of the loop over the histograms: the plottable of [h] and the
    [flow_bins] it leaves behind. *)
Definition flow_plottable (flow : option string) (final_bins flow_bins : list Q)
    (value : list Q) (variance : option (list Q)) (f : FlowContent)
  : result (Plottable * list Q) :=
  if flow_is flow "none" then
    Ok (new_Plottable value final_bins variance, flow_bins)
  else if flow_is flow "hint" then
    Ok (new_Plottable value final_bins variance, flow_bins)
  else if flow_is flow "show" then
    '(fb, value, variance) ← show_flow final_bins value variance f;
    Ok (new_Plottable value fb variance, fb)
  else if flow_is flow "sum" then
    '(value, variance) ← sum_flow value variance f;
    Ok (new_Plottable value final_bins variance, flow_bins)
  else Ok (new_Plottable value final_bins variance, flow_bins).

(** The state the loop threads: the plottables so far, [flow_bins], and the
    flow content of the histogram seen last (lines 517-606 read the
    latter after the loop). *)
Record FlowLoop : Type := mkFlowLoop {
  fl_plottables : list Plottable;
  fl_flow_bins : list Q;
  fl_last : FlowContent
}.

Definition flow_step (flow : option string) (final_bins : list Q)
    (st : FlowLoop) (h : Hist) : result FlowLoop :=
  f ← flow_content h;
  '(p, fb) ← flow_plottable flow final_bins (fl_flow_bins st)
                (h_values h) (h_variances h) f;
  Ok (mkFlowLoop (fl_plottables st ++ [p]) fb f).

Fixpoint flow_loop (flow : option string) (final_bins : list Q)
    (st : FlowLoop) (hists : list Hist) : result FlowLoop :=
  match hists with
  | [] => Ok st
  | h :: hs => st' ← flow_step flow final_bins st h;
               flow_loop flow final_bins st' hs
  end.

Definition make_plottables (flow : option string) (final_bins : list Q)
    (hists : list Hist) : result FlowLoop :=
  flow_loop flow final_bins (mkFlowLoop [] final_bins (mkFlow 0 0 0 0)) hists.

(** ** Labels (lines 269-277) *)

(** The [label] argument: absent, one string, a value that is not
    iterable (given by its [str()]), a list of strings, or a list of
    numbers (each given with its [str()]). *)
Inductive label_arg : Type :=
| LabelNone
| LabelStr (s : string)
| LabelScalar (repr : string)
| LabelList (l : list string)
| LabelNumbers (l : list (Q * string)).

Definition make_labels (label : label_arg) (n : nat) : list (option string) :=
  match label with
  | LabelNone => replicate n None
  | LabelStr s => replicate n (Some s)
  | LabelScalar r => replicate n (Some r)
  | LabelList l => Some <$> l
  | LabelNumbers l => Some <$> l.*2
  end.

(** ** Per-series keyword arguments (lines 279-299) *)

(** The Python values a keyword argument can hold, as far as the fan-out
    tells them apart. *)
#[warnings="-register-all"] Inductive pyval : Type :=
| PNone
| PBool (b : bool)
| PInt (z : Z)
| PFloat (q : Q)
| PStr (s : string)
| PTuple (items : list pyval)
| PList (items : list pyval).

(** [iterable_not_string]: the items of an iterable that is not a string. *)
Definition iterable_not_string (arg : pyval) : option (list pyval) :=
  match arg with
  | PTuple items | PList items => Some items
  | _ => None
  end.

Definition is_tuple (arg : pyval) : bool :=
  match arg with PTuple _ => true | _ => false end.

(** [isinstance(x, int) or isinstance(x, float)]; [bool] is a subclass of
    [int]. *)
Definition is_int_or_float (x : pyval) : bool :=
  match x with
  | PBool _ | PInt _ | PFloat _ => true
  | _ => false
  end.

(** [for i, kw in enumerate(items): _chunked_kwargs[i][kwarg] = kw] *)
Fixpoint fan_out (i : nat) (chunked : list (gmap string pyval))
    (kwarg : string) (items : list pyval)
  : result (list (gmap string pyval)) :=
  match items with
  | [] => Ok chunked
  | kw :: rest =>
      match chunked !! i with
      | Some d => fan_out (S i) (<[i := <[kwarg := kw]> d]> chunked) kwarg rest
      | None => Raise IndexError
      end
  end.

(** [for i in range(len(_chunked_kwargs)): _chunked_kwargs[i][kwarg] = v] *)
Definition give_all (chunked : list (gmap string pyval)) (kwarg : string)
    (v : pyval) : list (gmap string pyval) :=
  (fun d => <[kwarg := v]> d) <$> chunked.

Definition chunk_kwarg (chunked : list (gmap string pyval))
    (kwarg : string) (v : pyval) : result (list (gmap string pyval)) :=
  match iterable_not_string v with
  | Some items =>
      if is_tuple v && forallb is_int_or_float items
      then Ok (give_all chunked kwarg v)
      else fan_out 0 chunked kwarg items
  | None => Ok (give_all chunked kwarg v)
  end.

Fixpoint chunk_loop (chunked : list (gmap string pyval))
    (kwargs : list (string * pyval)) : result (list (gmap string pyval)) :=
  match kwargs with
  | [] => Ok chunked
  | (kwarg, v) :: rest =>
      chunked' ← chunk_kwarg chunked kwarg v;
      chunk_loop chunked' rest
  end.

(** [kwargs] is the dictionary of extra keyword arguments in its iteration
    order; its keys are distinct. *)
Definition chunk_kwargs (n : nat) (kwargs : list (string * pyval))
  : result (list (gmap string pyval)) :=
  chunk_loop (replicate n ∅) kwargs.

(** ** numpy arrays of numbers: a shape and the elements in row-major order *)

Record ndarray : Type := mkArray {
  shape : list nat;
  data : list Q
}.

Definition ndim (a : ndarray) : nat := length (shape a).

Definition size_of (sh : list nat) : nat := foldr Nat.mul 1%nat sh.

(** [a.shape[-1]] and [a.shape[-2]], for [ndim >= 2] *)
Definition shape_last (a : ndarray) : nat := default 0%nat (last (shape a)).
Definition shape_last2 (a : ndarray) : nat :=
  default 0%nat (rev (shape a) !! 1%nat).

(** The first [n] rows of length [c] of a flat array. *)
Fixpoint split_rows (n c : nat) (l : list Q) : list (list Q) :=
  match n with
  | O => []
  | S n' => take c l :: split_rows n' c (drop c l)
  end.

(** [np.tile(a, reps)] for a whole number [reps]: every row along the last
    axis is repeated [reps] times. *)
Definition tile (a : ndarray) (reps : nat) : ndarray :=
  let c := shape_last a in
  let lead := removelast (shape a) in
  mkArray (lead ++ [(c * reps)%nat])
          (concat ((fun row => concat (replicate reps row))
                     <$> split_rows (size_of lead) c (data a))).

(** [a.reshape(sh)] *)
Definition reshape (a : ndarray) (sh : list nat) : result ndarray :=
  if (size_of sh =? length (data a))%nat then Ok (mkArray sh (data a))
  else Raise (ValueError "cannot reshape array").

(** [np.ones((n, m)) * x] *)
Definition ones_times (n m : nat) (x : Q) : ndarray :=
  mkArray [n; m] (replicate (n * m) (1 * x)).

(** The sub-arrays along the first axis, as iteration yields them. *)
Definition subarrays (a : ndarray) : list ndarray :=
  match shape a with
  | [] => []
  | n :: sh => mkArray sh <$> split_rows n (size_of sh) (data a)
  end.

(** [a[i, j, k]] of a three-dimensional array *)
Definition item3 (a : ndarray) (i j k : nat) : option Q :=
  match shape a with
  | [n; m; c] =>
      if bool_decide (i < n ∧ j < m ∧ k < c)%nat
      then data a !! (i * (m * c) + j * c + k)%nat
      else None
  | _ => None
  end.

(** ** Supplied errors (lines 301-343) *)

Inductive yerr_arg : Type :=
| YerrNone
| YerrBool (b : bool)
| YerrNumber (x : Q)
| YerrArray (a : ndarray).

(** Lines 304-315.  [nbins] is [len(final_bins) - 1]. *)
Definition yerr_array (yerr : yerr_arg) (nplottables : nat)
    (final_bins : list Q) : result (option ndarray) :=
  match yerr with
  | YerrArray a => Ok (Some a)
  | YerrNumber x =>
      match final_bins with
      | [] => Raise (ValueError "negative dimensions are not allowed")
      | _ :: bins => Ok (Some (ones_times nplottables (length bins) x))
      end
  | YerrBool _ | YerrNone => Ok None
  end.

(** [yerr is None] and [yerr is False] *)
Definition yerr_is_None (yerr : yerr_arg) : bool :=
  match yerr with YerrNone => true | _ => false end.

Definition yerr_is_False (yerr : yerr_arg) : bool :=
  match yerr with YerrBool false => true | _ => false end.

Definition not_understood : exn := ValueError "yerr format is not understood".

(** Lines 319-339: every accepted array becomes three-dimensional. *)
Definition broadcast_yerr (a : ndarray) (nplottables : nat) : result ndarray :=
  if (ndim a =? 3)%nat then Ok a
  else if (ndim a =? 2)%nat && (nplottables =? 1)%nat then
    if (shape_last2 a =? 2)%nat then
      reshape a [nplottables; 2%nat; shape_last a]
    else if (shape_last2 a =? 1)%nat then
      reshape (tile a 2) [nplottables; 2%nat; shape_last a]
    else Raise not_understood
  else if (ndim a =? 2)%nat then
    reshape (tile a 2) [nplottables; 2%nat; shape_last a]
  else if (ndim a =? 1)%nat then
    reshape (tile a (2 * nplottables)) [nplottables; 2%nat; shape_last a]
  else Raise not_understood.

Definition resolve_yerr (yerr : yerr_arg) (nplottables : nat)
    (final_bins : list Q) : result (option ndarray) :=
  a ← yerr_array yerr nplottables final_bins;
  match a with
  | Some a => a' ← broadcast_yerr a nplottables; Ok (Some a')
  | None => Ok None
  end.

(** Modelled from the spec: [Plottable.fixed_errors] of [mplhep/utils.py]
    is not among the sources; it stores the explicit lower and upper
    errors on the plottable. *)
Definition fixed_errors (p : Plottable) (lo hi : list Q) : Plottable :=
  mkPlottable (values p) (edges p) (variances p) (Some lo) (Some hi)
              (density p) (method p).

(** [fixed_errors] applied to the unpacked [yrs], which must unpack into
    two rows. *)
Definition apply_errors (yrs : ndarray) (p : Plottable) : result Plottable :=
  match subarrays yrs with
  | [lo; hi] => Ok (fixed_errors p (data lo) (data hi))
  | _ => Raise (TypeError "fixed_errors() takes 2 positional arguments")
  end.

(** [for yrs, _plottable in zip(_yerr, plottables)] *)
Fixpoint attach_errors (yerrs : list ndarray) (ps : list Plottable)
  : result (list Plottable) :=
  match yerrs, ps with
  | yrs :: yerrs', p :: ps' =>
      p' ← apply_errors yrs p;
      rest ← attach_errors yerrs' ps';
      Ok (p' :: rest)
  | _, _ => Ok ps
  end.

(** ** Sorting the series (lines 345-365) *)

(** [str.split(sep)] for a one-character separator *)
Fixpoint split (sep : ascii) (s : string) : list string :=
  match s with
  | EmptyString => [EmptyString]
  | String c rest =>
      if Ascii.eqb c sep then EmptyString :: split sep rest
      else match split sep rest with
           | hd :: tl => String c hd :: tl
           | [] => [String c EmptyString]
           end
  end.

(** [np.argsort]: the indices that put the keys in ascending order.  numpy
    leaves the order of equal keys open; here they keep their order. *)
Section argsort.
Context {K : Type} (leb : K -> K -> bool).

Fixpoint insert_key (x : K * nat) (l : list (K * nat)) : list (K * nat) :=
  match l with
  | [] => [x]
  | y :: t => if leb x.1 y.1 then x :: y :: t else y :: insert_key x t
  end.

Definition sort_keys (l : list (K * nat)) : list (K * nat) :=
  foldr insert_key [] l.

Definition argsort (keys : list K) : list nat :=
  snd <$> sort_keys (zip keys (seq 0 (length keys))).
End argsort.

(** [np.argsort(label)], on the [label] argument as it was passed: strings
    are ordered as strings, numbers as numbers, and a label that is no list
    is a zero-dimensional array, whose only index is 0. *)
Definition argsort_label (label : label_arg) : list nat :=
  match label with
  | LabelList l => argsort String.leb l
  | LabelNumbers l => argsort Qle_bool l.*1
  | _ => [0%nat]
  end.

Definition yield (p : Plottable) : Q := Qsum (values p).

(** [l[ix]] with Python's negative indices *)
Definition py_item {A} (l : list A) (ix : Z) : result A :=
  let n := Z.of_nat (length l) in
  let i := if (ix <? 0)%Z then (n + ix)%Z else ix in
  if (i <? 0)%Z then Raise IndexError
  else match l !! Z.to_nat i with
       | Some x => Ok x
       | None => Raise IndexError
       end.

(** [[l[ix] for ix in order]] *)
Fixpoint take_order {A} (l : list A) (order : list Z) : result (list A) :=
  match order with
  | [] => Ok []
  | ix :: rest =>
      x ← py_item l ix;
      xs ← take_order l rest;
      Ok (x :: xs)
  end.

(** The [sort] argument: absent, a string, a list or array of indices, or
    anything else (given by its [str()]). *)
Inductive sort_arg : Type :=
| SortNone
| SortStr (s : string)
| SortIndex (ix : list Z)
| SortOther (shown : string).

Definition in_strings (s : string) (l : list string) : bool :=
  existsb (String.eqb s) l.

Definition sort_order (sort : sort_arg) (label : label_arg)
    (plottables : list Plottable) : result (option (list Z)) :=
  match sort with
  | SortNone => Ok None
  | SortStr s =>
      let parts := split "_"%char s in
      let head := default EmptyString (parts !! 0%nat) in
      let order :=
        if in_strings head ["l"; "label"]
        then Some (argsort_label label)
        else if in_strings head ["y"; "yield"]
        then Some (argsort Qle_bool (yield <$> plottables))
        else None in
      let reversed :=
        (length parts =? 2)%nat
        && bool_decide (parts !! 1%nat = Some "r") in
      match order with
      | Some o => Ok (Some (Z.of_nat <$> (if reversed then rev o else o)))
      | None => Raise UnboundLocalError
      end
  | SortIndex ix =>
      if (length ix =? length plottables)%nat then Ok (Some ix)
      else Raise (ValueError
             ("Sort indexing array is of the wrong size - "
              ++ pretty (length ix) ++ ", " ++ pretty (length plottables)
              ++ " expected.")%string)
  | SortOther shown =>
      Raise (ValueError ("Sort type: " ++ shown ++ " not understood.")%string)
  end.

(** The three lists that are reordered together. *)
Record Series : Type := mkSeries {
  s_plottables : list Plottable;
  s_kwargs : list (gmap string pyval);
  s_labels : list (option string)
}.

Definition sort_series (sort : sort_arg) (label : label_arg) (s : Series)
  : result Series :=
  order ← sort_order sort label (s_plottables s);
  match order with
  | None => Ok s
  | Some order =>
      ps ← take_order (s_plottables s) order;
      kw ← take_order (s_kwargs s) order;
      ls ← take_order (s_labels s) order;
      Ok (mkSeries ps kw ls)
  end.

(** ** Density, bin-width normalisation and stacking (lines 367-392) *)

(** Elementwise product with numpy's broadcasting of one-element arrays.
    The message of the [ValueError] goes on with the two shapes, which are
    left out here. *)
Definition np_mul (a b : list Q) : result (list Q) :=
  if (length a =? length b)%nat then Ok (zip_with Qmult a b)
  else match a, b with
       | [x], _ => Ok (Qmult x <$> b)
       | _, [y] => Ok ((fun x => x * y) <$> a)
       | _, _ => Raise (ValueError "operands could not be broadcast together")
       end.

(** [np.sum(np.array(rows), axis=0)] *)
Definition sum_axis0 (rows : list (list Q)) : result (list Q) :=
  match rows with
  | [] => Ok []
  | r :: _ =>
      if forallb (fun r' => (length r' =? length r)%nat) rows
      then Ok (foldr (zip_with Qplus) (replicate (length r) 0) rows)
      else Raise (ValueError "inhomogeneous shape")
  end.

(** [1.0 / x] *)
Definition reciprocal (x : Q) : result Q :=
  if Qeq_bool x 0 then Raise NotFinite else Ok (1 / x).

Definition with_values (p : Plottable) (v : list Q) : Plottable :=
  mkPlottable v (edges p) (variances p) (yerr_lo p) (yerr_hi p)
              (density p) (method p).

(** Modelled from the spec: [Plottable.flat_scale] of [mplhep/utils.py] is
    not among the sources; it multiplies the values by a flat factor.  What
    it does to the error fields is left out. *)
Definition flat_scale (p : Plottable) (scale : Q) : Plottable :=
  with_values p (Qmult scale <$> values p).

(** The integral of a plottable over its own bins. *)
Definition integral (bins vals : list Q) : Q :=
  Qsum (zip_with Qmult (diff bins) vals).

(** Modelled from the spec: the setter of [Plottable.density] of
    [mplhep/utils.py] is not among the sources; setting it scales the values
    so that the sum of value times bin width is 1. *)
Definition set_density (p : Plottable) : result Plottable :=
  scale ← reciprocal (integral (edges p) (values p));
  let p' := flat_scale p scale in
  Ok (mkPlottable (values p') (edges p') (variances p') (yerr_lo p')
                  (yerr_hi p') true (method p')).

(** Modelled from the spec: [Plottable.binwnorm] of [mplhep/utils.py] is not
    among the sources; it divides every value by the width of its bin. *)
Definition binwnorm (p : Plottable) : Plottable :=
  with_values p (zip_with Qdiv (values p) (diff (edges p))).

(** Modelled from the spec: [stack] of [mplhep/utils.py] is not among the
    sources; every series becomes the cumulative sum of the series up to
    and including it. *)
Fixpoint stack_from (base : list Q) (ps : list Plottable) : list Plottable :=
  match ps with
  | [] => []
  | p :: rest =>
      let top := zip_with Qplus base (values p) in
      with_values p top :: stack_from top rest
  end.

Definition stack_fun (ps : list Plottable) : list Plottable :=
  match ps with
  | [] => []
  | p :: rest => p :: stack_from (values p) rest
  end.

Fixpoint mapR {A B} (f : A -> result B) (l : list A) : result (list B) :=
  match l with
  | [] => Ok []
  | x :: t => y ← f x; ys ← mapR f t; Ok (y :: ys)
  end.

(** Lines 371-377: one factor for all series of a stack. *)
Definition stack_density (final_bins : list Q) (ps : list Plottable)
  : result (list Plottable) :=
  total ← sum_axis0 (values <$> ps);
  mapR (fun p =>
          w ← np_mul (diff final_bins) total;
          scale ← reciprocal (Qsum w);
          Ok (flat_scale p scale)) ps.

Definition normalise (density stack : bool) (binwnorm_arg : option Q)
    (final_bins : list Q) (ps : list Plottable) : result (list Plottable) :=
  if density && bool_decide (is_Some binwnorm_arg) then
    Raise (ValueError "Can only set density or binwnorm.")
  else if density then
    if stack then stack_density final_bins ps
    else mapR set_density ps
  else match binwnorm_arg with
       | Some norm => Ok ((fun p => binwnorm (flat_scale p norm)) <$> ps)
       | None => Ok ps
       end.

Definition do_stack (stack : bool) (ps : list Plottable) : list Plottable :=
  if stack && (1 <? length ps)%nat then stack_fun ps else ps.

(** ** [histplot] up to the first drawing call (lines 150-392) *)

(** The [ax] argument: absent, an [Axes], or anything else. *)
Inductive ax_arg : Type := AxNone | AxAxes | AxOther.

(** The arguments of [histplot].  [hists] and [final_bins] are what
    [process_histogram_parts] and [get_plottable_protocol_bins] (both of
    [mplhep/utils.py], not among the sources) make of [H] and [bins]. *)
Record HistplotArgs : Type := mkArgs {
  a_hists : list Hist;
  a_final_bins : list Q;
  a_yerr : yerr_arg;
  a_w2 : option ndarray;
  a_w2method : option string;
  a_stack : bool;
  a_density : bool;
  a_binwnorm : option Q;
  a_histtype : string;
  a_xerr : yerr_arg;
  a_label : label_arg;
  a_sort : sort_arg;
  a_edges : bool;
  a_ax : ax_arg;
  a_flow : option string;
  a_kwargs : list (string * pyval)
}.

Definition check_ax (ax : ax_arg) : result unit :=
  match ax with
  | AxOther => Raise (ValueError "ax must be a matplotlib Axes object")
  | _ => Ok tt
  end.

Definition allowed_histtype : list string := ["fill"; "step"; "errorbar"; "band"].
Definition allowed_flow : list string := ["show"; "sum"; "hint"; "none"].

Definition histtype_message : string :=
  "Select 'histtype' from: ['fill', 'step', 'errorbar', 'band']".
Definition flow_message : string := "flow must be show, sum, hint, or none".

Definition flow_allowed (flow : option string) : bool :=
  match flow with
  | None => true
  | Some f => in_strings f allowed_flow
  end.

(** Lines 157-166 *)
Definition check_args (histtype : string) (flow : option string) : result unit :=
  _ ← py_assert (in_strings histtype allowed_histtype) histtype_message;
  py_assert (flow_allowed flow) flow_message.

(** [w2.reshape(len(plottables), len(final_bins) - 1)]; without bin edges
    the second dimension is -1 and numpy infers it. *)
Definition reshape_w2 (w2 : ndarray) (n : nat) (final_bins : list Q)
  : result ndarray :=
  match final_bins with
  | _ :: bins => reshape w2 [n; length bins]
  | [] =>
      if negb (n =? 0)%nat && (length (data w2) mod n =? 0)%nat
      then reshape w2 [n; (length (data w2) / n)%nat]
      else Raise (ValueError "cannot reshape array")
  end.

Definition set_w2 (w2method : option string) (row : ndarray) (p : Plottable)
  : Plottable :=
  mkPlottable (values p) (edges p) (Some (data row)) (yerr_lo p) (yerr_hi p)
              (density p) w2method.

(** Lines 259-264 *)
Definition apply_w2 (w2 : option ndarray) (w2method : option string)
    (final_bins : list Q) (ps : list Plottable) : result (list Plottable) :=
  match w2 with
  | None => Ok ps
  | Some a =>
      a' ← reshape_w2 a (length ps) final_bins;
      let rows := subarrays a' in
      Ok (zip_with (set_w2 w2method) rows ps ++ drop (length rows) ps)
  end.

(** Lines 266-267 *)
Definition check_w2_yerr (w2 : option ndarray) (yerr : yerr_arg) : result unit :=
  if bool_decide (is_Some w2) && negb (yerr_is_None yerr)
  then Raise (ValueError "Can only supply errors or w2")
  else Ok tt.

(** What the drawing code reads. *)
Record Prepared : Type := mkPrepared {
  p_series : Series;
  p_flow_bins : list Q;
  p_last_flow : FlowContent
}.

(** Lines 259-392: from the plottables of the flow loop to the series
    that are drawn. *)
Definition prepare_series (a : HistplotArgs) (ps : list Plottable)
  : result Series :=
  ps ← apply_w2 (a_w2 a) (a_w2method a) (a_final_bins a) ps;
  _ ← check_w2_yerr (a_w2 a) (a_yerr a);
  let labels := make_labels (a_label a) (length ps) in
  chunked ← chunk_kwargs (length ps) (a_kwargs a);
  yerr ← resolve_yerr (a_yerr a) (length ps) (a_final_bins a);
  ps ← match yerr with
       | Some y => attach_errors (subarrays y) ps
       | None => Ok ps
       end;
  s ← sort_series (a_sort a) (a_label a) (mkSeries ps chunked labels);
  ps ← normalise (a_density a) (a_stack a) (a_binwnorm a) (a_final_bins a)
         (s_plottables s);
  Ok (mkSeries (do_stack (a_stack a) ps) (s_kwargs s) (s_labels s)).

Definition prepare (a : HistplotArgs) : result Prepared :=
  _ ← check_ax (a_ax a);
  _ ← check_args (a_histtype a) (a_flow a);
  _ ← item0 (a_hists a);
  fl ← make_plottables (a_flow a) (a_final_bins a) (a_hists a);
  s ← prepare_series a (fl_plottables fl);
  Ok (mkPrepared s (fl_flow_bins fl) (fl_last fl)).

(** ** Drawing (lines 394-606) *)

Inductive stairs_kind : Type := StepOutline | Filled | Band.

(** The calls on the axes that draw.  Styling defaults
    ([soft_update_kwargs]) and the tick and axis-label bookkeeping of lines
    497-512 are left out. *)
Inductive draw_event : Type :=
| Stairs (kind : stairs_kind) (p : Plottable) (baseline : option Q)
         (label : option string) (kwargs : gmap string pyval)
| Errorbar (p : Plottable) (with_yerr : bool) (xerr : yerr_arg)
           (label : option string) (kwargs : gmap string pyval)
| LegendErrorbar (label : option string)
| Scatter (bin_edge : option Q) (marker : string)
| DashedLine (x0 x1 : Q).

Inductive artists : Type :=
| StairsArtists (with_errorbar : bool)
| ErrorBarArtists.

(** [yerr is not False and ((yerr is not None or w2 is not None) or
    plottables[i].variances is not None)] *)
Definition do_errors (a : HistplotArgs) (p : Plottable) : bool :=
  negb (yerr_is_False (a_yerr a))
  && ((negb (yerr_is_None (a_yerr a)) || bool_decide (is_Some (a_w2 a)))
      || bool_decide (is_Some (variances p))).

Definition lookup_item {A} (l : list A) (i : nat) : result A :=
  match l !! i with Some x => Ok x | None => Raise IndexError end.

(** The body of the loop of the selected [histtype] for series [i]. *)
Definition draw_series (a : HistplotArgs) (s : Series) (i : nat)
  : result (list draw_event * artists) :=
  p ← lookup_item (s_plottables s) i;
  kw ← lookup_item (s_kwargs s) i;
  lab ← lookup_item (s_labels s) i;
  if String.eqb (a_histtype a) "step" then
    let errs := do_errors a p in
    let baseline := if a_edges a then Some 0 else None in
    Ok (Stairs StepOutline p baseline (if errs then None else lab) kw
          :: (if errs
              then [Errorbar p true YerrNone None kw; LegendErrorbar lab]
              else []),
        StairsArtists errs)
  else if String.eqb (a_histtype a) "fill" then
    Ok ([Stairs Filled p None lab kw], StairsArtists false)
  else if String.eqb (a_histtype a) "band" then
    Ok ([Stairs Band p None lab kw], StairsArtists false)
  else if String.eqb (a_histtype a) "errorbar" then
    let with_yerr := negb (yerr_is_False (a_yerr a)) in
    let xerr := match a_xerr a with
                | YerrBool true | YerrNumber _ => a_xerr a
                | _ => YerrNone
                end in
    Ok ([Errorbar p with_yerr xerr lab kw], ErrorBarArtists)
  else Raise UnboundLocalError.

Fixpoint draw_loop (f : nat -> result (list draw_event * artists))
    (ixs : list nat) : list draw_event * result (list artists) :=
  match ixs with
  | [] => ([], Ok [])
  | i :: rest =>
      match f i with
      | Raise e => ([], Raise e)
      | Ok (evs, art) =>
          let '(evs', r) := draw_loop f rest in
          (evs ++ evs', arts ← r; Ok (art :: arts))
      end
  end.

(** Lines 514-606: the markers and dashed lines that flag flow content.
    They read the flow content of the histogram seen last. *)
Definition hint_marker (flagged : bool) (edge : list Q -> result Q)
    (final_bins : list Q) (marker : string) : result (list draw_event) :=
  if flagged then b ← edge final_bins; Ok [Scatter (Some b) marker]
  else Ok [].

Definition show_marker (flagged : bool) (from to : result Q)
  : result (list draw_event) :=
  if flagged then
    e0 ← from;
    e1 ← to;
    Ok [DashedLine e0 e1; Scatter None "d"]
  else Ok [].

Definition flow_styling (flow : option string) (final_bins : list Q)
    (s : Series) (f : FlowContent) : result (list draw_event) :=
  let under := Qgtb (underflow f) 0 in
  let over := Qgtb (overflow f) 0 in
  if flow_is flow "hint" then
    lo ← hint_marker under item0 final_bins "<";
    hi ← hint_marker over item_last final_bins ">";
    Ok (lo ++ hi)
  else if flow_is flow "show" && (under || over) then
    p ← item0 (s_plottables s);
    lo ← show_marker under (lookup_item (edges p) 0)
                           (lookup_item (edges p) 1);
    hi ← show_marker over (lookup_item (rev (edges p)) 1)
                          (lookup_item (rev (edges p)) 0);
    Ok (lo ++ hi)
  else Ok [].

Definition draw (a : HistplotArgs) (st : Prepared)
  : list draw_event * result (list artists) :=
  let s := p_series st in
  let '(evs, r) := draw_loop (draw_series a s)
                     (seq 0 (length (s_plottables s))) in
  match r with
  | Raise e => (evs, Raise e)
  | Ok arts =>
      match flow_styling (a_flow a) (a_final_bins a) s (p_last_flow st) with
      | Raise e => (evs, Raise e)
      | Ok evs' => (evs ++ evs', Ok arts)
      end
  end.

(** [histplot]: the drawing calls issued on the axes, and the artists
    returned or the exception raised. *)
Definition histplot (a : HistplotArgs)
  : list draw_event * result (list artists) :=
  match prepare a with
  | Raise e => ([], Raise e)
  | Ok st => draw a st
  end.

(** ** [hist2dplot] (lines 611-928) *)

(** A two-dimensional histogram as [hist2dplot] reads it.  Grids are lists
    of rows indexed [x][y].  [h2_padded] is [to_padded2d(h)] (of
    [mplhep/utils.py], not among the sources): the values with one flow row
    and column on every side.  [h2_flow_arg] tells whether [h.values] takes
    a [flow] argument. *)
Record Hist2D : Type := mkHist2D {
  h2_values : list (list Q);
  h2_values_flow : list (list Q);
  h2_padded : list (list Q);
  h2_flow_arg : bool
}.

Definition all_zero (l : list Q) : bool := forallb (fun x => Qeq_bool x 0) l.

(** [m[0, :]], [m[-1, :]], [m[:, 0]] and [m[:, -1]] *)
Definition row_first (m : list (list Q)) : result (list Q) := item0 m.
Definition row_last (m : list (list Q)) : result (list Q) := item_last m.
Definition col_first (m : list (list Q)) : result (list Q) := mapR item0 m.
Definition col_last (m : list (list Q)) : result (list Q) := mapR item_last m.

(** [a[1:]], [a[:-1]] and [a[1:-1]] *)
Definition but_first {A} (l : list A) : list A := drop 1 l.
Definition but_last {A} (l : list A) : list A := removelast l.
Definition inner {A} (l : list A) : list A := but_last (but_first l).

(** The four flags [hint_xlo], [hint_xhi], [hint_ylo], [hint_yhi]. *)
Record Hints : Type := mkHints {
  hint_xlo : bool;
  hint_xhi : bool;
  hint_ylo : bool;
  hint_yhi : bool
}.

(** [np.r_[bins[0] - width, bins, bins[-1] + width]] with
    [width = (bins[-1] - bins[0]) * 0.05] *)
Definition pad_bins (bins : list Q) : result (list Q) :=
  hi ← item_last bins;
  lo ← item0 bins;
  let width := (hi - lo) * (5 # 100) in
  Ok ((lo - width) :: bins ++ [hi + width]).

(** Lines 707-722: the four tests, each on what the one before left. *)
Record Trimmed : Type := mkTrimmed {
  t_padded : list (list Q);
  t_pxbins : list Q;
  t_pybins : list Q;
  t_hints : Hints
}.

(** [keep_lo b l] is [l] when [b] holds and [l[1:]] otherwise; [keep_hi]
    is [l] or [l[:-1]]. *)
Definition keep_lo {A} (keep : bool) (l : list A) : list A :=
  if keep then l else but_first l.
Definition keep_hi {A} (keep : bool) (l : list A) : list A :=
  if keep then l else but_last l.

Definition trim_flow (padded : list (list Q)) (pxbins pybins : list Q)
  : result Trimmed :=
  r ← row_first padded;
  let xlo := negb (all_zero r) in
  let padded := keep_lo xlo padded in
  let pxbins := keep_lo xlo pxbins in
  r ← row_last padded;
  let xhi := negb (all_zero r) in
  let padded := keep_hi xhi padded in
  let pxbins := keep_hi xhi pxbins in
  c ← col_first padded;
  let ylo := negb (all_zero c) in
  let padded := keep_lo ylo <$> padded in
  let pybins := keep_lo ylo pybins in
  c ← col_last padded;
  let yhi := negb (all_zero c) in
  let padded := keep_hi yhi <$> padded in
  let pybins := keep_hi yhi pybins in
  Ok (mkTrimmed padded pxbins pybins (mkHints xlo xhi ylo yhi)).

(** Elementwise sum with numpy's broadcasting of one-element arrays *)
Definition np_add (a b : list Q) : result (list Q) :=
  if (length a =? length b)%nat then Ok (zip_with Qplus a b)
  else match a, b with
       | [x], _ => Ok (Qplus x <$> b)
       | _, [y] => Ok ((fun x => x + y) <$> a)
       | _, _ => Raise (ValueError "operands could not be broadcast together")
       end.

(** [H[:, j] = col]: the column must have one entry per row. *)
Definition set_col (j : list Q -> nat) (H : list (list Q)) (col : list Q)
  : result (list (list Q)) :=
  if (length col =? length H)%nat
  then Ok (zip_with (fun row x => <[j row := x]> row) H col)
  else Raise (ValueError "could not broadcast input array").

Definition last_index {A} (l : list A) : nat := pred (length l).

(** Lines 727-744: every right-hand side is evaluated before the first
    assignment of its statement. *)
Definition sum_flow2d (H vf : list (list Q)) : result (list (list Q)) :=
  h0 ← row_first H; f0 ← row_first vf;
  a ← np_add h0 (inner f0);
  hl ← row_last H; fl ← row_last vf;
  b ← np_add hl (inner fl);
  _ ← (if (length a =? length h0)%nat && (length b =? length hl)%nat
       then Ok tt else Raise (ValueError "could not broadcast input array"));
  let H := <[last_index H := b]> (<[0%nat := a]> H) in
  c0 ← col_first H; g0 ← col_first (inner vf);
  a ← np_add c0 g0;
  cl ← col_last H; gl ← col_last (inner vf);
  b ← np_add cl gl;
  H ← set_col (fun _ => 0%nat) H a;
  H ← set_col last_index H b;
  r0 ← row_first H; rl ← row_last H;
  h00 ← item0 r0; hll ← item_last rl; h0l ← item_last r0; hl0 ← item0 rl;
  f00 ← item0 f0; fll ← item_last fl; f0l ← item_last f0; fl0 ← item0 fl;
  let set (i j : nat) (x : Q) (H : list (list Q)) :=
    match H !! i with
    | Some row => <[i := <[j := x]> row]> H
    | None => H
    end in
  let n := last_index H in
  let m := last_index r0 in
  Ok (set n 0%nat (fl0 + hl0)
        (set 0%nat m (f0l + h0l)
           (set n m (fll + hll)
              (set 0%nat 0%nat (f00 + h00) H)))).

(** The grid and edges that are rendered, the boundary flags, and whether
    the warning of lines 697-699 was printed. *)
Record Grid2D : Type := mkGrid2D {
  g_H : list (list Q);
  g_xbins : list Q;
  g_ybins : list Q;
  g_hints : option Hints;
  g_flow : option string;
  g_warned : bool
}.

(** Lines 687-750 *)
Definition flow2d (h : Hist2D) (xbins ybins : list Q) (flow : option string)
  : result Grid2D :=
  let H := h2_values h in
  if negb (h2_flow_arg h) && bool_decide (is_Some flow) then
    Ok (mkGrid2D H xbins ybins None None true)
  else if flow_in flow ["hint"; "show"] then
    pxbins ← pad_bins xbins;
    pybins ← pad_bins ybins;
    t ← trim_flow (h2_padded h) pxbins pybins;
    if flow_is flow "show"
    then Ok (mkGrid2D (t_padded t) (t_pxbins t) (t_pybins t)
                      (Some (t_hints t)) flow false)
    else Ok (mkGrid2D H xbins ybins (Some (t_hints t)) flow false)
  else if flow_is flow "sum" then
    H' ← sum_flow2d H (h2_values_flow h);
    Ok (mkGrid2D H' xbins ybins None flow false)
  else Ok (mkGrid2D H xbins ybins None flow false).

Inductive side : Type := XLo | XHi | YLo | YHi.

(** The calls on the axes that draw: the colour mesh of the grid (given
    here before its transposition), the dashed boundary lines of
    [flow="show"] and the markers of [flow="hint"].  The [cmin]/[cmax] cuts,
    the colour bar, ticks and cell labels are left out. *)
Inductive draw2d_event : Type :=
| Pcolormesh (H : list (list Q)) (xbins ybins : list Q)
| BoundaryLine (s : side) (at_edge : Q)
| BoundaryMarker (s : side).

Definition flagged (hints : option Hints) (s : side) : bool :=
  match hints with
  | Some h =>
      match s with
      | XLo => hint_xlo h | XHi => hint_xhi h
      | YLo => hint_ylo h | YHi => hint_yhi h
      end
  | None => false
  end.

(** Lines 805-841 and 842-896 *)
Definition boundary_line (g : Grid2D) (s : side) (bins : list Q)
  : result (list draw2d_event) :=
  if flagged (g_hints g) s
  then x ← lookup_item bins 1; Ok [BoundaryLine s x]
  else Ok [].

Definition boundary_events (g : Grid2D) : result (list draw2d_event) :=
  if flow_is (g_flow g) "show" then
    a ← boundary_line g XLo (g_xbins g);
    b ← boundary_line g XHi (rev (g_xbins g));
    c ← boundary_line g YLo (g_ybins g);
    d ← boundary_line g YHi (rev (g_ybins g));
    Ok (a ++ b ++ c ++ d)
  else if flow_is (g_flow g) "hint" then
    Ok ((fun s => BoundaryMarker s)
          <$> filter (fun s => flagged (g_hints g) s = true)
                [XLo; XHi; YLo; YHi])
  else Ok [].

(** [hist2dplot]: the drawing calls issued on the axes, and the grid that
    was rendered or the exception raised.  [cmin] and [cmax] are at their
    default, [None], so that lines 765-768 cut no cell; the cuts and the
    texts of [labels] are modelled apart, by [cut] and [hist2d_texts]. *)
Definition hist2dplot (h : Hist2D) (xbins ybins : list Q) (ax : ax_arg)
    (flow : option string) : list draw2d_event * result Grid2D :=
  match (_ ← check_ax ax; flow2d h xbins ybins flow) with
  | Raise e => ([], Raise e)
  | Ok g =>
      let mesh := Pcolormesh (g_H g) (g_xbins g) (g_ybins g) in
      match boundary_events g with
      | Raise e => ([mesh], Raise e)
      | Ok evs => (mesh :: evs, Ok g)
      end
  end.

(** ** The layout-adjustment loops (lines 1013-1108) *)

Inductive log_event : Type :=
| LogDebug
| LogInfo
| LogWarning (msg : string).

(** The part of the axes the loops change, and what they leave behind:
    the y-limits, the log, and the number of [set_ylim] calls. *)
Record Scaling : Type := mkScaling {
  ylim : Q * Q;
  logged : list log_event;
  rescalings : nat
}.

(** [10 ** 1.05], to seventeen significant digits *)
Definition pow10_105 : Q := 11220184543019634 # 1000000000000000.

Definition scale_factor (yscale_is_log : bool) : Q :=
  if yscale_is_log then pow10_105 else 105 # 100.

Definition set_ylim_scaled (factor : Q) (st : Scaling) : Scaling :=
  mkScaling ((ylim st).1, (ylim st).2 * factor)
            (logged st ++ [LogDebug; LogInfo])
            (S (rescalings st)).

Definition warn (msg : string) (st : Scaling) : Scaling :=
  mkScaling (ylim st) (logged st ++ [LogWarning msg]) (rescalings st).

Section yscale.
(** [overlap ylim] is what [overlap(ax, bbox)] counts once the figure is
    drawn with these y-limits; it is the plotting engine's answer.  The
    test [ax.figure is None] inside the loop cannot succeed, since
    computing the overlap has used the figure already. *)
Variable overlap : Q * Q -> Z.
Variable otol : Q.
Variable soft_fail : bool.
Variable what : string.
Variable factor : Q.

Definition could_not_fit : string :=
  "Could not fit " ++ what ++ " in 10 iterations".

(** The [while] loop; [None] when [fuel] runs out.  The second component
    is the exception raised, if any. *)
Fixpoint yscale_loop (fuel max_scales : nat) (st : Scaling)
  : option (Scaling * option exn) :=
  match fuel with
  | O => None
  | S fuel' =>
      if Qgtb (inject_Z (overlap (ylim st))) otol then
        let st' := set_ylim_scaled factor st in
        if (10 <? max_scales)%nat then
          if negb soft_fail
          then Some (st', Some (RuntimeError
                 (could_not_fit
                  ++ ", return anyway by passing `soft_fail=True`.")))
          else Some (warn could_not_fit st', None)
        else yscale_loop fuel' (S max_scales) st'
      else Some (st, None)
  end.
End yscale.

Definition start_scaling (lim : Q * Q) : Scaling := mkScaling lim [] 0.

Definition yscale_legend (overlap : Q * Q -> Z) (yscale_is_log : bool)
    (otol : option Q) (soft_fail : bool) (fuel : nat) (lim : Q * Q)
  : option (Scaling * option exn) :=
  yscale_loop overlap (default 0 otol) soft_fail "legend"
              (scale_factor yscale_is_log) fuel 0 (start_scaling lim).

Definition yscale_anchored_text (overlap : Q * Q -> Z) (yscale_is_log : bool)
    (otol : option Q) (soft_fail : bool) (fuel : nat) (lim : Q * Q)
  : option (Scaling * option exn) :=
  yscale_loop overlap (default 0 otol) soft_fail "AnchoredText"
              (scale_factor yscale_is_log) fuel 0 (start_scaling lim).


(** ** Styling defaults: [soft_update_kwargs] (lines 38-54) *)

(** [aliases[k] if k in aliases else k] *)
Definition alias (k : string) : string :=
  if String.eqb k "ls" then "linestyle"
  else if String.eqb k "lw" then "linewidth"
  else k.

(** The dictionary comprehension of line 47, over the items of [kwargs] in
    their order: of two keys with one long name the later one stays. *)
Definition rename {V} (kwargs : list (string * V)) : gmap string V :=
  foldl (fun m kv => <[alias kv.1 := kv.2]> m) ∅ kwargs.

Definition respect : list string :=
  ["hatch.linewidth"; "lines.linewidth"; "patch.linewidth";
   "lines.linestyle"].

(** [k.split(".")[-1]] *)
Definition last_part (k : string) : string :=
  List.last (split "."%char k) EmptyString.

(** [not_default] lists the keys of [mpl.rcParams] whose value is not the
    default one. *)
Definition rc_modded (not_default : list string) (key : string) : bool :=
  in_strings key not_default
  || in_strings key
       (last_part <$> filter (fun k => in_strings k respect = true)
                        not_default).

Definition soft_update_kwargs {V} (not_default : list string)
    (kwargs mods : list (string * V)) (rc : bool) : gmap string V :=
  foldl (fun m kv =>
           if bool_decide (m !! kv.1 = None)
              && (rc && negb (rc_modded not_default kv.1))
           then <[kv.1 := kv.2]> m
           else m)
        (rename kwargs) mods.

(** ** Legend helpers (lines 1307-1345) *)

(** The [order] argument of [sort_legend]: absent, a list of labels, an
    [OrderedDict] from labels to new names (its items in their order), or
    anything else. *)
Inductive order_arg : Type :=
| OrderNone
| OrderList (l : list string)
| OrderDict (d : list (string * string))
| OrderOther.

Inductive legend_exn : Type :=
| LegendTypeError
| LegendKeyError.

(** [OrderedDict(zip(labels, handles))]: of two entries with one label the
    later handle stays. *)
Definition by_label {T} (labels : list string) (handles : list T)
  : gmap string T :=
  foldl (fun m kv => <[kv.1 := kv.2]> m) ∅ (zip labels handles).

(** Lines 1332-1339 *)
Definition ordered_labels (labels : list string) (order : order_arg)
  : option (list string) :=
  match order with
  | OrderDict d => Some d.*1
  | OrderList l => Some l
  | OrderNone => Some labels
  | OrderOther => None
  end.

(** [order[k]] *)
Definition new_name (d : list (string * string)) (k : string)
  : option string :=
  (list_to_map d : gmap string string) !! k.

(** [handles] and [labels] are what [ax.get_legend_handles_labels()]
    returns. *)
Definition sort_legend {T} (labels : list string) (handles : list T)
    (order : order_arg) : legend_exn + (list T * list string) :=
  match ordered_labels labels order with
  | None => inl LegendTypeError
  | Some l =>
      let l := filter (fun entry => entry ∈ labels) l in
      match mapM (fun k => by_label labels handles !! k) l with
      | None => inl LegendKeyError
      | Some values =>
          match order with
          | OrderDict d =>
              match mapM (new_name d) l with
              | None => inl LegendKeyError
              | Some names => inr (values, names)
              end
          | _ => inr (values, l)
          end
      end
  end.

(** ** The boxes that are measured, [ylow] and [mpl_magic]
       (lines 980-1010 and 1111-1164) *)

(** [legend] is [ax.get_legend()] and [children] are the legends among
    [ax.get_children()]. *)
Definition _draw_leg_bbox {Leg} (legend : option Leg) (children : list Leg)
  : result Leg :=
  match legend with
  | Some leg => Ok leg
  | None => item0 children
  end.

(** [textboxes] are the [AnchoredText] children of the axes, each with its
    [loc]; the result is the box whose extent is measured.  The warning of
    line 1003 is left out. *)
Definition _draw_text_bbox {Box} (textboxes : list (Z * Box)) : result Box :=
  if (1 <? length textboxes)%nat then
    match last (filter (fun box => box.1 ∈ [1%Z; 2%Z]) textboxes) with
    | Some box => Ok box.2
    | None => Raise UnboundLocalError
    end
  else box ← item0 textboxes; Ok box.2.

Definition Qminb (a b : Q) : Q := if Qle_bool a b then a else b.

(** [np.min] *)
Definition np_min (l : list Q) : result Q :=
  match l with
  | [] => Raise (ValueError "zero-size array to reduction operation minimum")
  | x :: t => Ok (foldr Qminb x t)
  end.

(** [ylow]: the new y-limits.  [count] is what [overlap] counts in the box
    below the axes and [ydata] are the y-coordinates of the vertices it
    collects; both are the plotting engine's answer. *)
Definition ylow (yscale_is_log : bool) (count : Z) (ydata : list Q)
    (ylow_arg : option Q) (lim : Q * Q) : result (Q * Q) :=
  if yscale_is_log then Ok lim
  else match ylow_arg with
       | None =>
           if (count =? 0)%Z then Ok (0, lim.2)
           else m ← np_min ydata; Ok (Qminb m lim.1, lim.2)
       | Some _ => Ok (0, lim.2)
       end.

(** [mpl_magic]: the y-limits it leaves and the exception raised, if any;
    [None] when [fuel] runs out.  [leg_overlap] and [text_overlap] are what
    [overlap] counts for the box of a legend and of a text box. *)
Definition mpl_magic {Leg Box} (leg_overlap : Leg -> Q * Q -> Z)
    (text_overlap : Box -> Q * Q -> Z) (yscale_is_log : bool)
    (legend : option Leg) (children : list Leg)
    (textboxes : list (Z * Box)) (count : Z) (ydata : list Q)
    (fuel : nat) (lim : Q * Q) : option ((Q * Q) * option exn) :=
  match ylow yscale_is_log count ydata None lim with
  | Raise e => Some (lim, Some e)
  | Ok lim1 =>
      match _draw_leg_bbox legend children with
      | Raise e => Some (lim1, Some e)
      | Ok leg =>
          match yscale_legend (leg_overlap leg) yscale_is_log None false
                              fuel lim1 with
          | None => None
          | Some (st, Some e) => Some (ylim st, Some e)
          | Some (st, None) =>
              match _draw_text_bbox textboxes with
              | Raise e => Some (ylim st, Some e)
              | Ok box =>
                  match yscale_anchored_text (text_overlap box) yscale_is_log
                                             None false fuel (ylim st) with
                  | None => None
                  | Some (st', e) => Some (ylim st', e)
                  end
              end
          end
      end
  end.

(** ** Cuts and cell labels of [hist2dplot]
       (lines 751-752, 763-768 and 898-926) *)

(** [bins[1:] - np.diff(bins) / float(2)] *)
Definition bin_centers (bins : list Q) : list Q :=
  zip_with (fun hi d => hi - d / 2) (but_first bins) (diff bins).

(** The element type of the grid that is drawn, which [np.copy(h.values())]
    keeps: integers or floats. *)
Inductive grid_dtype : Type := IntGrid | FloatGrid.

(** One cell of an array of floats under [H[H < cmin] = None] and then
    [H[H > cmax] = None]: a cell that is cut holds no number any more. *)
Definition cut_cell (cmin cmax : option Q) (x : Q) : option Q :=
  let below := match cmin with Some c => Qgtb c x | None => false end in
  let above := match cmax with Some c => Qgtb x c | None => false end in
  if below || above then None else Some x.

(** Lines 765-768, on the transposed grid.  An array of integers takes no
    [None]: there the assignment raises a [TypeError], whichever cells the
    cut selects.  The message is the interpreter's. *)
Definition cut (dtype : grid_dtype) (cmin cmax : option Q)
    (H : list (list Q)) : result (list (list (option Q))) :=
  let refused (c : option Q) :=
    match dtype, c with IntGrid, Some _ => true | _, _ => false end in
  if refused cmin || refused cmax
  then Raise (TypeError
         "int() argument must be a string, a bytes-like object or a real number, not 'NoneType'")
  else Ok (fmap (M:=list) (cut_cell cmin cmax) <$> H).

(** The shape of a two-dimensional array given by its rows, the shape of
    its transpose, and the transpose. *)
Definition shape2 {A} (m : list (list A)) : nat * nat :=
  (length m, length (default [] (head m))).
Definition shape_T (s : nat * nat) : nat * nat := (s.2, s.1).
Definition transpose {A} (m : list (list A)) : list (list A) :=
  (fun j => omap (fun row => row !! j) m) <$> seq 0 (shape2 m).2.

(** Rows of one length; other nested lists make no two-dimensional
    array, and their shape is that of no grid. *)
Definition rectangular {A} (m : list (list A)) : bool :=
  forallb (fun row => (length row =? (shape2 m).2)%nat) m.

(** [m[i, j]] *)
Definition item2 {A} (m : list (list A)) (i j : nat) : result A :=
  row ← lookup_item m i; lookup_item row j.

(** The [labels] argument: absent, a bool, a nested list of labels, or
    anything else. *)
Inductive labels_arg (L : Type) : Type :=
| LabelsNone
| LabelsBool (b : bool)
| LabelsArray (rows : list (list L))
| LabelsOther.
Arguments LabelsNone {L}.
Arguments LabelsBool {L} b.
Arguments LabelsArray {L} rows.
Arguments LabelsOther {L}.

(** What a cell text shows: the value of the cell, or a given label. *)
Inductive cell_text (L : Type) : Type :=
| ValueText (v : option Q)
| GivenText (l : L).
Arguments ValueText {L} v.
Arguments GivenText {L} l.

(** Lines 898-912: [_labels].  [Ht] is [H] as it is drawn, transposed and
    cut, and [shape] its shape.  The message of the first [ValueError] goes
    on with the two shapes, which are left out here. *)
Definition read_labels {L} (Ht : list (list (option Q))) (shape : nat * nat)
    (labels : labels_arg L) : result (option (list (list (cell_text L)))) :=
  match labels with
  | LabelsBool b => Ok (if b then Some (fmap (M:=list) ValueText <$> Ht) else None)
  | LabelsArray rows =>
      if rectangular rows && bool_decide (shape = shape_T (shape2 rows))
      then Ok (Some (fmap (M:=list) GivenText <$> transpose rows))
      else Raise (ValueError "Labels input has incorrect shape")
  | LabelsNone => Ok None
  | LabelsOther =>
      Raise (ValueError
        "Labels not understood, either specify a bool or a Hist-like array")
  end.

(** [for i, x in enumerate(l)], from index [k] on: what the turns append. *)
Fixpoint for_enumerate {A B} (f : nat -> A -> result (list B)) (k : nat)
    (l : list A) : result (list B) :=
  match l with
  | [] => Ok []
  | x :: t =>
      ys ← f k x;
      rest ← for_enumerate f (S k) t;
      Ok (ys ++ rest)
  end.

(** Lines 914-926: the texts, each with its position. *)
Definition cell_texts {L} (Ht : list (list (option Q)))
    (labels_t : option (list (list (cell_text L)))) (xcs ycs : list Q)
  : result (list (Q * Q * cell_text L)) :=
  match labels_t with
  | None => Ok []
  | Some lt =>
      for_enumerate (fun ix xc =>
        for_enumerate (fun iy yc =>
          _ ← item2 Ht iy ix;
          lab ← item2 lt iy ix;
          Ok [(xc, yc, lab)]) 0 ycs) 0 xcs
  end.

(** The texts [hist2dplot] puts on the grid [g] it draws, whose cells are
    of type [dtype]. *)
Definition hist2d_texts {L} (dtype : grid_dtype) (g : Grid2D)
    (cmin cmax : option Q) (labels : labels_arg L)
  : result (list (Q * Q * cell_text L)) :=
  Ht ← cut dtype cmin cmax (transpose (g_H g));
  lt ← read_labels Ht (shape_T (shape2 (g_H g))) labels;
  cell_texts Ht lt (bin_centers (g_xbins g)) (bin_centers (g_ybins g)).

(** ** Square axes with a colour bar (lines 1201-1235) *)

(** An [axes_size] as its [get_size] reports it: the relative and the
    absolute part, the latter in inches. *)
Definition Fixed (fixed_size : Q) : Q * Q := (0, fixed_size).

(** [a + b] on sizes, and [sum(sizes, start=Fixed(0))] *)
Definition size_add (a b : Q * Q) : Q * Q := (a.1 + b.1, a.2 + b.2).
Definition size_sum (sizes : list (Q * Q)) : Q * Q :=
  foldl size_add (Fixed 0) sizes.

(** [RemainderFixed.get_size]; [bb_width] and [bb_height] are the extent
    of the divider's box in pixels. *)
Definition get_size (xsizes ysizes : list (Q * Q))
    (bb_width bb_height dpi : Q) : Q * Q :=
  let '(xrel, xabs) := size_sum xsizes in
  let '(yrel, yabs) := size_sum ysizes in
  let w := bb_width / dpi - xabs in
  let h := bb_height / dpi - yabs in
  (0, Qminb w h).

(** [make_square_add_cbar]: the sizes given to [set_horizontal] and to
    [set_vertical], as [get_size] reports them. *)
Definition make_square_add_cbar (size pad bb_width bb_height dpi : Q)
  : list (Q * Q) * list (Q * Q) :=
  let margin_size := Fixed size in
  let pad_size := Fixed pad in
  let xsizes := [pad_size; margin_size] in
  let ysizes := xsizes in
  (get_size xsizes ysizes bb_width bb_height dpi :: xsizes,
   get_size xsizes ysizes bb_width bb_height dpi :: ysizes).
(** * Properties *)

(** ** Statements shared by the theorems below *)

(** A histogram whose variances, when present, come one per bin. *)
Definition well_formed (h : Hist) : Prop :=
  forall v, h_variances h = Some v -> length v = length (h_values h).

(** The plottable [p] has the values of [h] with [u] more in the first bin,
    [o] more in the last bin, and the bins in between as they were. *)
Definition flow_sum_effect (u o : Q) (h : Hist) (p : Plottable) : Prop :=
  length (values p) = length (h_values h)
  /\ (exists v v', h_values h !! 0%nat = Some v
                   /\ values p !! 0%nat = Some v' /\ v' == v + u)
  /\ (exists v v', last (h_values h) = Some v
                   /\ last (values p) = Some v' /\ v' == v + o)
  /\ (forall i, (0 < i < pred (length (h_values h)))%nat ->
                values p !! i = h_values h !! i).

(** The flow content read off [h] is an underflow of 2 and an overflow of 3. *)
Definition flow_2_3 (h : Hist) : Prop :=
  exists f, flow_content h = Ok f /\ underflow f == 2 /\ overflow f == 3.

Definition flow_sum_claim : Prop :=
  forall (final_bins : list Q) (hists : list Hist),
    Forall (fun h => well_formed h /\ h_values h <> [] /\ flow_2_3 h) hists ->
    exists fl, make_plottables (Some "sum") final_bins hists = Ok fl
               /\ Forall2 (flow_sum_effect 2 3) hists (fl_plottables fl).

Definition one_bin : Hist :=
  mkHist [10] None (TraitsAxis true true) [2; 10; 3] [].

Definition three_bins : Hist :=
  mkHist [10; 20; 30] (Some [10; 20; 30]) (TraitsAxis true true)
         [2; 10; 20; 30; 3] [2; 10; 20; 30; 3].

(** The flow content [f] with the underflow, or the overflow, taken away. *)
Definition without_underflow (f : FlowContent) : FlowContent :=
  mkFlow 0 (overflow f) 0 (overflowv f).

Definition without_overflow (f : FlowContent) : FlowContent :=
  mkFlow (underflow f) 0 (underflowv f) 0.

(** The explicit errors of [p] are [x] in every one of [n] bins, on both
    sides. *)
Definition errors_all (x : Q) (n : nat) (p : Plottable) : Prop :=
  yerr_lo p = Some (replicate n x) /\ yerr_hi p = Some (replicate n x).

(** A tuple made of ints and floats only: one colour, not one value per
    series. *)
Definition numeric_tuple (v : pyval) : bool :=
  match v with
  | PTuple items => forallb is_int_or_float items
  | _ => false
  end.

(** What series [j] is given for a keyword argument of value [v]. *)
Definition given (v : pyval) (j : nat) : option pyval :=
  match iterable_not_string v with
  | Some items => if numeric_tuple v then Some v else items !! j
  | None => Some v
  end.

(** Every value that is fanned out has at most [n] items. *)
Definition fits (n : nat) (kwargs : list (string * pyval)) : Prop :=
  forall kwarg v items,
    (kwarg, v) ∈ kwargs -> iterable_not_string v = Some items ->
    numeric_tuple v = false -> (length items <= n)%nat.

(** The dictionary [d] after [kwarg] is set to [x], if there is an [x]. *)
Definition write (kwarg : string) (x : option pyval) (d : gmap string pyval)
  : gmap string pyval :=
  match x with Some kw => <[kwarg := kw]> d | None => d end.

(** [l] taken in the order of the indices [order]. *)
Definition pick {A} (order : list nat) (l : list A) : list A :=
  omap (fun i => l !! i) order.

(** The three lists of a series, all taken in the same order. *)
Definition reorder (order : list nat) (s : Series) : Series :=
  mkSeries (pick order (s_plottables s)) (pick order (s_kwargs s))
           (pick order (s_labels s)).

Definition reverse_series (s : Series) : Series :=
  mkSeries (rev (s_plottables s)) (rev (s_kwargs s)) (rev (s_labels s)).

(** Pairs of a key and its index, compared by their keys. *)
Definition le_key {K} (leb : K -> K -> bool) (x y : K * nat) : Prop :=
  leb x.1 y.1 = true.

(** Ascending by total yield, the sum of the values of a series. *)
Definition ascending_yield (ps : list Plottable) : Prop :=
  Sorted (fun p q => Qsum (values p) <= Qsum (values q)) ps.

Definition ascending_label (ls : list (option string)) : Prop :=
  exists l, ls = Some <$> l /\ Sorted (fun a b => String.leb a b = true) l.

(** Ascending by number, for labels that are numbers. *)
Definition ascending_number (keys : list Q) : Prop := Sorted Qle keys.

(** Three histograms on two bins, passed without [label] and to be sorted
    by label, every other argument at its default:
    [histplot([h1, h2, h3], sort="label")]. *)
Definition three_unlabelled : HistplotArgs :=
  mkArgs [mkHist [5; 5] None NoFlow [] []; mkHist [1; 2] None NoFlow [] [];
          mkHist [3; 3] None NoFlow [] []]
         [0; 1; 2] YerrNone None None false false None "step" (YerrBool false)
         LabelNone (SortStr "label") true AxNone (Some "hint") [].

(** ** Statements about [hist2dplot] *)

(** The first and the last column of a grid. *)
Definition col0 (m : list (list Q)) : list Q :=
  (fun r => default 0 (head r)) <$> m.
Definition colL (m : list (list Q)) : list Q :=
  (fun r => default 0 (last r)) <$> m.

(** For each side of the padded grid, whether its flow row or column
    holds anything but zeros. *)
Definition flow_sides (padded : list (list Q)) : Hints :=
  mkHints (negb (all_zero (default [] (head padded))))
          (negb (all_zero (default [] (last padded))))
          (negb (all_zero (col0 padded)))
          (negb (all_zero (colL padded))).

(** The padded grid with every all-zero flow row and column taken off. *)
Definition shown_grid (padded : list (list Q)) : list (list Q) :=
  let s := flow_sides padded in
  keep_hi (hint_yhi s)
    <$> (keep_lo (hint_ylo s)
           <$> keep_hi (hint_xhi s) (keep_lo (hint_xlo s) padded)).

(** Bin edges with a margin of 5% of their range on both sides. *)
Definition padded_bins (bins : list Q) : list Q :=
  match head bins, last bins with
  | Some lo, Some hi =>
      (lo - (hi - lo) * (5 # 100)) :: bins ++ [hi + (hi - lo) * (5 # 100)]
  | _, _ => bins
  end.

(** [padded] has [nx + 2] rows of [ny + 2] entries. *)
Definition padded_shape (nx ny : nat) (padded : list (list Q)) : Prop :=
  length padded = (nx + 2)%nat /\ Forall (fun r => length r = (ny + 2)%nat) padded.

Definition b2n (b : bool) : nat := if b then 1%nat else 0%nat.

(** The markers [flow="hint"] draws for the sides [s] flags. *)
Definition hint_markers (s : Hints) : list draw2d_event :=
  (fun sd => BoundaryMarker sd)
    <$> filter (fun sd => flagged (Some s) sd = true) [XLo; XHi; YLo; YHi].

(** C2 as the specification words it: with an all-zero first flow row,
    [flow="hint"] flags a boundary hint at that edge. *)
Definition hint_at_empty_edge_claim : Prop :=
  forall (h : Hist2D) (xbins ybins : list Q) (nx ny : nat),
    h2_flow_arg h = true -> padded_shape nx ny (h2_padded h) ->
    length xbins = (nx + 1)%nat -> length ybins = (ny + 1)%nat ->
    hint_xlo (flow_sides (h2_padded h)) = false ->
    exists evs g, hist2dplot h xbins ybins AxNone (Some "hint") = (evs, Ok g)
                  /\ BoundaryMarker XLo ∈ evs.

(** One bin in x and in y; the only flow content lies beyond the upper x
    edge. *)
Definition overflow_only : Hist2D :=
  mkHist2D [[4]] [[0; 0; 0]; [0; 4; 0]; [0; 7; 0]]
           [[0; 0; 0]; [0; 4; 0]; [0; 7; 0]] true.

(** ** Statements about the argument checks *)

(** A [histtype] or [flow] that the checks of [histplot] turn down. *)
Definition bad_selector (histtype : string) (flow : option string) : Prop :=
  in_strings histtype allowed_histtype = false \/ flow_allowed flow = false.

(** C4 as the specification words it: both renderers turn a selector
    outside the allowed set down before they draw. *)
Definition selectors_rejected_claim : Prop :=
  (forall a, bad_selector (a_histtype a) (a_flow a) ->
             exists e, histplot a = ([], Raise e))
  /\ (forall h xbins ybins ax flow,
        flow_allowed flow = false ->
        exists e, hist2dplot h xbins ybins ax flow = ([], Raise e)).

Definition one_cell : Hist2D := mkHist2D [[4]] [[4]] [[4]] true.

Definition default_args (hists : list Hist) (final_bins : list Q)
  : HistplotArgs :=
  mkArgs hists final_bins YerrNone None None false false None "step"
         (YerrBool false) LabelNone SortNone true AxNone (Some "hint") [].

Definition with_selectors (a : HistplotArgs) (histtype : string)
    (flow : option string) : HistplotArgs :=
  mkArgs (a_hists a) (a_final_bins a) (a_yerr a) (a_w2 a) (a_w2method a)
         (a_stack a) (a_density a) (a_binwnorm a) histtype (a_xerr a)
         (a_label a) (a_sort a) (a_edges a) (a_ax a) flow (a_kwargs a).

Definition with_options (a : HistplotArgs) (yerr : yerr_arg)
    (w2 : option ndarray) (density : bool) (binwnorm_arg : option Q)
  : HistplotArgs :=
  mkArgs (a_hists a) (a_final_bins a) yerr w2 (a_w2method a)
         (a_stack a) density binwnorm_arg (a_histtype a) (a_xerr a)
         (a_label a) (a_sort a) (a_edges a) (a_ax a) (a_flow a) (a_kwargs a).

(** Options that [histplot] does not take together. *)
Definition conflicting (a : HistplotArgs) : Prop :=
  (a_density a = true /\ is_Some (a_binwnorm a))
  \/ (is_Some (a_w2 a) /\ yerr_is_None (a_yerr a) = false).

(** ** Statements about density *)

(** The sum over all bins of value times bin width, for one plottable and
    for a list of them. *)
Definition area (p : Plottable) : Q := integral (edges p) (values p).
Definition total_area (ps : list Plottable) : Q := Qsum (area <$> ps).



(** ** Statements about the layout loops *)

(** The state after [n] rescalings by [factor]. *)
Definition rescaled (factor : Q) (n : nat) (st : Scaling) : Scaling :=
  Nat.iter n (set_ylim_scaled factor) st.

(** The y-limits after the upper one was multiplied [k] times by
    [factor], and what [k] turns of a loop leave in the log. *)
Definition limits_after (factor : Q) (k : nat) (lim : Q * Q) : Q * Q :=
  (lim.1, Nat.iter k (fun y => y * factor) lim.2).
Definition turns_logged (k : nat) : list log_event :=
  concat (replicate k [LogDebug; LogInfo]).

(** The overlap stays above the tolerance through the first twelve
    checks. *)
Definition keeps_overlapping (overlap : Q * Q -> Z) (otol factor : Q)
    (lim : Q * Q) : Prop :=
  forall k, (k < 12)%nat ->
    otol < inject_Z (overlap (limits_after factor k lim)).

(** How a loop ends when it reaches its cap: the upper limit multiplied
    twelve times, and the exception, or the warning in the log. *)
Definition gave_up (what : string) (soft_fail : bool) (factor : Q)
    (lim : Q * Q) : Scaling * option exn :=
  let msg := ("Could not fit " ++ what ++ " in 10 iterations")%string in
  if soft_fail
  then (mkScaling (limits_after factor 12 lim)
                  (turns_logged 12 ++ [LogWarning msg]) 12, None)
  else (mkScaling (limits_after factor 12 lim) (turns_logged 12) 12,
        Some (RuntimeError
                (msg ++ ", return anyway by passing `soft_fail=True`."))).

(** What C9 says of one loop, run with [fuel]: it ends after [k] turns,
    twelve at most, each of which found the overlap above the tolerance and
    multiplied the upper limit by [factor]; before the cap it ends because
    the overlap is within the tolerance, at the cap it gives up. *)
Definition bounded_loop (run : option (Scaling * option exn))
    (overlap : Q * Q -> Z) (otol factor : Q) (soft_fail : bool)
    (what : string) (lim : Q * Q) : Prop :=
  exists k st e,
    run = Some (st, e)
    /\ (k <= 12)%nat
    /\ (forall j, (j < k)%nat ->
          otol < inject_Z (overlap (limits_after factor j lim)))
    /\ ((k < 12)%nat ->
        st = mkScaling (limits_after factor k lim) (turns_logged k) k
        /\ e = None
        /\ inject_Z (overlap (limits_after factor k lim)) <= otol)
    /\ (k = 12%nat -> (st, e) = gave_up what soft_fail factor lim)
    /\ (soft_fail = true -> e = None)
    /\ (keeps_overlapping overlap otol factor lim ->
        (st, e) = gave_up what soft_fail factor lim).

(** The flow content that counts: what is not strictly positive is taken
    for no content at all. *)
Definition positive_part (f : FlowContent) : FlowContent :=
  mkFlow (if Qgtb (underflow f) 0 then underflow f else 0)
         (if Qgtb (overflow f) 0 then overflow f else 0)
         (if Qgtb (underflow f) 0 then underflowv f else 0)
         (if Qgtb (overflow f) 0 then overflowv f else 0).

(** [h'] is the histogram [h] without the flow content of [h] that is zero
    or negative. *)
Definition drops_empty_flow (h h' : Hist) : Prop :=
  h_values h' = h_values h
  /\ h_variances h' = h_variances h
  /\ exists f, flow_content h = Ok f /\ flow_content h' = Ok (positive_part f).

Definition with_hists (a : HistplotArgs) (hists : list Hist) : HistplotArgs :=
  mkArgs hists (a_final_bins a) (a_yerr a) (a_w2 a) (a_w2method a)
         (a_stack a) (a_density a) (a_binwnorm a) (a_histtype a) (a_xerr a)
         (a_label a) (a_sort a) (a_edges a) (a_ax a) (a_flow a) (a_kwargs a).

(** Two runs of the flow loop that end alike, but for the flow content
    they saw last. *)
Definition same_plottables (r r' : result FlowLoop) : Prop :=
  match r, r' with
  | Ok fl, Ok fl' =>
      fl_plottables fl' = fl_plottables fl
      /\ fl_flow_bins fl' = fl_flow_bins fl
      /\ fl_last fl' = positive_part (fl_last fl)
  | Raise e, Raise e' => e' = e
  | _, _ => False
  end.

(** A histogram with a negative underflow, and the same without it. *)
Definition negative_underflow : Hist :=
  mkHist [4; 6] None (TraitsAxis true true) [-1 # 1; 4; 6; 3] [].
Definition no_underflow : Hist :=
  mkHist [4; 6] None (TraitsAxis false true) [4; 6; 3] [].

(** * Further properties of the code *)

(** ** Statements about the flow loop of [histplot] *)

(** A plottable with one more edge than values and, when it has
    variances, one variance per value. *)
Definition binned (p : Plottable) : Prop :=
  length (edges p) = S (length (values p))
  /\ forall v, variances p = Some v -> length v = length (values p).

(** A histogram that fits the bin edges [final_bins]. *)
Definition fits_bins (final_bins : list Q) (h : Hist) : Prop :=
  length final_bins = S (length (h_values h)) /\ well_formed h.

(** Bin edges in strictly ascending order. *)
Definition increasing (bins : list Q) : Prop := Sorted Qlt bins.

(** [x] when [b] holds, nothing otherwise. *)
Definition when {A} (b : bool) (x : A) : list A := if b then [x] else [].

(** Two histograms: the first has flow content, the last has none. *)
Definition flow_then_none : list Hist :=
  [three_bins; mkHist [1; 1; 1] None NoFlow [] []].

(** ** Statements about supplied errors and [w2] *)

(** An array whose data fill its shape. *)
Definition filled (a : ndarray) : Prop := length (data a) = size_of (shape a).

(** The array of shape [(len(rows), n)] with the given rows. *)
Definition array2d (n : nat) (rows : list (list Q)) : ndarray :=
  mkArray [length rows; n] (concat rows).

(** [p] with the variances and method that [w2] and [w2method] give it. *)
Definition with_w2 (w2method : option string) (row : list Q) (p : Plottable)
  : Plottable :=
  mkPlottable (values p) (edges p) (Some row) (yerr_lo p) (yerr_hi p)
              (density p) w2method.

(** ** Statements about keyword arguments, sorting and artists *)

(** The series index a Python index stands for, among [n]. *)
Definition py_pos (n : nat) (ix : Z) : nat :=
  Z.to_nat (if (ix <? 0)%Z then (Z.of_nat n + ix)%Z else ix).

(** Python indices that are in range for [n] items. *)
Definition in_range (n : nat) (ix : Z) : Prop :=
  (- Z.of_nat n <= ix < Z.of_nat n)%Z.

(** The label a drawing call carries, if any. *)
Definition event_label (ev : draw_event) : option string :=
  match ev with
  | Stairs _ _ _ label _ => label
  | Errorbar _ _ _ label _ => label
  | LegendErrorbar label => label
  | Scatter _ _ | DashedLine _ _ => None
  end.

(** A sort that keeps every series: anything but a sort by label whose
    [label] is not a list of one label per series. *)
Definition sort_keeps_all (sort : sort_arg) (label : label_arg) (n : nat)
  : Prop :=
  match sort with
  | SortStr s =>
      in_strings (default EmptyString (split "_"%char s !! 0%nat))
                 ["l"; "label"] = true ->
      exists l, label = LabelList l /\ length l = n
  | _ => True
  end.

(** ** Statements about [soft_update_kwargs] *)

(** The defaults of [mods] that the rc state leaves standing; of two
    entries with one key the first counts. *)
Definition standing {V} (not_default : list string)
    (mods : list (string * V)) : gmap string V :=
  filter (fun kv => rc_modded not_default kv.1 = false)
         (list_to_map mods : gmap string V).

(** ** Statements about [sort_legend] *)

(** The handle of the last legend entry labelled [k]. *)
Definition last_handle {T} (labels : list string) (handles : list T)
    (k : string) : option T :=
  snd <$> last (filter (fun kv => kv.1 = k) (zip labels handles)).

(** ** Statements about the layout loops *)

(** After [k] rescalings the overlap is within the tolerance, and it was
    not after fewer. *)
Definition first_fit (overlap : Q * Q -> Z) (otol factor : Q) (lim : Q * Q)
    (k : nat) : Prop :=
  inject_Z (overlap (ylim (rescaled factor k (start_scaling lim)))) <= otol
  /\ forall j, (j < k)%nat ->
       otol < inject_Z (overlap (ylim (rescaled factor j (start_scaling lim)))).

(** A loop run with [fuel] returns [st] and no exception exactly when the
    first fit comes within the first twelve checks, and [st] is the state
    at this fit. *)
Definition returns_at_first_fit (run : nat -> option (Scaling * option exn))
    (overlap : Q * Q -> Z) (otol factor : Q) (lim : Q * Q) : Prop :=
  forall fuel st,
    run fuel = Some (st, None)
    <-> exists k, (k <= 11)%nat /\ (k < fuel)%nat
                  /\ first_fit overlap otol factor lim k
                  /\ st = rescaled factor k (start_scaling lim).

(** ** Statements about [ylow] and [mpl_magic] *)

(** The upper limit after [k] rescalings by [factor]. *)
Definition scaled_up (factor : Q) (k : nat) (top : Q) : Q :=
  Nat.iter k (fun y => y * factor) top.

(** ** Statements about [flow="sum"] in [hist2dplot] *)

(** The sum of all cells. *)
Definition total (m : list (list Q)) : Q := Qsum (Qsum <$> m).

(** [vf[1:-1, 1:-1]] *)
Definition core (vf : list (list Q)) : list (list Q) := inner <$> inner vf.

(** [nx] rows of [ny] cells. *)
Definition grid (nx ny : nat) (m : list (list Q)) : Prop :=
  length m = nx /\ Forall (fun r => length r = ny) m.

(** The cell [m[i, j]], and [m] with [x] in it. *)
Definition cell (m : list (list Q)) (i j : nat) : option Q :=
  row ← m !! i; row !! j.
Definition set_cell (i j : nat) (x : Q) (m : list (list Q))
  : list (list Q) :=
  match m !! i with
  | Some row => <[i := <[j := x]> row]> m
  | None => m
  end.

(** ** Statements about the cell labels of [hist2dplot] *)

(** A grid of [nx] by [ny] cells, of any content. *)
Definition grid_of {A} (nx ny : nat) (m : list (list A)) : Prop :=
  length m = nx /\ Forall (fun r => length r = ny) m.

(** One text per cell: row [ix] of [cells] along the [ix]-th centre in x,
    its entry [iy] at the [iy]-th centre in y. *)
Definition texts_of {A L} (show : A -> cell_text L) (xcs ycs : list Q)
    (cells : list (list A)) : list (Q * Q * cell_text L) :=
  concat (zip_with (fun xc row =>
                      zip_with (fun yc c => (xc, yc, show c)) ycs row)
                   xcs cells).

(** The grid takes the cuts: it holds floats, or there is no cut. *)
Definition takes_cuts (dtype : grid_dtype) (cmin cmax : option Q) : Prop :=
  dtype = FloatGrid \/ (cmin = None /\ cmax = None).

(** A grid drawn on bin edges that fit it. *)
Definition drawn (nx ny : nat) (g : Grid2D) : Prop :=
  (1 <= nx)%nat /\ (1 <= ny)%nat
  /\ grid_of nx ny (g_H g)
  /\ length (g_xbins g) = S nx /\ length (g_ybins g) = S ny.

(** ** Statements about the boxes and the square axes *)

(** A text box at the upper right or the upper left. *)
Definition upper {Box} (box : Z * Box) : Prop := box.1 ∈ [1%Z; 2%Z].

(** The absolute extent of a list of sizes. *)
Definition extent (sizes : list (Q * Q)) : Q := Qsum (snd <$> sizes).

(** The value of cell [(i, j)], and 0 where there is none. *)
Definition at2 (m : list (list Q)) (i j : nat) : Q := default 0 (cell m i j).

(** The flow row (or column) of the grid with flow bins that lies next to
    row [i] of a histogram of [n] rows: the lower one for the first row,
    the upper one for the last. *)
Definition edge_of (n i : nat) : list nat :=
  (if (i =? 0)%nat then [0%nat] else [])
  ++ (if (i =? n - 1)%nat then [S n] else []).

(** The flow cells of [vf] next to cell [(i, j)] of the histogram: in its
    row, in its column, and diagonally off a corner. *)
Definition flow_next (vf : list (list Q)) (nx ny i j : nat) : Q :=
  Qsum ((fun a => at2 vf a (S j)) <$> edge_of nx i)
  + Qsum ((fun b => at2 vf (S i) b) <$> edge_of ny j)
  + Qsum (concat ((fun a => (fun b => at2 vf a b) <$> edge_of ny j)
                    <$> edge_of nx i)).

(** ** Statements about density as drawn *)

(** The series a drawing call draws: [ax.stairs] draws it for the
    histtypes "step", "fill" and "band", [ax.errorbar] for "errorbar".  The
    error bars that "step" adds repeat the series of the outline and are
    not counted again. *)
Definition drawn_by (histtype : string) (ev : draw_event) : option Plottable :=
  match ev with
  | Stairs _ p _ _ _ =>
      if String.eqb histtype "errorbar" then None else Some p
  | Errorbar p _ _ _ _ =>
      if String.eqb histtype "errorbar" then Some p else None
  | LegendErrorbar _ | Scatter _ _ | DashedLine _ _ => None
  end.

(** The series of a call in the order they were drawn, with the values
    that were handed to the axes. *)
Definition drawn_series (a : HistplotArgs) (evs : list draw_event)
  : list Plottable :=
  omap (drawn_by (a_histtype a)) evs.


(** A call with [density=True] on histograms given by their values, all
    other arguments as [histplot] has them by default. *)
Definition density_call (stack : bool) (vals : list (list Q))
    (final_bins : list Q) : HistplotArgs :=
  mkArgs ((fun v => mkHist v None NoFlow [] []) <$> vals) final_bins
         YerrNone None None stack true None "step" (YerrBool false)
         LabelNone SortNone true AxNone (Some "hint") [].



(** Two histograms with content in their overflow bins. *)
Definition two_with_overflow : list Hist :=
  [mkHist [1; 3] None (TraitsAxis true true) [0; 1; 3; 4] [];
   mkHist [2; 2] None (TraitsAxis true true) [0; 2; 2; 4] []].

(** ** Arrays *)

Lemma Qgtb_true (a b : Q) : Qgtb a b = true <-> b < a.
Proof.
  unfold Qgtb. rewrite negb_true_iff, <- not_true_iff_false, Qle_bool_iff.
  split; [apply Qnot_le_lt | apply Qlt_not_le].
Qed.

Lemma Qgtb_false (a b : Q) : Qgtb a b = false <-> a <= b.
Proof.
  unfold Qgtb. rewrite negb_false_iff. apply Qle_bool_iff.
Qed.

Lemma add_item0_cons (x d : Q) (l : list Q) :
  add_item0 (x :: l) d = Ok ((x + d) :: l).
Proof. reflexivity. Qed.

Lemma item_last_snoc {A} (l : list A) (x : A) : item_last (l ++ [x]) = Ok x.
Proof. unfold item_last. now rewrite last_snoc. Qed.

Lemma add_item_last_snoc (x d : Q) (l : list Q) :
  add_item_last (l ++ [x]) d = Ok (l ++ [x + d]).
Proof.
  unfold add_item_last. rewrite item_last_snoc. cbn.
  rewrite length_app. cbn. replace (pred (length l + 1)) with (length l + 0)%nat by lia.
  now rewrite insert_app_r.
Qed.

(** A list with at least two entries has a first, a last, and a middle. *)
Lemma list_ends {A} (l : list A) :
  (2 <= length l)%nat -> exists a mid b, l = a :: mid ++ [b].
Proof.
  destruct l as [|a t]; cbn; [lia|]. intros Hlen.
  destruct (decide (t = [])) as [->|Hne]; [cbn in Hlen; lia|].
  destruct (exists_last Hne) as (mid & b & ->). eauto.
Qed.

(** ** Flow content in [histplot] *)

Lemma add_variance_ends (variance : option (list Q)) (n : nat) :
  (2 <= n)%nat ->
  (forall v, variance = Some v -> length v = n) ->
  forall d,
    (exists w, add_variance add_item0 variance d = Ok w
               /\ forall v, w = Some v -> length v = n)
    /\ (exists w, add_variance add_item_last variance d = Ok w
                  /\ forall v, w = Some v -> length v = n).
Proof.
  intros Hn Hlen d. destruct variance as [v|]; cbn.
  - specialize (Hlen v eq_refl).
    destruct (list_ends v) as (a & mid & b & ->); [lia|].
    split.
    + rewrite add_item0_cons. cbn. eexists; split; [reflexivity|].
      intros ? [= <-]. exact Hlen.
    + change (a :: mid ++ [b]) with ((a :: mid) ++ [b]).
      rewrite add_item_last_snoc. cbn. eexists; split; [reflexivity|].
      intros ? [= <-]. rewrite <- Hlen. cbn. rewrite !length_app. reflexivity.
  - split; eexists; (split; [reflexivity | discriminate]).
Qed.

Lemma bind_Ok {A B} (a : A) (k : A -> result B) : (Ok a ≫= k) = k a.
Proof. reflexivity. Qed.

Lemma sum_flow_ends (a b : Q) (mid : list Q) (variance : option (list Q))
    (f : FlowContent) :
  0 < underflow f -> 0 < overflow f ->
  (forall v, variance = Some v -> length v = length (a :: mid ++ [b])) ->
  exists w, sum_flow (a :: mid ++ [b]) variance f
            = Ok ((a + underflow f) :: mid ++ [b + overflow f], w).
Proof.
  intros Hu Ho Hlen. unfold sum_flow, sum_underflow, sum_overflow.
  apply Qgtb_true in Hu, Ho. rewrite Hu, add_item0_cons, bind_Ok.
  assert (Hn : (2 <= length (a :: mid ++ [b]))%nat)
    by (cbn; rewrite length_app; cbn; lia).
  destruct (add_variance_ends variance _ Hn Hlen (underflowv f))
    as [(w & -> & Hw) _].
  rewrite !bind_Ok, Ho.
  change ((a + underflow f) :: mid ++ [b])
    with (((a + underflow f) :: mid) ++ [b]).
  rewrite add_item_last_snoc, bind_Ok.
  destruct (add_variance_ends w _ Hn Hw (overflowv f)) as [_ (w' & -> & _)].
  rewrite bind_Ok. eauto.
Qed.

Lemma flow_plottable_sum (final_bins flow_bins value : list Q)
    (variance : option (list Q)) (f : FlowContent) :
  flow_plottable (Some "sum") final_bins flow_bins value variance f
  = ('(value, variance) ← sum_flow value variance f;
     Ok (new_Plottable value final_bins variance, flow_bins)).
Proof. reflexivity. Qed.

Lemma flow_plottable_show (final_bins flow_bins value : list Q)
    (variance : option (list Q)) (f : FlowContent) :
  flow_plottable (Some "show") final_bins flow_bins value variance f
  = ('(fb, value, variance) ← show_flow final_bins value variance f;
     Ok (new_Plottable value fb variance, fb)).
Proof. reflexivity. Qed.

Lemma flow_sum_effect_ends (u o a b : Q) (mid : list Q) (h : Hist)
    (p : Plottable) :
  h_values h = a :: mid ++ [b] ->
  values p = (a + u) :: mid ++ [b + o] ->
  forall u' o', u == u' -> o == o' -> flow_sum_effect u' o' h p.
Proof.
  intros Hh Hp u' o' Hu Ho. unfold flow_sum_effect. rewrite Hh, Hp.
  repeat split.
  - cbn. rewrite !length_app. reflexivity.
  - exists a, (a + u). cbn. repeat split. now rewrite Hu.
  - exists b, (b + o).
    change (a :: mid ++ [b]) with ((a :: mid) ++ [b]).
    change ((a + u) :: mid ++ [b + o]) with (((a + u) :: mid) ++ [b + o]).
    rewrite !last_snoc. repeat split. now rewrite Ho.
  - intros i Hi. cbn in Hi. rewrite length_app in Hi. cbn in Hi.
    destruct i as [|i]; [lia|]. rewrite !lookup_cons.
    rewrite !lookup_app_l by lia. reflexivity.
Qed.

(** One histogram under [flow="sum"]. *)
Lemma flow_step_sum (final_bins : list Q) (st : FlowLoop) (h : Hist) :
  well_formed h -> (2 <= length (h_values h))%nat -> flow_2_3 h ->
  exists p f, flow_step (Some "sum") final_bins st h
              = Ok (mkFlowLoop (fl_plottables st ++ [p]) (fl_flow_bins st) f)
              /\ flow_sum_effect 2 3 h p.
Proof.
  intros Hwf Hlen (f & Hf & Hu & Ho).
  destruct (list_ends _ Hlen) as (a & mid & b & Hv).
  unfold flow_step. rewrite Hf, bind_Ok, flow_plottable_sum.
  destruct (sum_flow_ends a b mid (h_variances h) f) as (w & Hsum).
  - rewrite Hu. reflexivity.
  - rewrite Ho. reflexivity.
  - rewrite <- Hv. exact Hwf.
  - rewrite Hv, Hsum. cbn. do 2 eexists. split; [reflexivity|].
    eapply flow_sum_effect_ends; [exact Hv | reflexivity | exact Hu | exact Ho].
Qed.

Lemma flow_loop_sum (final_bins : list Q) (hists : list Hist) :
  Forall (fun h => well_formed h /\ (2 <= length (h_values h))%nat
                   /\ flow_2_3 h) hists ->
  forall st, exists ps f,
    flow_loop (Some "sum") final_bins st hists
    = Ok (mkFlowLoop (fl_plottables st ++ ps) (fl_flow_bins st) f)
    /\ Forall2 (flow_sum_effect 2 3) hists ps.
Proof.
  induction 1 as [|h hs (Hwf & Hlen & Hflow) _ IH]; intros st.
  - exists [], (fl_last st). rewrite app_nil_r. destruct st. split; [reflexivity|].
    constructor.
  - destruct (flow_step_sum final_bins st h Hwf Hlen Hflow) as (p & f & Hstep & Hp).
    cbn [flow_loop]. rewrite Hstep, bind_Ok.
    destruct (IH (mkFlowLoop (fl_plottables st ++ [p]) (fl_flow_bins st) f))
      as (ps & f' & -> & Hps).
    exists (p :: ps), f'. cbn. rewrite <- app_assoc. split; [reflexivity|].
    now constructor.
Qed.

(** A histogram of one bin: the bin is first and last, and takes both the
    underflow and the overflow. *)
Lemma flow_sum_one_bin : ~ flow_sum_claim.
Proof.
  intros Hclaim.
  destruct (Hclaim [0; 1] [one_bin]) as (fl & Hrun & Heff).
  - constructor; [|constructor]. repeat split.
    + intros v [=].
    + discriminate.
    + exists (mkFlow 2 3 0 0). repeat split; reflexivity.
  - vm_compute in Hrun. injection Hrun as <-.
    inversion Heff as [|? p ? ? (_ & (v & v' & Hv & Hv' & Hq) & _) _]; subst.
    cbn in Hv, Hv'. injection Hv as <-. injection Hv' as <-.
    vm_compute in Hq. discriminate.
Qed.

(** C1: under [flow="sum"], every histogram with at least two bins, an
    underflow of 2 and an overflow of 3 gives a plottable whose first value
    is 2 more, whose last value is 3 more, and whose values in between are
    those of the histogram. *)
Theorem histplot_flow_sum (final_bins : list Q) (hists : list Hist) :
  Forall (fun h => well_formed h /\ (2 <= length (h_values h))%nat
                   /\ flow_2_3 h) hists ->
  exists fl, make_plottables (Some "sum") final_bins hists = Ok fl
             /\ Forall2 (flow_sum_effect 2 3) hists (fl_plottables fl).
Proof.
  intros Hall. unfold make_plottables.
  destruct (flow_loop_sum final_bins hists Hall
              (mkFlowLoop [] final_bins (mkFlow 0 0 0 0))) as (ps & f & -> & Hps).
  eexists. split; [reflexivity|]. exact Hps.
Qed.

Lemma histplot_flow_sum_witness :
  exists fl, make_plottables (Some "sum") [0; 1; 2; 3] [three_bins] = Ok fl
             /\ Forall2 (flow_sum_effect 2 3) [three_bins] (fl_plottables fl).
Proof.
  apply histplot_flow_sum. constructor; [|constructor]. repeat split.
  - intros v [= <-]. reflexivity.
  - cbn. lia.
  - exists (mkFlow 2 3 2 3). repeat split; reflexivity.
Defined.

Lemma Qgtb_0_0 : Qgtb 0 0 = false.
Proof. reflexivity. Qed.

Lemma bind_ext {A B} (m : result A) (k k' : A -> result B) :
  (forall a, k a = k' a) -> (m ≫= k) = (m ≫= k').
Proof. intros Hk. destruct m; [apply Hk | reflexivity]. Qed.

Lemma sum_underflow_skip (f : FlowContent) st : underflow f <= 0 -> sum_underflow f st = Ok st.
Proof.
  intros H%Qgtb_false. unfold sum_underflow. destruct st. now rewrite H.
Qed.

Lemma sum_overflow_skip (f : FlowContent) st : overflow f <= 0 -> sum_overflow f st = Ok st.
Proof.
  intros H%Qgtb_false. unfold sum_overflow. destruct st. now rewrite H.
Qed.

Lemma show_underflow_skip (f : FlowContent) size st :
  underflow f <= 0 -> show_underflow size f st = Ok st.
Proof.
  intros H%Qgtb_false. unfold show_underflow. destruct st as [[? ?] ?].
  now rewrite H.
Qed.

Lemma show_overflow_skip (f : FlowContent) size st :
  overflow f <= 0 -> show_overflow size f st = Ok st.
Proof.
  intros H%Qgtb_false. unfold show_overflow. destruct st as [[? ?] ?].
  now rewrite H.
Qed.

(** Each side reads only its own flow content. *)
Lemma sum_overflow_without_underflow (f : FlowContent) st :
  sum_overflow (without_underflow f) st = sum_overflow f st.
Proof. reflexivity. Qed.

Lemma sum_underflow_without_overflow (f : FlowContent) st :
  sum_underflow (without_overflow f) st = sum_underflow f st.
Proof. reflexivity. Qed.

Lemma show_overflow_without_underflow (f : FlowContent) size st :
  show_overflow size (without_underflow f) st = show_overflow size f st.
Proof. reflexivity. Qed.

Lemma show_underflow_without_overflow (f : FlowContent) size st :
  show_underflow size (without_overflow f) st = show_underflow size f st.
Proof. reflexivity. Qed.

Lemma sum_flow_without_underflow (f : FlowContent) value variance :
  underflow f <= 0 ->
  sum_flow value variance f = sum_flow value variance (without_underflow f).
Proof.
  intros H. unfold sum_flow.
  rewrite (sum_underflow_skip f) by exact H.
  rewrite (sum_underflow_skip (without_underflow f)) by apply Qle_refl.
  apply bind_ext. intros st. now rewrite sum_overflow_without_underflow.
Qed.

Lemma sum_flow_without_overflow (f : FlowContent) value variance :
  overflow f <= 0 ->
  sum_flow value variance f = sum_flow value variance (without_overflow f).
Proof.
  intros H. unfold sum_flow. rewrite sum_underflow_without_overflow.
  apply bind_ext. intros st. rewrite (sum_overflow_skip f) by exact H.
  now rewrite (sum_overflow_skip (without_overflow f)) by apply Qle_refl.
Qed.

Lemma show_flow_without_underflow (f : FlowContent) final_bins value variance :
  underflow f <= 0 ->
  show_flow final_bins value variance f
  = show_flow final_bins value variance (without_underflow f).
Proof.
  intros H. unfold show_flow. apply bind_ext. intros size.
  rewrite (show_underflow_skip f) by exact H.
  rewrite (show_underflow_skip (without_underflow f)) by apply Qle_refl.
  apply bind_ext. intros st. now rewrite show_overflow_without_underflow.
Qed.

Lemma show_flow_without_overflow (f : FlowContent) final_bins value variance :
  overflow f <= 0 ->
  show_flow final_bins value variance f
  = show_flow final_bins value variance (without_overflow f).
Proof.
  intros H. unfold show_flow. apply bind_ext. intros size.
  rewrite show_underflow_without_overflow.
  apply bind_ext. intros st. rewrite (show_overflow_skip f) by exact H.
  now rewrite (show_overflow_skip (without_overflow f)) by apply Qle_refl.
Qed.

Lemma flow_styling_without_underflow (f : FlowContent) flow final_bins s :
  underflow f <= 0 ->
  flow_styling flow final_bins s f
  = flow_styling flow final_bins s (without_underflow f).
Proof.
  intros H%Qgtb_false. unfold flow_styling, without_underflow.
  cbn [underflow overflow]. now rewrite H, Qgtb_0_0.
Qed.

Lemma flow_styling_without_overflow (f : FlowContent) flow final_bins s :
  overflow f <= 0 ->
  flow_styling flow final_bins s f
  = flow_styling flow final_bins s (without_overflow f).
Proof.
  intros H%Qgtb_false. unfold flow_styling, without_overflow.
  cbn [underflow overflow]. now rewrite H, Qgtb_0_0.
Qed.

(** With an underflow (or overflow) that is zero or negative,
    [flow="sum"] adds nothing to the first (last) bin, [flow="show"] appends
    no bin on that side, and the plottable and the flow markers are those
    computed without flow content on that side. *)
Lemma flow_skipped_sides (flow : option string)
    (final_bins flow_bins value : list Q) (variance : option (list Q))
    (s : Series) (size : Q) (f : FlowContent) :
  flow = Some "sum" \/ flow = Some "show" ->
  (underflow f <= 0 ->
     sum_underflow f (value, variance) = Ok (value, variance)
     /\ show_underflow size f (final_bins, value, variance)
        = Ok (final_bins, value, variance)
     /\ flow_plottable flow final_bins flow_bins value variance f
        = flow_plottable flow final_bins flow_bins value variance
            (without_underflow f)
     /\ flow_styling flow final_bins s f
        = flow_styling flow final_bins s (without_underflow f))
  /\ (overflow f <= 0 ->
     sum_overflow f (value, variance) = Ok (value, variance)
     /\ show_overflow size f (final_bins, value, variance)
        = Ok (final_bins, value, variance)
     /\ flow_plottable flow final_bins flow_bins value variance f
        = flow_plottable flow final_bins flow_bins value variance
            (without_overflow f)
     /\ flow_styling flow final_bins s f
        = flow_styling flow final_bins s (without_overflow f)).
Proof.
  intros Hflow. split; intros Hle; repeat split.
  - now apply sum_underflow_skip.
  - now apply show_underflow_skip.
  - destruct Hflow as [-> | ->].
    + now rewrite !flow_plottable_sum, sum_flow_without_underflow.
    + now rewrite !flow_plottable_show, show_flow_without_underflow.
  - now apply flow_styling_without_underflow.
  - now apply sum_overflow_skip.
  - now apply show_overflow_skip.
  - destruct Hflow as [-> | ->].
    + now rewrite !flow_plottable_sum, sum_flow_without_overflow.
    + now rewrite !flow_plottable_show, show_flow_without_overflow.
  - now apply flow_styling_without_overflow.
Qed.

(** ** Supplied errors *)

Lemma Qmult_1_l_eq (x : Q) : 1 * x = x.
Proof.
  destruct x as [n d]. unfold Qmult. cbn [Qnum Qden].
  now rewrite Z.mul_1_l, Pos.mul_1_l.
Qed.

(** C3: with three series of five bins and a number as [yerr], the resolved
    errors have shape (3, 2, 5), every entry is that number, and every
    series is given it as lower and as upper error in all five bins. *)
Theorem histplot_scalar_yerr (x : Q) (final_bins : list Q)
    (ps : list Plottable) :
  length final_bins = 6%nat -> length ps = 3%nat ->
  exists a ps',
    resolve_yerr (YerrNumber x) (length ps) final_bins = Ok (Some a)
    /\ shape a = [3; 2; 5]%nat
    /\ (forall i j k, (i < 3)%nat -> (j < 2)%nat -> (k < 5)%nat ->
                      item3 a i j k = Some x)
    /\ attach_errors (subarrays a) ps = Ok ps'
    /\ length ps' = 3%nat
    /\ Forall (errors_all x 5) ps'.
Proof.
  intros Hbins Hps.
  do 7 (destruct final_bins as [|? final_bins]; try discriminate).
  do 4 (destruct ps as [|? ps]; try discriminate).
  unfold resolve_yerr, yerr_array, ones_times. rewrite Qmult_1_l_eq.
  do 2 eexists. split; [vm_compute; reflexivity|].
  split; [reflexivity|]. split; [|split; [vm_compute; reflexivity|]].
  - intros i j k Hi Hj Hk.
    destruct i as [|[|[|i]]]; try lia;
      destruct j as [|[|j]]; try lia;
      destruct k as [|[|[|[|[|k]]]]]; try lia; reflexivity.
  - split; [reflexivity|]. repeat constructor.
Qed.

Lemma histplot_scalar_yerr_witness :
  exists a ps',
    resolve_yerr (YerrNumber (7 # 2)) 3 [0; 1; 2; 3; 4; 5] = Ok (Some a)
    /\ shape a = [3; 2; 5]%nat
    /\ (forall i j k, (i < 3)%nat -> (j < 2)%nat -> (k < 5)%nat ->
                      item3 a i j k = Some (7 # 2))
    /\ attach_errors (subarrays a)
         (replicate 3 (new_Plottable [1; 2; 3; 4; 5] [0; 1; 2; 3; 4; 5] None))
       = Ok ps'
    /\ length ps' = 3%nat
    /\ Forall (errors_all (7 # 2) 5) ps'.
Proof.
  apply (histplot_scalar_yerr (7 # 2) [0; 1; 2; 3; 4; 5]
           (replicate 3 (new_Plottable [1; 2; 3; 4; 5] [0; 1; 2; 3; 4; 5] None)));
    reflexivity.
Defined.

(** ** Per-series keyword arguments *)

Lemma fan_out_lookup (kwarg : string) (items : list pyval) :
  forall (i : nat) (chunked : list (gmap string pyval)),
    (i + length items <= length chunked)%nat ->
    exists c', fan_out i chunked kwarg items = Ok c'
      /\ length c' = length chunked
      /\ forall j, c' !! j
           = write kwarg (if decide (i <= j)%nat then items !! (j - i)%nat
                          else None) <$> chunked !! j.
Proof.
  induction items as [|kw rest IH]; intros i chunked Hlen.
  - exists chunked. split; [reflexivity|]. split; [reflexivity|].
    intros j. case_decide; rewrite ?lookup_nil; cbn;
      now destruct (chunked !! j).
  - cbn in Hlen. cbn [fan_out].
    destruct (lookup_lt_is_Some_2 chunked i) as [d Hd]; [lia|]. rewrite Hd.
    destruct (IH (S i) (<[i := <[kwarg := kw]> d]> chunked)) as (c' & -> & Hl & Hc).
    { rewrite length_insert. lia. }
    exists c'. split; [reflexivity|]. rewrite length_insert in Hl.
    split; [exact Hl|]. intros j. rewrite Hc.
    destruct (decide (j = i)) as [->|Hne].
    + rewrite list_lookup_insert_eq by lia. rewrite Hd.
      rewrite decide_False by lia. rewrite decide_True by lia.
      now rewrite Nat.sub_diag.
    + rewrite list_lookup_insert_ne by congruence.
      destruct (decide (i <= j)%nat) as [Hij|Hij].
      * rewrite decide_True by lia.
        replace (j - i)%nat with (S (j - S i)) by lia. reflexivity.
      * now rewrite decide_False by lia.
Qed.

Lemma give_all_lookup (kwarg : string) (v : pyval)
    (chunked : list (gmap string pyval)) (j : nat) :
  give_all chunked kwarg v !! j = write kwarg (Some v) <$> chunked !! j.
Proof. unfold give_all. now rewrite list_lookup_fmap. Qed.

(** One keyword argument: every series has it written as [given] says. *)
Lemma chunk_kwarg_lookup (kwarg : string) (v : pyval)
    (chunked : list (gmap string pyval)) :
  (forall items, iterable_not_string v = Some items ->
                 numeric_tuple v = false ->
                 (length items <= length chunked)%nat) ->
  exists c', chunk_kwarg chunked kwarg v = Ok c'
    /\ length c' = length chunked
    /\ forall j, c' !! j = write kwarg (given v j) <$> chunked !! j.
Proof.
  intros Hfit. unfold chunk_kwarg, given.
  destruct (iterable_not_string v) as [items|] eqn:Hit.
  - assert (Hnum : is_tuple v && forallb is_int_or_float items = numeric_tuple v).
    { destruct v; try discriminate; cbn in Hit; injection Hit as <-; reflexivity. }
    rewrite Hnum. destruct (numeric_tuple v) eqn:Hn.
    + eexists. split; [reflexivity|]. split; [apply length_fmap|].
      apply give_all_lookup.
    + destruct (fan_out_lookup kwarg items 0 chunked) as (c' & -> & Hl & Hc).
      { specialize (Hfit items eq_refl eq_refl). lia. }
      exists c'. split; [reflexivity|]. split; [exact Hl|].
      intros j. rewrite Hc. rewrite decide_True by lia.
      now rewrite Nat.sub_0_r.
  - eexists. split; [reflexivity|]. split; [apply length_fmap|].
    apply give_all_lookup.
Qed.

Lemma write_lookup_ne (kwarg k : string) (x : option pyval)
    (d : gmap string pyval) :
  kwarg <> k -> write kwarg x d !! k = d !! k.
Proof. intros Hne. destruct x; cbn; [now rewrite lookup_insert_ne|reflexivity]. Qed.

Lemma write_lookup_eq (kwarg : string) (x : option pyval)
    (d : gmap string pyval) :
  write kwarg x d !! kwarg = match x with Some kw => Some kw | None => d !! kwarg end.
Proof. destruct x; cbn; [now rewrite lookup_insert_eq|reflexivity]. Qed.

(** The whole dictionary: keys are written once each, and nothing else is
    touched. *)
Lemma chunk_loop_lookup (kwargs : list (string * pyval)) :
  forall chunked : list (gmap string pyval),
    NoDup kwargs.*1 -> fits (length chunked) kwargs ->
    exists c', chunk_loop chunked kwargs = Ok c'
      /\ length c' = length chunked
      /\ forall j d', c' !! j = Some d' ->
           exists d, chunked !! j = Some d
             /\ (forall k, k ∉ kwargs.*1 -> d' !! k = d !! k)
             /\ (forall k v, (k, v) ∈ kwargs ->
                   d' !! k = match given v j with
                             | Some x => Some x
                             | None => d !! k
                             end).
Proof.
  induction kwargs as [|[k0 v0] rest IH]; intros chunked Hnd Hfit.
  - exists chunked. split; [reflexivity|]. split; [reflexivity|].
    intros j d' Hd'. exists d'. split; [exact Hd'|]. split; [reflexivity|].
    intros k v Hin. now apply elem_of_nil in Hin.
  - cbn in Hnd. apply NoDup_cons in Hnd as [Hk0 Hnd].
    destruct (chunk_kwarg_lookup k0 v0 chunked) as (c1 & Hc1 & Hl1 & Hlk1).
    { intros items Hit Hn. eapply Hfit; [apply list_elem_of_here|exact Hit|exact Hn]. }
    destruct (IH c1 Hnd) as (c' & Hc' & Hl' & Hlk').
    { rewrite Hl1. intros k v items Hin. apply (Hfit k v items).
      now apply list_elem_of_further. }
    exists c'. cbn [chunk_loop]. rewrite Hc1, bind_Ok.
    split; [exact Hc'|]. split; [congruence|].
    intros j d' Hd'. destruct (Hlk' j d' Hd') as (d1 & Hd1 & Hout & Hin).
    rewrite Hlk1 in Hd1. destruct (chunked !! j) as [d|] eqn:Hd; [|discriminate].
    cbn in Hd1. injection Hd1 as <-. exists d. split; [reflexivity|]. split.
    + intros k Hk. cbn in Hk. apply not_elem_of_cons in Hk as [Hne Hk].
      rewrite (Hout k Hk). now apply write_lookup_ne.
    + intros k v Hkv. apply elem_of_cons in Hkv as [[= -> ->]|Hkv].
      * rewrite (Hout k0 Hk0). apply write_lookup_eq.
      * rewrite (Hin k v Hkv).
        assert (k0 <> k).
        { intros ->. apply Hk0. apply list_elem_of_fmap. now exists (k, v). }
        destruct (given v j); [reflexivity|]. now apply write_lookup_ne.
Qed.

(** C8: a keyword argument that is a tuple of ints and floats goes whole
    to every series; any other iterable that is not a string goes item by
    item, item [i] to series [i]; everything else goes unchanged to every
    series. *)
Theorem histplot_kwargs_fan_out (n : nat) (kwargs : list (string * pyval)) :
  NoDup kwargs.*1 -> fits n kwargs ->
  exists chunked,
    chunk_kwargs n kwargs = Ok chunked
    /\ length chunked = n
    /\ forall i d kwarg v,
         chunked !! i = Some d -> (kwarg, v) ∈ kwargs ->
         (numeric_tuple v = true -> d !! kwarg = Some v)
         /\ (forall items, iterable_not_string v = Some items ->
                           numeric_tuple v = false ->
                           d !! kwarg = items !! i)
         /\ (iterable_not_string v = None -> d !! kwarg = Some v).
Proof.
  intros Hnd Hfit. unfold chunk_kwargs.
  destruct (chunk_loop_lookup kwargs (replicate n ∅) Hnd) as (c' & Hc' & Hl & Hlk).
  { now rewrite length_replicate. }
  exists c'. split; [exact Hc'|]. rewrite length_replicate in Hl.
  split; [exact Hl|]. intros i d kwarg v Hd Hin.
  destruct (Hlk i d Hd) as (d0 & Hd0 & _ & Hgiven).
  apply lookup_replicate in Hd0 as [-> _].
  specialize (Hgiven kwarg v Hin). rewrite lookup_empty in Hgiven.
  assert (Hd' : d !! kwarg = given v i) by (now destruct (given v i)).
  rewrite Hd'. unfold given. repeat split.
  - intros Hn. destruct v; try discriminate. cbn. cbn in Hn. now rewrite Hn.
  - intros items -> ->. reflexivity.
  - intros ->. reflexivity.
Qed.

Lemma histplot_kwargs_fan_out_witness :
  let kwargs := [("color", PTuple [PFloat (1 # 10); PInt 1; PFloat (1 # 2)]);
                 ("alpha", PList [PFloat (1 # 2); PFloat 1]);
                 ("lw", PInt 2)] in
  exists chunked,
    chunk_kwargs 2 kwargs = Ok chunked
    /\ length chunked = 2%nat
    /\ forall i d kwarg v,
         chunked !! i = Some d -> (kwarg, v) ∈ kwargs ->
         (numeric_tuple v = true -> d !! kwarg = Some v)
         /\ (forall items, iterable_not_string v = Some items ->
                           numeric_tuple v = false ->
                           d !! kwarg = items !! i)
         /\ (iterable_not_string v = None -> d !! kwarg = Some v).
Proof.
  intros kwargs. apply (histplot_kwargs_fan_out 2 kwargs).
  - apply (bool_decide_unpack _). vm_compute. exact I.
  - intros kwarg v items Hin Hit Hn. subst kwargs.
    repeat (apply elem_of_cons in Hin as [[= -> ->]|Hin]);
      try (apply elem_of_nil in Hin; contradiction);
      try discriminate.
    injection Hit as <-. cbn. lia.
Defined.

(** ** Sorting the series *)

Section argsort_facts.
Context {K : Type} (leb : K -> K -> bool).
Hypothesis leb_total : forall a b, leb a b = true \/ leb b a = true.

Lemma insert_key_perm (x : K * nat) (l : list (K * nat)) :
  insert_key leb x l ≡ₚ x :: l.
Proof.
  induction l as [|y t IH]; cbn; [reflexivity|].
  destruct (leb x.1 y.1); [reflexivity|].
  rewrite IH. apply Permutation_swap.
Qed.

Lemma sort_keys_perm (l : list (K * nat)) : sort_keys leb l ≡ₚ l.
Proof.
  induction l as [|x t IH]; cbn; [reflexivity|].
  now rewrite insert_key_perm, IH.
Qed.

Lemma insert_key_sorted (x : K * nat) (l : list (K * nat)) :
  Sorted (le_key leb) l -> Sorted (le_key leb) (insert_key leb x l).
Proof.
  induction 1 as [|y t Hs IH Hhd]; cbn.
  - repeat constructor.
  - destruct (leb x.1 y.1) eqn:Hxy.
    + repeat constructor; assumption.
    + constructor; [exact IH|].
      assert (Hyx : le_key leb y x).
      { destruct (leb_total x.1 y.1) as [H|H]; [congruence|exact H]. }
      destruct Hhd as [|z t' Hyz]; cbn.
      * now constructor.
      * destruct (leb x.1 z.1); now constructor.
Qed.

Lemma sort_keys_sorted (l : list (K * nat)) : Sorted (le_key leb) (sort_keys leb l).
Proof.
  induction l as [|x t IH]; cbn; [constructor|].
  now apply insert_key_sorted.
Qed.

Lemma argsort_perm (keys : list K) :
  argsort leb keys ≡ₚ seq 0 (length keys).
Proof.
  unfold argsort. rewrite sort_keys_perm.
  rewrite snd_zip; [reflexivity|]. now rewrite length_seq.
Qed.

(** Every sorted pair is a key with its own index. *)
Lemma sort_keys_indexed (keys : list K) :
  Forall (fun x => keys !! x.2 = Some x.1)
         (sort_keys leb (zip keys (seq 0 (length keys)))).
Proof.
  rewrite sort_keys_perm. apply Forall_forall. intros [k i] Hin.
  apply list_elem_of_lookup in Hin as [j Hj].
  apply lookup_zip_with_Some in Hj as (k' & i' & [= -> ->] & Hk & Hi).
  apply lookup_seq in Hi as [-> _]. exact Hk.
Qed.

Lemma pick_indexed (keys : list K) (pairs : list (K * nat)) :
  Forall (fun x => keys !! x.2 = Some x.1) pairs ->
  pick pairs.*2 keys = pairs.*1.
Proof.
  induction 1 as [|x t Hx _ IH]; [reflexivity|].
  unfold pick in *. cbn. rewrite Hx. cbn. now rewrite IH.
Qed.

Lemma argsort_sorted (keys : list K) :
  Sorted (fun a b => leb a b = true) (pick (argsort leb keys) keys).
Proof.
  unfold argsort. rewrite pick_indexed by apply sort_keys_indexed.
  generalize (sort_keys_sorted (zip keys (seq 0 (length keys)))).
  induction 1 as [|x t _ IH Hhd]; cbn; constructor; [exact IH|].
  destruct Hhd; cbn; now constructor.
Qed.
End argsort_facts.

Lemma pick_fmap {A B} (f : A -> B) (order : list nat) (l : list A) :
  pick order (f <$> l) = f <$> pick order l.
Proof.
  unfold pick. induction order as [|i t IH]; [reflexivity|].
  cbn. rewrite list_lookup_fmap. destruct (l !! i); cbn; now rewrite IH.
Qed.

Lemma pick_rev {A} (order : list nat) (l : list A) :
  pick (rev order) l = rev (pick order l).
Proof.
  unfold pick. induction order as [|i t IH]; [reflexivity|].
  cbn. rewrite omap_app, IH. cbn. destruct (l !! i); cbn.
  - reflexivity.
  - now rewrite app_nil_r.
Qed.

Lemma omap_cons {A B} (f : A -> option B) (a : A) (l : list A) :
  omap f (a :: l)
  = match f a with Some y => y :: omap f l | None => omap f l end.
Proof. reflexivity. Qed.

Lemma pick_seq_from {A} (l : list A) :
  forall pre : list A,
    omap (fun i => (pre ++ l) !! i) (seq (length pre) (length l)) = l.
Proof.
  induction l as [|x t IH]; intros pre; [reflexivity|].
  cbn [length seq]. rewrite omap_cons. rewrite list_lookup_middle by reflexivity.
  specialize (IH (pre ++ [x])). rewrite length_app in IH. cbn in IH.
  rewrite Nat.add_1_r, <- app_assoc in IH. cbn in IH. now rewrite IH.
Qed.

Lemma pick_perm {A} (order : list nat) (l : list A) :
  order ≡ₚ seq 0 (length l) -> pick order l ≡ₚ l.
Proof.
  intros Hperm. unfold pick. rewrite Hperm.
  assert (H : omap (fun i => l !! i) (seq 0 (length l)) = l)
    by exact (pick_seq_from l []).
  now rewrite H.
Qed.

Lemma py_item_nat {A} (l : list A) (i : nat) (x : A) :
  l !! i = Some x -> py_item l (Z.of_nat i) = Ok x.
Proof.
  intros Hx. unfold py_item.
  destruct (Z.ltb_spec (Z.of_nat i) 0); [lia|].
  destruct (Z.ltb_spec (Z.of_nat i) 0); [lia|].
  now rewrite Nat2Z.id, Hx.
Qed.

Lemma take_order_pick {A} (l : list A) (order : list nat) :
  Forall (fun i => (i < length l)%nat) order ->
  take_order l (Z.of_nat <$> order) = Ok (pick order l).
Proof.
  unfold pick. induction 1 as [|i t Hi _ IH]; [reflexivity|].
  apply lookup_lt_is_Some_2 in Hi as [x Hx].
  cbn. rewrite (py_item_nat l i x Hx), bind_Ok, IH, bind_Ok, Hx. reflexivity.
Qed.

Lemma perm_seq_bound (order : list nat) (n : nat) :
  order ≡ₚ seq 0 n -> Forall (fun i => (i < n)%nat) order.
Proof.
  intros ->. apply Forall_forall. intros i Hi%elem_of_seq. lia.
Qed.

(** Reordering by a permutation of the indices, and by its reverse. *)
Lemma sort_series_order (sort sort_r : sort_arg) (label : label_arg)
    (s : Series) (order : list nat) :
  length (s_kwargs s) = length (s_plottables s) ->
  length (s_labels s) = length (s_plottables s) ->
  order ≡ₚ seq 0 (length (s_plottables s)) ->
  sort_order sort label (s_plottables s) = Ok (Some (Z.of_nat <$> order)) ->
  sort_order sort_r label (s_plottables s)
  = Ok (Some (Z.of_nat <$> rev order)) ->
  sort_series sort label s = Ok (reorder order s)
  /\ sort_series sort_r label s = Ok (reverse_series (reorder order s)).
Proof.
  intros Hkw Hlab Hperm Hord Hrev.
  pose proof (perm_seq_bound _ _ Hperm) as Hb.
  assert (Hbr : Forall (fun i => (i < length (s_plottables s))%nat) (rev order)).
  { now apply Forall_rev. }
  unfold sort_series. rewrite Hord, Hrev, !bind_Ok. split.
  - rewrite !take_order_pick by (rewrite ?Hkw, ?Hlab; exact Hb). reflexivity.
  - rewrite !take_order_pick by (rewrite ?Hkw, ?Hlab; exact Hbr).
    rewrite !bind_Ok, !pick_rev. reflexivity.
Qed.

Lemma Qle_bool_total (a b : Q) : Qle_bool a b = true \/ Qle_bool b a = true.
Proof.
  rewrite !Qle_bool_iff. destruct (Qlt_le_dec a b) as [H|H]; [left|right].
  - now apply Qlt_le_weak.
  - exact H.
Qed.

Lemma Sorted_Qle_bool (l : list Q) :
  Sorted (fun a b => Qle_bool a b = true) l -> Sorted Qle l.
Proof.
  induction 1 as [|a t _ IH Hhd]; constructor; [exact IH|].
  destruct Hhd; constructor. now apply Qle_bool_iff.
Qed.

(** X28: [sort="yield"] puts the series in ascending order of the sum of
    their values; where [label] is a list of one label per series,
    [sort="label"] puts them in ascending order of label, strings as
    strings and numbers as numbers; with [_r] appended the order is exactly
    the reverse; plottables, keyword arguments and labels are all taken in
    that one order, which is a permutation of the series. *)
Theorem histplot_sort (label : label_arg) (s : Series) :
  length (s_kwargs s) = length (s_plottables s) ->
  s_labels s = make_labels label (length (s_plottables s)) ->
  length (s_labels s) = length (s_plottables s) ->
  (exists order,
     order ≡ₚ seq 0 (length (s_plottables s))
     /\ sort_series (SortStr "yield") label s = Ok (reorder order s)
     /\ sort_series (SortStr "yield_r") label s
        = Ok (reverse_series (reorder order s))
     /\ ascending_yield (s_plottables (reorder order s)))
  /\ (forall l, label = LabelList l ->
      exists order,
        order ≡ₚ seq 0 (length (s_plottables s))
        /\ sort_series (SortStr "label") label s = Ok (reorder order s)
        /\ sort_series (SortStr "label_r") label s
           = Ok (reverse_series (reorder order s))
        /\ ascending_label (s_labels (reorder order s)))
  /\ (forall l, label = LabelNumbers l ->
      exists order,
        order ≡ₚ seq 0 (length (s_plottables s))
        /\ sort_series (SortStr "label") label s = Ok (reorder order s)
        /\ sort_series (SortStr "label_r") label s
           = Ok (reverse_series (reorder order s))
        /\ s_labels (reorder order s) = Some <$> (pick order l).*2
        /\ ascending_number (pick order l).*1).
Proof.
  intros Hkw Hmk Hlab. split; [|split].
  - exists (argsort Qle_bool (yield <$> s_plottables s)).
    assert (Hperm : argsort Qle_bool (yield <$> s_plottables s)
                    ≡ₚ seq 0 (length (s_plottables s))).
    { rewrite <- (length_fmap yield). apply argsort_perm. }
    split; [exact Hperm|].
    destruct (sort_series_order (SortStr "yield") (SortStr "yield_r") label s
                _ Hkw Hlab Hperm eq_refl eq_refl) as [-> ->].
    repeat split. unfold ascending_yield. cbn [reorder s_plottables].
    pose proof (argsort_sorted Qle_bool Qle_bool_total
                  (yield <$> s_plottables s)) as Hs.
    rewrite pick_fmap in Hs. revert Hs.
    generalize (pick (argsort Qle_bool (yield <$> s_plottables s))
                  (s_plottables s)).
    intros ps Hs. induction ps as [|p t IH]; [constructor|].
    cbn in Hs. inversion Hs as [|? ? Ht Hhd]; subst.
    constructor; [now apply IH|].
    destruct t; cbn in *; constructor. inversion Hhd; subst.
    now apply Qle_bool_iff.
  - intros l ->. cbn in Hmk.
    assert (Hl : length l = length (s_plottables s)).
    { rewrite <- Hlab, Hmk. now rewrite length_fmap. }
    exists (argsort String.leb l).
    assert (Hperm : argsort String.leb l ≡ₚ seq 0 (length (s_plottables s))).
    { rewrite <- Hl. apply argsort_perm. }
    split; [exact Hperm|].
    destruct (sort_series_order (SortStr "label") (SortStr "label_r")
                (LabelList l) s _ Hkw Hlab Hperm eq_refl eq_refl) as [-> ->].
    repeat split. exists (pick (argsort String.leb l) l).
    cbn [reorder s_labels]. rewrite Hmk, pick_fmap. split; [reflexivity|].
    apply argsort_sorted, String.leb_total.
  - intros l ->. cbn in Hmk.
    assert (Hl : length l.*1 = length (s_plottables s)).
    { rewrite <- Hlab, Hmk. now rewrite !length_fmap. }
    exists (argsort Qle_bool l.*1).
    assert (Hperm : argsort Qle_bool l.*1 ≡ₚ seq 0 (length (s_plottables s))).
    { rewrite <- Hl. apply argsort_perm. }
    split; [exact Hperm|].
    destruct (sort_series_order (SortStr "label") (SortStr "label_r")
                (LabelNumbers l) s _ Hkw Hlab Hperm eq_refl eq_refl) as [-> ->].
    repeat split.
    + cbn [reorder s_labels]. now rewrite Hmk, !pick_fmap.
    + unfold ascending_number. rewrite <- pick_fmap.
      apply Sorted_Qle_bool, argsort_sorted, Qle_bool_total.
Qed.

(** The reordered lists hold exactly the series that came in. *)
Lemma reorder_perm (order : list nat) (s : Series) :
  length (s_kwargs s) = length (s_plottables s) ->
  length (s_labels s) = length (s_plottables s) ->
  order ≡ₚ seq 0 (length (s_plottables s)) ->
  s_plottables (reorder order s) ≡ₚ s_plottables s
  /\ s_kwargs (reorder order s) ≡ₚ s_kwargs s
  /\ s_labels (reorder order s) ≡ₚ s_labels s.
Proof.
  intros Hkw Hlab Hperm. cbn. repeat split; apply pick_perm; congruence.
Qed.

Lemma histplot_sort_witness :
  let p (v : list Q) := new_Plottable v [0; 1; 2] None in
  let s := mkSeries [p [5; 5]; p [1; 2]; p [3; 3]] [∅; ∅; ∅]
                    [Some "b"; Some "c"; Some "a"] in
  let label := LabelList ["b"; "c"; "a"] in
  (exists order,
     order ≡ₚ seq 0 (length (s_plottables s))
     /\ sort_series (SortStr "yield") label s = Ok (reorder order s)
     /\ sort_series (SortStr "yield_r") label s
        = Ok (reverse_series (reorder order s))
     /\ ascending_yield (s_plottables (reorder order s)))
  /\ (forall l, label = LabelList l ->
      exists order,
        order ≡ₚ seq 0 (length (s_plottables s))
        /\ sort_series (SortStr "label") label s = Ok (reorder order s)
        /\ sort_series (SortStr "label_r") label s
           = Ok (reverse_series (reorder order s))
        /\ ascending_label (s_labels (reorder order s)))
  /\ (forall l, label = LabelNumbers l ->
      exists order,
        order ≡ₚ seq 0 (length (s_plottables s))
        /\ sort_series (SortStr "label") label s = Ok (reorder order s)
        /\ sort_series (SortStr "label_r") label s
           = Ok (reverse_series (reorder order s))
        /\ s_labels (reorder order s) = Some <$> (pick order l).*2
        /\ ascending_number (pick order l).*1).
Proof.
  intros p s label. apply (histplot_sort label s); reflexivity.
Defined.

(** Labels that are numbers are sorted as numbers, not as the strings
    that the legend shows: 9 comes before 10. *)
Example sort_by_numeric_label :
  let p (v : list Q) := new_Plottable v [0; 1; 2] None in
  sort_series (SortStr "label") (LabelNumbers [(10, "10"); (9, "9")])
     (mkSeries [p [5; 5]; p [1; 2]] [∅; ∅] [Some "10"; Some "9"])
  = Ok (mkSeries [p [1; 2]; p [5; 5]] [∅; ∅] [Some "9"; Some "10"]).
Proof. vm_compute. reflexivity. Qed.

(** C7: sorted by label without a list of labels, three histograms leave
    one series.  Line 349 sorts the [label] argument as it was passed, which
    here is [None], and not the labels of the series that line 348 tests;
    [np.argsort] of it is the one index 0, and plottables, keyword arguments
    and labels are cut down to their first entry: one drawing call for the
    first histogram, one artist. *)
Theorem sort_by_label_keeps_one :
  length (a_hists three_unlabelled) = 3%nat
  /\ sort_order (SortStr "label") LabelNone
       [new_Plottable [5; 5] [0; 1; 2] None;
        new_Plottable [1; 2] [0; 1; 2] None;
        new_Plottable [3; 3] [0; 1; 2] None]
     = Ok (Some [0%Z])
  /\ histplot three_unlabelled
     = ([Stairs StepOutline (new_Plottable [5; 5] [0; 1; 2] None) (Some 0)
                None ∅],
        Ok [StairsArtists false]).
Proof. repeat split; vm_compute; reflexivity. Qed.

Example sort_by_yield_example :
  let p (v : list Q) := new_Plottable v [0; 1; 2] None in
  sort_series (SortStr "yield") LabelNone
     (mkSeries [p [5; 5]; p [1; 2]; p [3; 3]] [∅; ∅; ∅]
               [Some "b"; Some "c"; Some "a"])
  = Ok (mkSeries [p [1; 2]; p [3; 3]; p [5; 5]] [∅; ∅; ∅]
                 [Some "c"; Some "a"; Some "b"]).
Proof. vm_compute. reflexivity. Qed.

(** ** Flow rows and columns in [hist2dplot] *)

Lemma all_zero_app (a b : list Q) :
  all_zero (a ++ b) = all_zero a && all_zero b.
Proof. apply forallb_app. Qed.

Lemma all_zero_head (r : list Q) :
  all_zero r = true -> Qeq_bool (default 0 (head r)) 0 = true.
Proof. destruct r as [|x t]; cbn; [reflexivity|]. now intros [? _]%andb_true_iff. Qed.

Lemma all_zero_last (r : list Q) :
  all_zero r = true -> Qeq_bool (default 0 (last r)) 0 = true.
Proof.
  destruct r as [|x t _] using rev_ind; cbn; [reflexivity|].
  rewrite all_zero_app, last_snoc. cbn.
  now intros [_ [? _]%andb_true_iff]%andb_true_iff.
Qed.

Lemma mapR_fmap {A B} (f : A -> result B) (g : A -> B) (l : list A) :
  Forall (fun x => f x = Ok (g x)) l -> mapR f l = Ok (g <$> l).
Proof.
  induction 1 as [|x t Hx _ IH]; [reflexivity|].
  cbn. now rewrite Hx, bind_Ok, IH.
Qed.

Lemma col_first_ok (m : list (list Q)) :
  Forall (fun r => (1 <= length r)%nat) m -> col_first m = Ok (col0 m).
Proof.
  intros H. apply mapR_fmap. eapply Forall_impl; [exact H|].
  intros [|x t]; cbn; [lia|reflexivity].
Qed.

Lemma col_last_ok (m : list (list Q)) :
  Forall (fun r => (1 <= length r)%nat) m -> col_last m = Ok (colL m).
Proof.
  intros H. apply mapR_fmap. eapply Forall_impl; [exact H|].
  intros r Hr. cbn in Hr. unfold item_last.
  destruct r as [|x t _] using rev_ind; [cbn in Hr; lia|].
  now rewrite last_snoc.
Qed.

(** Taking off an all-zero row does not change whether a column is all
    zero. *)
Section zero_rows.
Context (f : list Q -> Q).
Hypothesis f_zero : forall r, all_zero r = true -> Qeq_bool (f r) 0 = true.

Lemma all_zero_keep_lo (r0 : list Q) (rest : list (list Q)) :
  all_zero (f <$> keep_lo (negb (all_zero r0)) (r0 :: rest))
  = all_zero (f <$> r0 :: rest).
Proof.
  destruct (all_zero r0) eqn:Hz; cbn; [|reflexivity].
  now rewrite (f_zero r0 Hz).
Qed.

Lemma all_zero_keep_hi (rl : list Q) (rest : list (list Q)) :
  all_zero (f <$> keep_hi (negb (all_zero rl)) (rest ++ [rl]))
  = all_zero (f <$> rest ++ [rl]).
Proof.
  destruct (all_zero rl) eqn:Hz; cbn; [|reflexivity].
  unfold but_last. rewrite removelast_last, fmap_app, all_zero_app. cbn.
  rewrite (f_zero rl Hz). cbn. now rewrite andb_true_r.
Qed.
End zero_rows.

Lemma keep_lo_snoc {A} (b : bool) (x y : A) (l : list A) :
  keep_lo b (x :: l ++ [y]) = keep_lo b (x :: l) ++ [y].
Proof. now destruct b. Qed.

Lemma Forall_keep_lo {A} (P : A -> Prop) (b : bool) (l : list A) :
  Forall P l -> Forall P (keep_lo b l).
Proof. destruct b; [easy|]. apply Forall_drop. Qed.

Lemma Forall_keep_hi {A} (P : A -> Prop) (b : bool) (l : list A) :
  Forall P l -> Forall P (keep_hi b l).
Proof.
  destruct b; [easy|]. cbn. unfold but_last.
  destruct l as [|x t _] using rev_ind; [easy|].
  rewrite removelast_last. now intros [? _]%Forall_app.
Qed.

Lemma last_keep_lo {A} (b : bool) (r : list A) :
  (2 <= length r)%nat -> last (keep_lo b r) = last r.
Proof.
  destruct b; [easy|]. destruct r as [|x [|y t]]; cbn; try lia. reflexivity.
Qed.

Lemma length_keep_lo {A} (b : bool) (l : list A) :
  length (keep_lo b l) = (length l - b2n (negb b))%nat.
Proof. destruct b; cbn; [lia|]. unfold but_first. now rewrite length_drop. Qed.

Lemma length_keep_hi {A} (b : bool) (l : list A) :
  length (keep_hi b l) = (length l - b2n (negb b))%nat.
Proof.
  destruct b; cbn; [lia|]. unfold but_last.
  destruct l as [|x t _] using rev_ind; [reflexivity|].
  rewrite removelast_last, length_app. cbn. lia.
Qed.

(** The four tests of [trim_flow] read what the earlier ones left, and yet
    each answers for the whole padded grid. *)
Lemma trim_flow_sides (nx ny : nat) (padded : list (list Q))
    (pxbins pybins : list Q) :
  padded_shape nx ny padded ->
  let s := flow_sides padded in
  trim_flow padded pxbins pybins
  = Ok (mkTrimmed (shown_grid padded)
                  (keep_hi (hint_xhi s) (keep_lo (hint_xlo s) pxbins))
                  (keep_hi (hint_yhi s) (keep_lo (hint_ylo s) pybins))
                  s).
Proof.
  intros [Hrows Hcols].
  destruct (list_ends padded) as (r0 & mid & rl & ->); [lia|].
  assert (Hl : last (r0 :: mid ++ [rl]) = Some rl).
  { change (r0 :: mid ++ [rl]) with ((r0 :: mid) ++ [rl]). apply last_snoc. }
  unfold shown_grid, flow_sides. rewrite Hl.
  cbn [head default id hint_xlo hint_xhi hint_ylo hint_yhi].
  set (xlo := negb (all_zero r0)). set (xhi := negb (all_zero rl)).
  set (M2 := keep_hi xhi (keep_lo xlo (r0 :: mid ++ [rl]))).
  assert (Hc0 : all_zero (col0 M2) = all_zero (col0 (r0 :: mid ++ [rl]))).
  { unfold M2, col0. rewrite keep_lo_snoc.
    unfold xhi. rewrite (all_zero_keep_hi _ all_zero_head).
    rewrite <- keep_lo_snoc. unfold xlo.
    now rewrite (all_zero_keep_lo _ all_zero_head). }
  assert (HcL : all_zero (colL M2) = all_zero (colL (r0 :: mid ++ [rl]))).
  { unfold M2, colL. rewrite keep_lo_snoc.
    unfold xhi. rewrite (all_zero_keep_hi _ all_zero_last).
    rewrite <- keep_lo_snoc. unfold xlo.
    now rewrite (all_zero_keep_lo _ all_zero_last). }
  assert (HM2 : Forall (fun r => length r = (ny + 2)%nat) M2).
  { now apply Forall_keep_hi, Forall_keep_lo. }
  unfold trim_flow.
  change (row_first (r0 :: mid ++ [rl])) with (Ok (A := list Q) r0).
  rewrite bind_Ok. cbv zeta. fold xlo.
  assert (Hlast : row_last (keep_lo xlo (r0 :: mid ++ [rl])) = Ok rl).
  { rewrite keep_lo_snoc. apply item_last_snoc. }
  rewrite Hlast, bind_Ok. fold xhi. fold M2.
  rewrite col_first_ok, bind_Ok
    by (eapply Forall_impl; [exact HM2|]; cbn; intros; lia).
  rewrite Hc0.
  set (ylo := negb (all_zero (col0 (r0 :: mid ++ [rl])))).
  assert (HL3 : colL (keep_lo ylo <$> M2) = colL M2).
  { unfold colL. rewrite <- list_fmap_compose.
    apply Forall_fmap_ext_1. eapply Forall_impl; [exact HM2|].
    cbn. intros r Hr. rewrite last_keep_lo by lia. reflexivity. }
  rewrite col_last_ok, bind_Ok.
  - rewrite HL3, HcL. reflexivity.
  - apply Forall_fmap. eapply Forall_impl; [exact HM2|].
    cbn. intros r Hr. rewrite length_keep_lo. destruct ylo; cbn; lia.
Qed.

Lemma pad_bins_ok (bins : list Q) :
  (1 <= length bins)%nat -> pad_bins bins = Ok (padded_bins bins).
Proof.
  intros Hlen. unfold pad_bins, padded_bins, item_last, item0.
  destruct bins as [|lo t]; [cbn in Hlen; lia|].
  destruct (last (lo :: t)) as [hi|] eqn:Hhi.
  - reflexivity.
  - apply last_None in Hhi. discriminate.
Qed.

Lemma length_padded_bins (bins : list Q) :
  (1 <= length bins)%nat -> length (padded_bins bins) = (length bins + 2)%nat.
Proof.
  intros Hlen. unfold padded_bins.
  destruct bins as [|lo t]; [cbn in Hlen; lia|].
  destruct (last (lo :: t)) as [hi|] eqn:Hhi.
  - cbn. rewrite length_app. cbn. lia.
  - apply last_None in Hhi. discriminate.
Qed.

Lemma length_kept {A} (lo hi : bool) (l : list A) (n : nat) :
  length l = (n + 2)%nat ->
  length (keep_hi hi (keep_lo lo l)) = (n + b2n lo + b2n hi)%nat.
Proof.
  intros Hl. rewrite length_keep_hi, length_keep_lo, Hl.
  destruct lo, hi; cbn; lia.
Qed.

Lemma shown_grid_shape (nx ny : nat) (padded : list (list Q)) :
  padded_shape nx ny padded ->
  let s := flow_sides padded in
  length (shown_grid padded) = (nx + b2n (hint_xlo s) + b2n (hint_xhi s))%nat
  /\ Forall (fun r => length r
                      = (ny + b2n (hint_ylo s) + b2n (hint_yhi s))%nat)
            (shown_grid padded).
Proof.
  intros [Hrows Hcols] s. unfold shown_grid. fold s. split.
  - rewrite !length_fmap. now apply length_kept.
  - rewrite <- list_fmap_compose. apply Forall_fmap.
    eapply Forall_impl; [apply Forall_keep_hi, Forall_keep_lo, Hcols|].
    cbn. intros r Hr. now apply length_kept.
Qed.

Lemma boundary_line_ok (g : Grid2D) (s : side) (bins : list Q) :
  (flagged (g_hints g) s = true -> (2 <= length bins)%nat) ->
  exists l, boundary_line g s bins = Ok l.
Proof.
  intros Hlen. unfold boundary_line.
  destruct (flagged (g_hints g) s); [|eauto].
  destruct (lookup_lt_is_Some_2 bins 1) as [x Hx]; [now apply Hlen|].
  unfold lookup_item. rewrite Hx. eauto.
Qed.

(** C2: [flow="hint"] renders the plain grid on the plain edges, whatever
    the flow holds, and flags exactly the sides whose flow row or column is
    not all zero; [flow="show"] renders the padded grid without its all-zero
    flow rows and columns, so the grid is wider by one row or column, and
    the edges by one bin of 5% of their range, on exactly those sides. *)
Theorem hist2dplot_flow_sides (h : Hist2D) (xbins ybins : list Q)
    (nx ny : nat) (ax : ax_arg) :
  h2_flow_arg h = true -> ax <> AxOther ->
  padded_shape nx ny (h2_padded h) ->
  length xbins = (nx + 1)%nat -> length ybins = (ny + 1)%nat ->
  let s := flow_sides (h2_padded h) in
  let shown := shown_grid (h2_padded h) in
  let px := keep_hi (hint_xhi s) (keep_lo (hint_xlo s) (padded_bins xbins)) in
  let py := keep_hi (hint_yhi s) (keep_lo (hint_ylo s) (padded_bins ybins)) in
  hist2dplot h xbins ybins ax (Some "hint")
  = (Pcolormesh (h2_values h) xbins ybins :: hint_markers s,
     Ok (mkGrid2D (h2_values h) xbins ybins (Some s) (Some "hint") false))
  /\ (exists lines,
        hist2dplot h xbins ybins ax (Some "show")
        = (Pcolormesh shown px py :: lines,
           Ok (mkGrid2D shown px py (Some s) (Some "show") false)))
  /\ length shown = (nx + b2n (hint_xlo s) + b2n (hint_xhi s))%nat
  /\ Forall (fun r => length r
                      = (ny + b2n (hint_ylo s) + b2n (hint_yhi s))%nat) shown
  /\ length px = (nx + 1 + b2n (hint_xlo s) + b2n (hint_xhi s))%nat
  /\ length py = (ny + 1 + b2n (hint_ylo s) + b2n (hint_yhi s))%nat.
Proof.
  intros Hflow Hax Hshape Hx Hy s shown px py.
  assert (Hcheck : check_ax ax = Ok tt) by (now destruct ax).
  assert (Hpx : length px = (nx + 1 + b2n (hint_xlo s) + b2n (hint_xhi s))%nat).
  { apply length_kept. rewrite length_padded_bins by lia. lia. }
  assert (Hpy : length py = (ny + 1 + b2n (hint_ylo s) + b2n (hint_yhi s))%nat).
  { apply length_kept. rewrite length_padded_bins by lia. lia. }
  destruct (shown_grid_shape nx ny _ Hshape) as [Hrows Hcols].
  assert (Htrim : forall flow, flow_in flow ["hint"; "show"] = true ->
            flow2d h xbins ybins flow
            = if flow_is flow "show"
              then Ok (mkGrid2D shown px py (Some s) flow false)
              else Ok (mkGrid2D (h2_values h) xbins ybins (Some s) flow false)).
  { intros flow Hin. unfold flow2d. rewrite Hflow, Hin. cbn [negb andb].
    rewrite !pad_bins_ok, !bind_Ok by lia.
    rewrite (trim_flow_sides nx ny) by exact Hshape. reflexivity. }
  repeat split; try assumption.
  - unfold hist2dplot. rewrite Hcheck, bind_Ok, Htrim by reflexivity.
    reflexivity.
  - unfold hist2dplot. rewrite Hcheck, bind_Ok, Htrim by reflexivity.
    cbn [flow_is String.eqb Ascii.eqb Bool.eqb g_H g_xbins g_ybins].
    set (g := mkGrid2D shown px py (Some s) (Some "show") false).
    unfold boundary_events. change (flow_is (g_flow g) "show") with true.
    cbn [g_xbins g_ybins g].
    destruct (boundary_line_ok g XLo px) as [a ->].
    { intros Hf. change (hint_xlo s = true) in Hf. rewrite Hpx, Hf. cbn. lia. }
    destruct (boundary_line_ok g XHi (rev px)) as [b ->].
    { intros Hf. change (hint_xhi s = true) in Hf.
      rewrite length_rev, Hpx, Hf. destruct (hint_xlo s); cbn; lia. }
    destruct (boundary_line_ok g YLo py) as [c ->].
    { intros Hf. change (hint_ylo s = true) in Hf. rewrite Hpy, Hf. cbn. lia. }
    destruct (boundary_line_ok g YHi (rev py)) as [d ->].
    { intros Hf. change (hint_yhi s = true) in Hf.
      rewrite length_rev, Hpy, Hf. destruct (hint_ylo s); cbn; lia. }
    rewrite !bind_Ok. eauto.
Qed.

(** No marker is drawn at an edge whose flow row holds only zeros. *)
Lemma hint_at_empty_edge_fails : ~ hint_at_empty_edge_claim.
Proof.
  intros Hclaim.
  destruct (Hclaim overflow_only [0; 1] [0; 1] 1%nat 1%nat)
    as (evs & g & Hrun & Hin).
  - reflexivity.
  - split; [reflexivity|]. repeat constructor.
  - reflexivity.
  - reflexivity.
  - reflexivity.
  - vm_compute in Hrun. injection Hrun as <- _.
    repeat (apply elem_of_cons in Hin as [Hin|Hin]; [discriminate|]).
    now apply elem_of_nil in Hin.
Qed.

Lemma hist2dplot_flow_sides_witness :
  let h := overflow_only in
  let s := flow_sides (h2_padded h) in
  let shown := shown_grid (h2_padded h) in
  let px := keep_hi (hint_xhi s) (keep_lo (hint_xlo s) (padded_bins [0; 1])) in
  let py := keep_hi (hint_yhi s) (keep_lo (hint_ylo s) (padded_bins [0; 1])) in
  hist2dplot h [0; 1] [0; 1] AxNone (Some "hint")
  = (Pcolormesh (h2_values h) [0; 1] [0; 1] :: hint_markers s,
     Ok (mkGrid2D (h2_values h) [0; 1] [0; 1] (Some s) (Some "hint") false))
  /\ (exists lines,
        hist2dplot h [0; 1] [0; 1] AxNone (Some "show")
        = (Pcolormesh shown px py :: lines,
           Ok (mkGrid2D shown px py (Some s) (Some "show") false)))
  /\ length shown = (1 + b2n (hint_xlo s) + b2n (hint_xhi s))%nat
  /\ Forall (fun r => length r
                      = (1 + b2n (hint_ylo s) + b2n (hint_yhi s))%nat) shown
  /\ length px = (1 + 1 + b2n (hint_xlo s) + b2n (hint_xhi s))%nat
  /\ length py = (1 + 1 + b2n (hint_ylo s) + b2n (hint_yhi s))%nat.
Proof.
  apply (hist2dplot_flow_sides overflow_only [0; 1] [0; 1] 1 1 AxNone).
  - reflexivity.
  - discriminate.
  - split; [reflexivity|]. repeat constructor.
  - reflexivity.
  - reflexivity.
Defined.

(** What [flow="show"] renders for [overflow_only]: the row beyond the
    upper x edge is kept, with its bin of 5% of the range. *)
Example show_overflow_only :
  fst (hist2dplot overflow_only [0; 1] [0; 1] AxNone (Some "show"))
  = [Pcolormesh [[4]; [7]] [0; 1; 1 + (1 - 0) * (5 # 100)] [0; 1];
     BoundaryLine XHi 1].
Proof. reflexivity. Qed.

(** ** Argument checks *)

Lemma bind_raises {A B} (m : result A) (k : A -> result B) :
  (forall x, exists e, k x = Raise e) -> exists e, (m ≫= k) = Raise e.
Proof. intros Hk. destruct m as [x|e]; [apply Hk | eauto]. Qed.

Lemma raise_bind {A B} (m : result A) (k : A -> result B) (e : exn) :
  m = Raise e -> (m ≫= k) = Raise e.
Proof. now intros ->. Qed.

Lemma check_args_bad (histtype : string) (flow : option string) :
  bad_selector histtype flow ->
  check_args histtype flow = Raise (AssertionError histtype_message)
  \/ check_args histtype flow = Raise (AssertionError flow_message).
Proof.
  unfold check_args, py_assert. intros [Hh|Hf].
  - left. now rewrite Hh.
  - destruct (in_strings histtype allowed_histtype); [right|left]; [|reflexivity].
    now rewrite bind_Ok, Hf.
Qed.

Lemma flow_not_handled (f : string) :
  in_strings f ["hint"; "show"; "sum"] = false ->
  flow_in (Some f) ["hint"; "show"] = false
  /\ flow_is (Some f) "sum" = false
  /\ flow_is (Some f) "show" = false
  /\ flow_is (Some f) "hint" = false.
Proof.
  unfold in_strings, flow_in, flow_is. cbn [existsb].
  rewrite !orb_false_iff. intros (-> & -> & -> & _). now cbn.
Qed.

(** C4: [histplot] turns a [histtype] or [flow] outside its allowed sets
    down with an assertion naming the choices, before anything is drawn;
    [hist2dplot] has no [histtype] and does not check [flow]: a value it
    does not know is drawn like no flow handling at all. *)
Theorem selectors_checked (a : HistplotArgs) (h : Hist2D)
    (xbins ybins : list Q) (ax : ax_arg) (f : string) :
  (bad_selector (a_histtype a) (a_flow a) ->
   exists e, histplot a = ([], Raise e)
             /\ (a_ax a <> AxOther ->
                 e = AssertionError histtype_message
                 \/ e = AssertionError flow_message))
  /\ (in_strings f ["hint"; "show"; "sum"] = false -> ax <> AxOther ->
      hist2dplot h xbins ybins ax (Some f)
      = ([Pcolormesh (h2_values h) xbins ybins],
         Ok (mkGrid2D (h2_values h) xbins ybins None
                      (if h2_flow_arg h then Some f else None)
                      (negb (h2_flow_arg h))))).
Proof.
  split.
  - intros Hbad. unfold histplot, prepare.
    destruct (a_ax a) eqn:Hax; cbn [check_ax]; rewrite ?bind_Ok.
    1, 2: destruct (check_args_bad _ _ Hbad) as [-> | ->];
      eexists; (split; [reflexivity|]); intros _; [now left|now right].
    eexists. split; [reflexivity|]. intros Hne. now contradiction Hne.
  - intros Hf Hax. destruct (flow_not_handled f Hf) as (Hin & Hsum & Hshow & Hhint).
    assert (Hcheck : check_ax ax = Ok tt) by (now destruct ax).
    unfold hist2dplot, flow2d. rewrite Hcheck, bind_Ok.
    destruct (h2_flow_arg h); cbn [negb andb bool_decide].
    + rewrite Hin, Hsum. unfold boundary_events. cbn [g_flow].
      now rewrite Hshow, Hhint.
    + reflexivity.
Qed.

(** [hist2dplot] draws for a [flow] it does not know. *)
Lemma selectors_not_all_rejected : ~ selectors_rejected_claim.
Proof.
  intros [_ H2d].
  destruct (H2d one_cell [0; 1] [0; 1] AxNone (Some "bogus") eq_refl)
    as [e He].
  vm_compute in He. discriminate.
Qed.

Lemma selectors_checked_witness :
  (exists e,
     histplot (with_selectors (default_args [one_bin] [0; 1]) "bars"
                              (Some "hint"))
     = ([], Raise e)
     /\ (AxNone <> AxOther ->
         e = AssertionError histtype_message
         \/ e = AssertionError flow_message))
  /\ hist2dplot one_cell [0; 1] [0; 1] AxNone (Some "bogus")
     = ([Pcolormesh [[4]] [0; 1] [0; 1]],
        Ok (mkGrid2D [[4]] [0; 1] [0; 1] None (Some "bogus") false)).
Proof.
  destruct (selectors_checked
              (with_selectors (default_args [one_bin] [0; 1]) "bars"
                              (Some "hint"))
              one_cell [0; 1] [0; 1] AxNone "bogus") as [H1 H2].
  split.
  - apply H1. left. reflexivity.
  - apply H2; [reflexivity | discriminate].
Defined.

(** ** Options that exclude each other *)

Lemma normalise_conflict (stack : bool) (norm : Q) (final_bins : list Q)
    (ps : list Plottable) :
  normalise true stack (Some norm) final_bins ps
  = Raise (ValueError "Can only set density or binwnorm.").
Proof. reflexivity. Qed.

Lemma check_w2_yerr_conflict (w2 : ndarray) (yerr : yerr_arg) :
  yerr_is_None yerr = false ->
  check_w2_yerr (Some w2) yerr = Raise (ValueError "Can only supply errors or w2").
Proof. unfold check_w2_yerr. intros ->. reflexivity. Qed.

Lemma prepare_series_conflict (a : HistplotArgs) (ps : list Plottable) :
  conflicting a -> exists e, prepare_series a ps = Raise e.
Proof.
  intros [[Hd [norm Hn]] | [[w2 Hw] Hy]]; unfold prepare_series.
  - repeat lazymatch goal with
      | |- exists e, (normalise _ _ _ _ _ ≫= _) = _ => fail
      | |- exists e, (_ ≫= _) = _ => apply bind_raises; intros ?; cbv zeta
      end.
    rewrite Hd, Hn, normalise_conflict. eauto.
  - repeat lazymatch goal with
      | |- exists e, (check_w2_yerr _ _ ≫= _) = _ => fail
      | |- exists e, (_ ≫= _) = _ => apply bind_raises; intros ?; cbv zeta
      end.
    rewrite Hw, (check_w2_yerr_conflict w2 _ Hy). eauto.
Qed.

(** Up to its first drawing call [histplot] is [prepare], so a failure of
    [prepare] leaves the axes untouched. *)
Lemma prepare_conflict (a : HistplotArgs) :
  conflicting a -> exists e, prepare a = Raise e.
Proof.
  intros Hc. unfold prepare.
  do 3 (apply bind_raises; intros _). apply bind_raises. intros fl.
  destruct (prepare_series_conflict a (fl_plottables fl) Hc) as [e ->]. eauto.
Qed.

(** C5: a call with [density=True] and a [binwnorm], or with [w2] and
    [yerr], raises and draws nothing; the two checks raise the errors that
    name the conflict. *)
Theorem histplot_exclusive_options (a : HistplotArgs) :
  conflicting a ->
  (exists e, histplot a = ([], Raise e))
  /\ (a_density a = true -> is_Some (a_binwnorm a) ->
      forall ps, normalise (a_density a) (a_stack a) (a_binwnorm a)
                           (a_final_bins a) ps
                 = Raise (ValueError "Can only set density or binwnorm."))
  /\ (is_Some (a_w2 a) -> yerr_is_None (a_yerr a) = false ->
      check_w2_yerr (a_w2 a) (a_yerr a)
      = Raise (ValueError "Can only supply errors or w2")).
Proof.
  intros Hc. repeat split.
  - destruct (prepare_conflict a Hc) as [e He]. exists e.
    unfold histplot. now rewrite He.
  - intros -> [norm ->] ps. apply normalise_conflict.
  - intros [w2 ->] Hy. now apply check_w2_yerr_conflict.
Qed.

Lemma histplot_exclusive_options_witness :
  let a := with_options (default_args [three_bins] [0; 1; 2; 3])
                        YerrNone None true (Some 1) in
  (exists e, histplot a = ([], Raise e))
  /\ (a_density a = true -> is_Some (a_binwnorm a) ->
      forall ps, normalise (a_density a) (a_stack a) (a_binwnorm a)
                           (a_final_bins a) ps
                 = Raise (ValueError "Can only set density or binwnorm."))
  /\ (is_Some (a_w2 a) -> yerr_is_None (a_yerr a) = false ->
      check_w2_yerr (a_w2 a) (a_yerr a)
      = Raise (ValueError "Can only supply errors or w2")).
Proof.
  intros a. apply (histplot_exclusive_options a).
  left. split; [reflexivity|]. now exists 1.
Defined.

(** The same call reaches the density check, and without the conflict it
    draws. *)
Example conflict_reaches_check :
  histplot (with_options (default_args [three_bins] [0; 1; 2; 3])
                         YerrNone None true (Some 1))
  = ([], Raise (ValueError "Can only set density or binwnorm.")).
Proof. reflexivity. Qed.

Example no_conflict_draws :
  is_ok (snd (histplot (with_options (default_args [three_bins] [0; 1; 2; 3])
                                     YerrNone None true None))) = true
  /\ length (fst (histplot (with_options (default_args [three_bins] [0; 1; 2; 3])
                                         YerrNone None true None))) = 5%nat.
Proof. split; vm_compute; reflexivity. Qed.

(** ** Density *)


Lemma Qsum_cons (x : Q) (l : list Q) : Qsum (x :: l) = x + Qsum l.
Proof. reflexivity. Qed.















(** The two series of the examples under the one factor of a stack. *)
Example stacked_density_example :
  normalise true true None [0; 1; 2]
    [new_Plottable [1; 3] [0; 1; 2] None; new_Plottable [2; 2] [0; 1; 2] None]
  = Ok [new_Plottable [1 / 8 * 1; 1 / 8 * 3] [0; 1; 2] None;
        new_Plottable [1 / 8 * 2; 1 / 8 * 2] [0; 1; 2] None].
Proof. reflexivity. Qed.

(** ** The layout loops *)

Lemma ylim_rescaled (factor : Q) (n : nat) (st : Scaling) :
  ylim (rescaled factor n st)
  = ((ylim st).1, Nat.iter n (fun y => y * factor) (ylim st).2).
Proof.
  induction n as [|n IH].
  { change (ylim st = ((ylim st).1, (ylim st).2)). now destruct (ylim st). }
  change (ylim (rescaled factor (S n) st))
    with ((ylim (rescaled factor n st)).1,
          (ylim (rescaled factor n st)).2 * factor).
  now rewrite IH.
Qed.

Lemma rescalings_rescaled (factor : Q) (n : nat) (st : Scaling) :
  rescalings (rescaled factor n st) = (n + rescalings st)%nat.
Proof.
  induction n as [|n IH]; [reflexivity|].
  change (rescalings (rescaled factor (S n) st))
    with (S (rescalings (rescaled factor n st))).
  now rewrite IH.
Qed.

Lemma rescaled_succ (factor : Q) (n : nat) (st : Scaling) :
  rescaled factor n (set_ylim_scaled factor st) = rescaled factor (S n) st.
Proof. unfold rescaled. now rewrite Nat.iter_succ_r. Qed.

Section loop_facts.
Context (overlap : Q * Q -> Z) (otol : Q) (soft_fail : bool)
        (what : string) (factor : Q).

(** With the counter at [m] the loop needs at most [12 - m] turns, and
    ends on a state that is the start rescaled some number of times. *)
Lemma yscale_loop_bounded (fuel : nat) :
  forall (m : nat) (st : Scaling),
    (m <= 11)%nat -> (12 - m <= fuel)%nat ->
    exists n e,
      (n <= 12 - m)%nat
      /\ (soft_fail = true -> e = None)
      /\ (yscale_loop overlap otol soft_fail what factor fuel m st
          = Some (rescaled factor n st, e)
          \/ (soft_fail = true
              /\ yscale_loop overlap otol soft_fail what factor fuel m st
                 = Some (warn (could_not_fit what) (rescaled factor n st), e))).
Proof.
  induction fuel as [|fuel IH]; intros m st Hm Hfuel; [lia|].
  cbn [yscale_loop].
  destruct (Qgtb (inject_Z (overlap (ylim st))) otol).
  - destruct (Nat.ltb_spec 10 m) as [Hcap|Hcap].
    + destruct soft_fail; cbn [negb].
      * exists 1%nat, None. split; [lia|]. split; [reflexivity|].
        right. split; reflexivity.
      * exists 1%nat. eexists. split; [lia|]. split; [discriminate|].
        left. reflexivity.
    + destruct (IH (S m) (set_ylim_scaled factor st)) as (n & e & Hn & He & Hrun);
        [lia|lia|].
      exists (S n), e. split; [lia|]. split; [exact He|].
      rewrite rescaled_succ in Hrun. exact Hrun.
  - exists 0%nat, None. split; [lia|]. split; [reflexivity|].
    left. reflexivity.
Qed.

(** When the overlap never drops, the loop runs into its cap. *)
Lemma yscale_loop_cap (fuel : nat) :
  forall (m : nat) (st : Scaling),
    (m <= 11)%nat -> (12 - m <= fuel)%nat ->
    (forall k, (k < 12 - m)%nat ->
               otol < inject_Z (overlap (ylim (rescaled factor k st)))) ->
    yscale_loop overlap otol soft_fail what factor fuel m st
    = Some (if soft_fail
            then (warn (could_not_fit what) (rescaled factor (12 - m) st), None)
            else (rescaled factor (12 - m) st,
                  Some (RuntimeError
                          (could_not_fit what
                           ++ ", return anyway by passing `soft_fail=True`.")))).
Proof.
  induction fuel as [|fuel IH]; intros m st Hm Hfuel Hover; [lia|].
  cbn [yscale_loop].
  assert (H0 : Qgtb (inject_Z (overlap (ylim st))) otol = true).
  { apply Qgtb_true. apply (Hover 0%nat). lia. }
  rewrite H0. destruct (Nat.ltb_spec 10 m) as [Hcap|Hcap].
  - replace (12 - m)%nat with 1%nat by lia. now destruct soft_fail.
  - rewrite (IH (S m)); [| lia | lia |].
    + rewrite rescaled_succ. replace (S (12 - S m)) with (12 - m)%nat by lia.
      reflexivity.
    + intros k Hk. rewrite rescaled_succ. apply Hover. lia.
Qed.
End loop_facts.

Lemma turns_logged_succ (k : nat) :
  turns_logged k ++ [LogDebug; LogInfo] = turns_logged (S k).
Proof.
  unfold turns_logged. induction k as [|k IH]; [reflexivity|].
  cbn [replicate concat]. rewrite <- !app_assoc. rewrite IH. reflexivity.
Qed.

(** The state a loop is in after [j] turns. *)
Lemma set_ylim_scaled_turn (factor : Q) (j : nat) (lim : Q * Q) :
  set_ylim_scaled factor
    (mkScaling (limits_after factor j lim) (turns_logged j) j)
  = mkScaling (limits_after factor (S j) lim) (turns_logged (S j)) (S j).
Proof.
  unfold set_ylim_scaled. cbn [ylim logged rescalings fst snd limits_after].
  now rewrite turns_logged_succ.
Qed.

Lemma loop_from_turn (overlap : Q * Q -> Z) (otol factor : Q)
    (soft_fail : bool) (what : string) (lim : Q * Q) (fuel : nat) :
  forall j,
    (j <= 11)%nat -> (12 - j <= fuel)%nat ->
    (forall i, (i < j)%nat ->
       otol < inject_Z (overlap (limits_after factor i lim))) ->
    exists k st e,
      yscale_loop overlap otol soft_fail what factor fuel j
        (mkScaling (limits_after factor j lim) (turns_logged j) j)
      = Some (st, e)
      /\ (j <= k <= 12)%nat
      /\ (forall i, (i < k)%nat ->
            otol < inject_Z (overlap (limits_after factor i lim)))
      /\ ((k < 12)%nat ->
          st = mkScaling (limits_after factor k lim) (turns_logged k) k
          /\ e = None
          /\ inject_Z (overlap (limits_after factor k lim)) <= otol)
      /\ (k = 12%nat -> (st, e) = gave_up what soft_fail factor lim).
Proof.
  induction fuel as [|fuel IH]; intros j Hj Hfuel Hbefore; [lia|].
  cbn [yscale_loop]. cbn [ylim].
  destruct (Qgtb (inject_Z (overlap (limits_after factor j lim))) otol)
    eqn:Hover.
  - apply Qgtb_true in Hover.
    assert (Hnext : forall i, (i < S j)%nat ->
              otol < inject_Z (overlap (limits_after factor i lim))).
    { intros i Hi. destruct (decide (i = j)) as [->|Hne]; [exact Hover|].
      apply Hbefore. lia. }
    rewrite set_ylim_scaled_turn.
    destruct (Nat.ltb_spec 10 j) as [Hcap|Hcap].
    + assert (j = 11%nat) as -> by lia.
      exists 12%nat. destruct soft_fail; cbn [negb].
      * eexists _, _. split; [reflexivity|]. split; [lia|].
        split; [exact Hnext|]. split; [lia|]. intros _. reflexivity.
      * eexists _, _. split; [reflexivity|]. split; [lia|].
        split; [exact Hnext|]. split; [lia|]. intros _. reflexivity.
    + destruct (IH (S j)) as (k & st & e & Hrun & Hk & Hall & Hfit & Hgave);
        [lia|lia|exact Hnext|].
      exists k, st, e. split; [exact Hrun|]. split; [lia|].
      split; [exact Hall|]. split; [exact Hfit|exact Hgave].
  - apply Qgtb_false in Hover. exists j. eexists _, _.
    split; [reflexivity|]. split; [lia|]. split; [exact Hbefore|].
    split; [|lia]. intros _. split; [reflexivity|]. split; [reflexivity|].
    exact Hover.
Qed.

Lemma loop_bounded (overlap : Q * Q -> Z) (otol factor : Q)
    (soft_fail : bool) (what : string) (lim : Q * Q) (fuel : nat) :
  (12 <= fuel)%nat ->
  bounded_loop (yscale_loop overlap otol soft_fail what factor fuel 0
                            (start_scaling lim))
               overlap otol factor soft_fail what lim.
Proof.
  intros Hfuel.
  destruct (loop_from_turn overlap otol factor soft_fail what lim fuel 0)
    as (k & st & e & Hrun & Hk & Hall & Hfit & Hgave); [lia|lia| |].
  { intros i Hi. lia. }
  assert (Hstart : start_scaling lim
                   = mkScaling (limits_after factor 0 lim) (turns_logged 0) 0).
  { unfold start_scaling, limits_after. cbn. now destruct lim. }
  rewrite <- Hstart in Hrun.
  exists k, st, e. split; [exact Hrun|]. split; [lia|].
  split; [exact Hall|]. split; [exact Hfit|]. split; [exact Hgave|]. split.
  - intros ->. destruct (decide (k = 12%nat)) as [Hcap|Hcap].
    + specialize (Hgave Hcap). now injection Hgave as _ ->.
    + now destruct Hfit as (_ & -> & _); [lia|].
  - intros Hkeeps. destruct (decide (k = 12%nat)) as [Hcap|Hcap];
      [now apply Hgave|].
    destruct Hfit as (_ & _ & Hle); [lia|].
    exfalso. apply (Qlt_not_le _ _ (Hkeeps k ltac:(lia))). exact Hle.
Qed.

(** C9: [yscale_legend] and [yscale_anchored_text] rescale at most twelve
    times, each time multiplying the upper y-limit by one factor, which is
    larger under a log scale, and only after a check that found the overlap
    above the tolerance; when the overlap stays above the tolerance through
    the twelve checks they raise with [soft_fail=False] and return with a
    logged warning with [soft_fail=True], the upper limit multiplied twelve
    times in both cases. *)
Theorem yscale_loops_bounded (overlap : Q * Q -> Z) (yscale_is_log : bool)
    (otol : option Q) (soft_fail : bool) (lim : Q * Q) (fuel : nat) :
  (12 <= fuel)%nat ->
  scale_factor false < scale_factor true
  /\ bounded_loop (yscale_legend overlap yscale_is_log otol soft_fail fuel lim)
                  overlap (default 0 otol) (scale_factor yscale_is_log)
                  soft_fail "legend" lim
  /\ bounded_loop (yscale_anchored_text overlap yscale_is_log otol soft_fail
                                        fuel lim)
                  overlap (default 0 otol) (scale_factor yscale_is_log)
                  soft_fail "AnchoredText" lim.
Proof.
  intros Hfuel. split; [reflexivity|].
  split; now apply loop_bounded.
Qed.

Lemma yscale_loops_bounded_witness :
  let overlap := fun lim : Q * Q => if Qle_bool 2 lim.2 then 0%Z else 3%Z in
  scale_factor false < scale_factor true
  /\ bounded_loop (yscale_legend overlap false None false 12 (0, 1))
                  overlap 0 (scale_factor false) false "legend" (0, 1)
  /\ bounded_loop (yscale_anchored_text overlap false None false 12 (0, 1))
                  overlap 0 (scale_factor false) false "AnchoredText" (0, 1).
Proof.
  intros overlap.
  apply (yscale_loops_bounded overlap false None false (0, 1) 12). lia.
Defined.

(** A legend that never fits: twelve rescalings, then the error, or the
    warning. *)
Example legend_never_fits :
  yscale_legend (fun _ => 1%Z) false None false 12 (0, 1)
  = Some (gave_up "legend" false (105 # 100) (0, 1))
  /\ yscale_legend (fun _ => 1%Z) false None true 12 (0, 1)
     = Some (gave_up "legend" true (105 # 100) (0, 1))
  /\ rescalings (gave_up "legend" false (105 # 100) (0, 1)).1 = 12%nat.
Proof. repeat split; vm_compute; reflexivity. Qed.

(** A legend that fits after two rescalings: the upper limit is multiplied
    twice by 1.05, and the log holds the two turns. *)
Example legend_fits_after_two :
  yscale_legend (fun lim => if Qle_bool 11 lim.2 then 0%Z else 1%Z)
                false None false 12 (0, 10)
  = Some (mkScaling (0, 10 * (105 # 100) * (105 # 100))
                    [LogDebug; LogInfo; LogDebug; LogInfo] 2, None).
Proof. reflexivity. Qed.

(** ** Flow content that is not positive *)

Lemma positive_part_cases (f : FlowContent) :
  positive_part f =
  match Qgtb (underflow f) 0, Qgtb (overflow f) 0 with
  | true, true => f
  | false, true => without_underflow f
  | true, false => without_overflow f
  | false, false => without_overflow (without_underflow f)
  end.
Proof.
  unfold positive_part, without_underflow, without_overflow.
  destruct f as [u o uv ov]. cbn.
  destruct (Qgtb u 0), (Qgtb o 0); reflexivity.
Qed.

Lemma sum_flow_positive_part (value : list Q) (variance : option (list Q))
    (f : FlowContent) :
  sum_flow value variance (positive_part f) = sum_flow value variance f.
Proof.
  rewrite positive_part_cases.
  destruct (Qgtb (underflow f) 0) eqn:Hu, (Qgtb (overflow f) 0) eqn:Ho;
    try apply Qgtb_false in Hu; try apply Qgtb_false in Ho.
  - reflexivity.
  - symmetry. now apply sum_flow_without_overflow.
  - symmetry. now apply sum_flow_without_underflow.
  - rewrite <- (sum_flow_without_overflow (without_underflow f)) by exact Ho.
    symmetry. now apply sum_flow_without_underflow.
Qed.

Lemma show_flow_positive_part (final_bins value : list Q)
    (variance : option (list Q)) (f : FlowContent) :
  show_flow final_bins value variance (positive_part f)
  = show_flow final_bins value variance f.
Proof.
  rewrite positive_part_cases.
  destruct (Qgtb (underflow f) 0) eqn:Hu, (Qgtb (overflow f) 0) eqn:Ho;
    try apply Qgtb_false in Hu; try apply Qgtb_false in Ho.
  - reflexivity.
  - symmetry. now apply show_flow_without_overflow.
  - symmetry. now apply show_flow_without_underflow.
  - rewrite <- (show_flow_without_overflow (without_underflow f)) by exact Ho.
    symmetry. now apply show_flow_without_underflow.
Qed.

Lemma flow_plottable_positive_part (flow : option string)
    (final_bins flow_bins value : list Q) (variance : option (list Q))
    (f : FlowContent) :
  flow_plottable flow final_bins flow_bins value variance (positive_part f)
  = flow_plottable flow final_bins flow_bins value variance f.
Proof.
  unfold flow_plottable.
  now rewrite sum_flow_positive_part, show_flow_positive_part.
Qed.

Lemma Qgtb_positive_part (f : FlowContent) :
  Qgtb (underflow (positive_part f)) 0 = Qgtb (underflow f) 0
  /\ Qgtb (overflow (positive_part f)) 0 = Qgtb (overflow f) 0.
Proof.
  unfold positive_part. cbn.
  destruct (Qgtb (underflow f) 0) eqn:Hu, (Qgtb (overflow f) 0) eqn:Ho;
    now rewrite ?Hu, ?Ho.
Qed.

Lemma flow_styling_positive_part (flow : option string) (final_bins : list Q)
    (s : Series) (f : FlowContent) :
  flow_styling flow final_bins s (positive_part f)
  = flow_styling flow final_bins s f.
Proof.
  unfold flow_styling. destruct (Qgtb_positive_part f) as [-> ->]. reflexivity.
Qed.

Lemma flow_step_positive (flow : option string) (final_bins : list Q)
    (st st' : FlowLoop) (h h' : Hist) :
  drops_empty_flow h h' ->
  fl_plottables st' = fl_plottables st -> fl_flow_bins st' = fl_flow_bins st ->
  same_plottables (flow_step flow final_bins st h)
                  (flow_step flow final_bins st' h').
Proof.
  intros (Hv & Hvar & f & Hf & Hf') Hps Hfb. unfold flow_step.
  rewrite Hf, Hf', !bind_Ok, Hv, Hvar, Hfb, flow_plottable_positive_part.
  destruct (flow_plottable flow final_bins (fl_flow_bins st) (h_values h)
              (h_variances h) f) as [[p fb]|e]; cbn; [|reflexivity].
  now rewrite Hps.
Qed.

Lemma flow_loop_positive (flow : option string) (final_bins : list Q)
    (hists hists' : list Hist) :
  Forall2 drops_empty_flow hists hists' ->
  forall st st',
    fl_plottables st' = fl_plottables st ->
    fl_flow_bins st' = fl_flow_bins st ->
    fl_last st' = positive_part (fl_last st) ->
    same_plottables (flow_loop flow final_bins st hists)
                    (flow_loop flow final_bins st' hists').
Proof.
  induction 1 as [|h h' hs hs' Hh _ IH]; intros st st' Hps Hfb Hlast.
  - cbn. auto.
  - cbn [flow_loop].
    pose proof (flow_step_positive flow final_bins st st' h h' Hh Hps Hfb) as Hstep.
    destruct (flow_step flow final_bins st h) as [fl|e],
             (flow_step flow final_bins st' h') as [fl'|e'];
      cbn in Hstep; try contradiction.
    + destruct Hstep as (H1 & H2 & H3). rewrite !bind_Ok. now apply IH.
    + subst e'. reflexivity.
Qed.

(** Up to the flow content seen last, the two calls prepare the same. *)
Lemma prepare_positive (a : HistplotArgs) (hists' : list Hist) :
  Forall2 drops_empty_flow (a_hists a) hists' ->
  match prepare a, prepare (with_hists a hists') with
  | Ok st, Ok st' =>
      p_series st' = p_series st
      /\ p_flow_bins st' = p_flow_bins st
      /\ p_last_flow st' = positive_part (p_last_flow st)
  | Raise e, Raise e' => e' = e
  | _, _ => False
  end.
Proof.
  intros Hall. unfold prepare.
  change (a_ax (with_hists a hists')) with (a_ax a).
  change (a_histtype (with_hists a hists')) with (a_histtype a).
  change (a_flow (with_hists a hists')) with (a_flow a).
  change (a_final_bins (with_hists a hists')) with (a_final_bins a).
  change (a_hists (with_hists a hists')) with hists'.
  destruct (check_ax (a_ax a)); [|reflexivity]. rewrite !bind_Ok.
  destruct (check_args (a_histtype a) (a_flow a)); [|reflexivity].
  rewrite !bind_Ok.
  assert (Hitem : is_ok (item0 (a_hists a)) = is_ok (item0 hists')
                  /\ (is_ok (item0 (a_hists a)) = false ->
                      item0 (a_hists a) = Raise IndexError
                      /\ item0 hists' = Raise IndexError)).
  { destruct Hall; cbn; (split; [reflexivity|]); [auto|discriminate]. }
  destruct Hitem as [Hok Hraise].
  destruct (item0 (a_hists a)) as [h|e] eqn:H0.
  - destruct (item0 hists') as [h'|e'] eqn:H0'; [|discriminate].
    rewrite !bind_Ok.
    pose proof (flow_loop_positive (a_flow a) (a_final_bins a) _ _ Hall
                  (mkFlowLoop [] (a_final_bins a) (mkFlow 0 0 0 0))
                  (mkFlowLoop [] (a_final_bins a) (mkFlow 0 0 0 0))
                  eq_refl eq_refl eq_refl) as Hrun.
    unfold make_plottables.
    destruct (flow_loop (a_flow a) (a_final_bins a) _ (a_hists a)) as [fl|e],
             (flow_loop (a_flow a) (a_final_bins a) _ hists') as [fl'|e'];
      cbn in Hrun; try contradiction.
    + destruct Hrun as (H1 & H2 & H3). rewrite !bind_Ok, H1.
      change (prepare_series (with_hists a hists') (fl_plottables fl))
        with (prepare_series a (fl_plottables fl)).
      destruct (prepare_series a (fl_plottables fl)); cbn; auto.
    + subst e'. reflexivity.
  - destruct (Hraise eq_refl) as [[= ->] ->]. reflexivity.
Qed.

Lemma draw_positive (a : HistplotArgs) (hists' : list Hist)
    (s : Series) (flow_bins flow_bins' : list Q) (f : FlowContent) :
  draw (with_hists a hists') (mkPrepared s flow_bins' (positive_part f))
  = draw a (mkPrepared s flow_bins f).
Proof.
  unfold draw. cbn [p_series p_last_flow].
  change (draw_series (with_hists a hists') s) with (draw_series a s).
  change (a_flow (with_hists a hists')) with (a_flow a).
  change (a_final_bins (with_hists a hists')) with (a_final_bins a).
  now rewrite flow_styling_positive_part.
Qed.

(** C10: in [histplot], flow content counts only when it is strictly
    positive.  A flow value that is zero or negative is not added by
    [flow="sum"] and gets no bin from [flow="show"], and the whole call
    draws and returns what it does for the histograms without that flow
    content. *)
Theorem histplot_flow_needs_positive (a : HistplotArgs) (hists' : list Hist)
    (f : FlowContent) (size : Q) (value flow_bins : list Q)
    (variance : option (list Q)) :
  Forall2 drops_empty_flow (a_hists a) hists' ->
  histplot (with_hists a hists') = histplot a
  /\ (underflow f <= 0 ->
      sum_underflow f (value, variance) = Ok (value, variance)
      /\ show_underflow size f (flow_bins, value, variance)
         = Ok (flow_bins, value, variance))
  /\ (overflow f <= 0 ->
      sum_overflow f (value, variance) = Ok (value, variance)
      /\ show_overflow size f (flow_bins, value, variance)
         = Ok (flow_bins, value, variance)).
Proof.
  intros Hall. split; [|split].
  - unfold histplot. pose proof (prepare_positive a hists' Hall) as Hprep.
    destruct (prepare a) as [st|e], (prepare (with_hists a hists')) as [st'|e'];
      try contradiction.
    + destruct st as [s fb fl], st' as [s' fb' fl']. cbn in Hprep.
      destruct Hprep as (-> & -> & ->). apply draw_positive.
    + now subst e'.
  - intros Hu. split; [now apply sum_underflow_skip|now apply show_underflow_skip].
  - intros Ho. split; [now apply sum_overflow_skip|now apply show_overflow_skip].
Qed.

Lemma histplot_flow_needs_positive_witness :
  let a := with_selectors (default_args [negative_underflow] [0; 1; 2])
                          "step" (Some "sum") in
  histplot (with_hists a [no_underflow]) = histplot a
  /\ (underflow (mkFlow (-1 # 1) 3 0 0) <= 0 ->
      sum_underflow (mkFlow (-1 # 1) 3 0 0) ([4; 6], None) = Ok ([4; 6], None)
      /\ show_underflow 1 (mkFlow (-1 # 1) 3 0 0) ([0; 1; 2], [4; 6], None)
         = Ok ([0; 1; 2], [4; 6], None))
  /\ (overflow (mkFlow (-1 # 1) 3 0 0) <= 0 ->
      sum_overflow (mkFlow (-1 # 1) 3 0 0) ([4; 6], None) = Ok ([4; 6], None)
      /\ show_overflow 1 (mkFlow (-1 # 1) 3 0 0) ([0; 1; 2], [4; 6], None)
         = Ok ([0; 1; 2], [4; 6], None)).
Proof.
  intros a.
  apply (histplot_flow_needs_positive a [no_underflow] (mkFlow (-1 # 1) 3 0 0)
           1 [4; 6] [0; 1; 2] None).
  constructor; [|constructor]. repeat split.
  exists (mkFlow (-1 # 1) 3 0 0). split; reflexivity.
Defined.

(** The negative underflow leaves the first bin alone; the overflow of 3
    is added to the last. *)
Example negative_underflow_sum :
  fst (histplot (with_selectors (default_args [negative_underflow] [0; 1; 2])
                                "step" (Some "sum")))
  = [Stairs StepOutline (new_Plottable [4; 6 + 3] [0; 1; 2] None) (Some 0)
            None ∅].
Proof. reflexivity. Qed.

(** * Further properties of the code *)

(** ** The flow loop of [histplot] *)

Lemma bind_Ok_inv {A B} (m : result A) (k : A -> result B) (b : B) :
  (m ≫= k) = Ok b -> exists a, m = Ok a /\ k a = Ok b.
Proof. destruct m as [a|e]; [eauto|discriminate]. Qed.

Lemma add_item0_length (l l' : list Q) (d : Q) :
  add_item0 l d = Ok l' -> length l' = length l.
Proof.
  unfold add_item0. intros (x & _ & [= <-])%bind_Ok_inv. apply length_insert.
Qed.

Lemma add_item_last_length (l l' : list Q) (d : Q) :
  add_item_last l d = Ok l' -> length l' = length l.
Proof.
  unfold add_item_last. intros (x & _ & [= <-])%bind_Ok_inv. apply length_insert.
Qed.

Lemma add_variance_length (add : list Q -> Q -> result (list Q))
    (variance w : option (list Q)) (d : Q) (n : nat) :
  (forall l l', add l d = Ok l' -> length l' = length l) ->
  add_variance add variance d = Ok w ->
  (forall v, variance = Some v -> length v = n) ->
  forall v, w = Some v -> length v = n.
Proof.
  intros Hadd Hrun Hlen v ->. destruct variance as [v0|]; cbn in Hrun.
  - apply bind_Ok_inv in Hrun as (v' & Hv' & [= <-]).
    rewrite (Hadd _ _ Hv'). now apply Hlen.
  - discriminate.
Qed.

(** The value and variance arrays keep their lengths under [flow="sum"]. *)
Lemma sum_flow_lengths (value value' : list Q) (variance variance' : option (list Q))
    (f : FlowContent) :
  sum_flow value variance f = Ok (value', variance') ->
  (forall v, variance = Some v -> length v = length value) ->
  length value' = length value
  /\ forall v, variance' = Some v -> length v = length value.
Proof.
  unfold sum_flow. intros ([v1 w1] & H1 & H2)%bind_Ok_inv Hlen.
  assert (Hone : length v1 = length value
                 /\ forall v, w1 = Some v -> length v = length value).
  { unfold sum_underflow in H1. destruct (Qgtb (underflow f) 0).
    - apply bind_Ok_inv in H1 as (va & Hva & H1).
      apply bind_Ok_inv in H1 as (wa & Hwa & [= <- <-]).
      split; [exact (add_item0_length _ _ _ Hva)|].
      eapply add_variance_length; [|exact Hwa|exact Hlen].
      intros l l'. apply add_item0_length.
    - injection H1 as <- <-. auto. }
  destruct Hone as [Hv1 Hw1].
  unfold sum_overflow in H2. destruct (Qgtb (overflow f) 0).
  - apply bind_Ok_inv in H2 as (va & Hva & H2).
    apply bind_Ok_inv in H2 as (wa & Hwa & [= <- <-]).
    split; [rewrite (add_item_last_length _ _ _ Hva); exact Hv1|].
    eapply add_variance_length; [|exact Hwa|exact Hw1].
    intros l l'. apply add_item_last_length.
  - injection H2 as <- <-. auto.
Qed.

(** Under [flow="show"] every appended flow bin brings one edge, one value
    and one variance. *)
Lemma show_flow_lengths (final_bins value fb value' : list Q)
    (variance variance' : option (list Q)) (f : FlowContent) :
  show_flow final_bins value variance f = Ok (fb, value', variance') ->
  length final_bins = S (length value) ->
  (forall v, variance = Some v -> length v = length value) ->
  length fb = S (length value')
  /\ forall v, variance' = Some v -> length v = length value'.
Proof.
  unfold show_flow. intros (size & _ & H)%bind_Ok_inv Hbins Hlen.
  apply bind_Ok_inv in H as ([[fb1 v1] w1] & H1 & H2).
  assert (Hone : length fb1 = S (length v1)
                 /\ forall v, w1 = Some v -> length v = length v1).
  { unfold show_underflow in H1. destruct (Qgtb (underflow f) 0).
    - apply bind_Ok_inv in H1 as (b0 & _ & [= <- <- <-]).
      split; [cbn; congruence|].
      intros v Hv. destruct variance as [v0|]; [|discriminate].
      injection Hv as <-. cbn. now rewrite (Hlen v0 eq_refl).
    - injection H1 as <- <- <-. auto. }
  destruct Hone as [Hfb1 Hw1].
  unfold show_overflow in H2. destruct (Qgtb (overflow f) 0).
  - apply bind_Ok_inv in H2 as (bl & _ & [= <- <- <-]).
    split; [rewrite !length_app; cbn; lia|].
    intros v Hv. destruct w1 as [v0|]; [|discriminate].
    injection Hv as <-. rewrite !length_app. cbn. now rewrite (Hw1 v0 eq_refl).
  - injection H2 as <- <- <-. auto.
Qed.

Lemma flow_plottable_binned (flow : option string)
    (final_bins flow_bins value fb : list Q) (variance : option (list Q))
    (f : FlowContent) (p : Plottable) :
  flow_plottable flow final_bins flow_bins value variance f = Ok (p, fb) ->
  length final_bins = S (length value) ->
  (forall v, variance = Some v -> length v = length value) ->
  binned p.
Proof.
  unfold flow_plottable. intros Hrun Hbins Hlen.
  assert (Hplain : binned (new_Plottable value final_bins variance))
    by (split; assumption).
  destruct (flow_is flow "none"); [now injection Hrun as <- _|].
  destruct (flow_is flow "hint"); [now injection Hrun as <- _|].
  destruct (flow_is flow "show").
  { apply bind_Ok_inv in Hrun as ([[fb1 v1] w1] & Hshow & [= <- _]).
    exact (show_flow_lengths _ _ _ _ _ _ _ Hshow Hbins Hlen). }
  destruct (flow_is flow "sum").
  { apply bind_Ok_inv in Hrun as ([v1 w1] & Hsum & [= <- _]).
    destruct (sum_flow_lengths _ _ _ _ _ Hsum Hlen) as [Hv Hw].
    split; cbn; [congruence|]. intros v Hv'. rewrite Hv. now apply Hw. }
  now injection Hrun as <- _.
Qed.

Lemma flow_loop_binned (flow : option string) (final_bins : list Q)
    (hists : list Hist) :
  Forall (fits_bins final_bins) hists ->
  forall st fl,
    flow_loop flow final_bins st hists = Ok fl ->
    Forall binned (fl_plottables st) ->
    length (fl_plottables fl) = (length (fl_plottables st) + length hists)%nat
    /\ Forall binned (fl_plottables fl).
Proof.
  induction 1 as [|h hs [Hbins Hwf] _ IH]; intros st fl Hrun Hst.
  - injection Hrun as <-. cbn. split; [lia|exact Hst].
  - cbn [flow_loop] in Hrun. apply bind_Ok_inv in Hrun as (st1 & Hstep & Hrun).
    unfold flow_step in Hstep.
    apply bind_Ok_inv in Hstep as (f & _ & Hstep).
    apply bind_Ok_inv in Hstep as ([p fb] & Hp & [= <-]).
    apply flow_plottable_binned in Hp; [|exact Hbins|exact Hwf].
    destruct (IH _ _ Hrun) as [Hlen Hall].
    { cbn. apply Forall_app. split; [exact Hst|]. now constructor. }
    split; [|exact Hall]. rewrite Hlen. cbn. rewrite length_app. cbn. lia.
Qed.

(** X1: whatever the flow mode, the flow loop of [histplot] makes one
    plottable per histogram, each with one more edge than values and with
    as many variances as values. *)
Theorem make_plottables_binned (flow : option string) (final_bins : list Q)
    (hists : list Hist) (fl : FlowLoop) :
  Forall (fits_bins final_bins) hists ->
  make_plottables flow final_bins hists = Ok fl ->
  length (fl_plottables fl) = length hists
  /\ Forall binned (fl_plottables fl).
Proof.
  intros Hall Hrun.
  destruct (flow_loop_binned flow final_bins hists Hall _ _ Hrun) as [Hlen Hb].
  - constructor.
  - split; [exact Hlen|exact Hb].
Qed.

Lemma make_plottables_binned_witness :
  match make_plottables (Some "show") [0; 1; 2; 3] [three_bins] with
  | Ok fl => length (fl_plottables fl) = length [three_bins]
             /\ Forall binned (fl_plottables fl)
  | Raise _ => False
  end.
Proof.
  destruct (make_plottables (Some "show") [0; 1; 2; 3] [three_bins])
    as [fl|e] eqn:Hrun.
  - apply (make_plottables_binned (Some "show") [0; 1; 2; 3] [three_bins]).
    + constructor; [|constructor]. split; [reflexivity|].
      intros v [= <-]. reflexivity.
    + exact Hrun.
  - vm_compute in Hrun. discriminate.
Defined.

Lemma Qmaxb_ge (a b : Q) : a <= Qmaxb a b /\ b <= Qmaxb a b.
Proof.
  unfold Qmaxb. destruct (Qle_bool a b) eqn:Hab.
  - apply Qle_bool_iff in Hab. split; [exact Hab|apply Qle_refl].
  - split; [apply Qle_refl|].
    apply Qlt_le_weak, Qnot_le_lt. intros H%Qle_bool_iff. congruence.
Qed.

(** In ascending edges the first lies below the last. *)
Lemma increasing_first_last (a : Q) (l : list Q) (hi : Q) :
  increasing (a :: l) -> l <> [] -> last (a :: l) = Some hi -> a < hi.
Proof.
  revert a. induction l as [|b t IH]; intros a Hs Hne Hlast; [congruence|].
  apply Sorted_inv in Hs as [Hs Hhd]. apply HdRel_inv in Hhd.
  destruct t as [|c t].
  - cbn in Hlast. now injection Hlast as <-.
  - apply Qlt_trans with b; [exact Hhd|].
    apply IH; [exact Hs|discriminate|exact Hlast].
Qed.

Lemma increasing_snoc (l : list Q) (x y : Q) :
  increasing l -> last l = Some x -> x < y -> increasing (l ++ [y]).
Proof.
  unfold increasing. induction l as [|a t IH]; intros Hs Hlast Hxy; [discriminate|].
  apply Sorted_inv in Hs as [Hs Hhd]. destruct t as [|b t].
  - cbn in Hlast. injection Hlast as ->. repeat constructor. exact Hxy.
  - cbn. constructor.
    + apply IH; [exact Hs|exact Hlast|exact Hxy].
    + constructor. now apply HdRel_inv in Hhd.
Qed.

Lemma flow_bin_size_positive (final_bins : list Q) :
  increasing final_bins -> (2 <= length final_bins)%nat ->
  exists size lo hi,
    flow_bin_size final_bins = Ok size
    /\ head final_bins = Some lo /\ last final_bins = Some hi
    /\ 0 < size
    /\ (5 # 100) * (hi - lo) <= size
    /\ mean (diff final_bins) <= size.
Proof.
  intros Hs Hlen. destruct final_bins as [|lo t]; [cbn in Hlen; lia|].
  destruct (last (lo :: t)) as [hi|] eqn:Hlast.
  2: { apply last_None in Hlast. discriminate. }
  assert (Hlt : lo < hi).
  { apply (increasing_first_last lo t hi Hs); [|exact Hlast].
    intros ->. cbn in Hlen. lia. }
  unfold flow_bin_size, item_last, item0. rewrite Hlast. cbn [lookup list_lookup].
  rewrite !bind_Ok. eexists _, lo, hi. split; [reflexivity|].
  destruct (Qmaxb_ge ((5 # 100) * (hi - lo)) (mean (diff (lo :: t)))) as [H1 H2].
  repeat split; try assumption.
  eapply Qlt_le_trans; [|exact H1].
  apply Qmult_lt_0_compat; [reflexivity|]. now apply Qlt_minus_iff in Hlt.
Qed.

(** X2: under [flow="show"], on ascending bin edges, the underflow is put
    in front of the values and the overflow behind them, each only when it
    is positive; the edges get one more edge per added bin, stay ascending,
    and a flow bin is as wide as the wider of the mean bin width and 5% of
    the range. *)
Theorem show_flow_extends (final_bins value : list Q)
    (variance : option (list Q)) (f : FlowContent) :
  increasing final_bins -> (2 <= length final_bins)%nat ->
  exists size lo hi fb variance',
    flow_bin_size final_bins = Ok size
    /\ head final_bins = Some lo /\ last final_bins = Some hi
    /\ show_flow final_bins value variance f
       = Ok (fb, when (Qgtb (underflow f) 0) (underflow f) ++ value
                 ++ when (Qgtb (overflow f) 0) (overflow f), variance')
    /\ fb = when (Qgtb (underflow f) 0) (lo - size) ++ final_bins
            ++ when (Qgtb (overflow f) 0) (hi + size)
    /\ increasing fb
    /\ (5 # 100) * (hi - lo) <= size
    /\ mean (diff final_bins) <= size.
Proof.
  intros Hs Hlen.
  destruct (flow_bin_size_positive final_bins Hs Hlen)
    as (size & lo & hi & Hsize & Hlo & Hhi & Hpos & H5 & Hmean).
  exists size, lo, hi.
  unfold show_flow. rewrite Hsize, bind_Ok.
  unfold show_underflow, show_overflow, when.
  destruct final_bins as [|b0 t]; [discriminate|]. injection Hlo as ->.
  assert (Hlow : lo - size < lo).
  { apply Qlt_minus_iff. ring_simplify. exact Hpos. }
  assert (Hhigh : hi < hi + size).
  { apply Qlt_minus_iff. ring_simplify. exact Hpos. }
  destruct (Qgtb (underflow f) 0), (Qgtb (overflow f) 0);
    cbn [item0 lookup list_lookup]; rewrite ?bind_Ok.
  - assert (Hl : item_last ((lo - size) :: lo :: t) = Ok hi).
    { unfold item_last. change (last ((lo - size) :: lo :: t)) with (last (lo :: t)).
      now rewrite Hhi. }
    rewrite Hl, bind_Ok. do 2 eexists. split; [reflexivity|].
    split; [reflexivity|]. repeat split; try assumption.
    change ((lo - size) :: (lo :: t) ++ [hi + size])
      with (((lo - size) :: lo :: t) ++ [hi + size]).
    apply (increasing_snoc _ hi); [|exact Hhi|exact Hhigh].
    constructor; [exact Hs|]. now constructor.
  - do 2 eexists. split; [reflexivity|]. rewrite !app_nil_r.
    split; [reflexivity|]. repeat split; try assumption.
    constructor; [exact Hs|]. now constructor.
  - assert (Hl : item_last (lo :: t) = Ok hi).
    { unfold item_last. now rewrite Hhi. }
    rewrite Hl, bind_Ok. do 2 eexists. split; [reflexivity|].
    split; [reflexivity|]. repeat split; try assumption.
    now apply (increasing_snoc _ hi).
  - do 2 eexists. split; [reflexivity|]. rewrite !app_nil_r.
    split; [reflexivity|]. repeat split; assumption.
Qed.

Lemma show_flow_extends_witness :
  exists size lo hi fb variance',
    flow_bin_size [0; 1; 2; 4] = Ok size
    /\ head [0; 1; 2; 4] = Some lo /\ last [0; 1; 2; 4] = Some hi
    /\ show_flow [0; 1; 2; 4] [5; 6; 7] None (mkFlow 2 0 0 0)
       = Ok (fb, when (Qgtb (underflow (mkFlow 2 0 0 0)) 0)
                      (underflow (mkFlow 2 0 0 0)) ++ [5; 6; 7]
                 ++ when (Qgtb (overflow (mkFlow 2 0 0 0)) 0)
                         (overflow (mkFlow 2 0 0 0)), variance')
    /\ fb = when (Qgtb (underflow (mkFlow 2 0 0 0)) 0) (lo - size)
            ++ [0; 1; 2; 4]
            ++ when (Qgtb (overflow (mkFlow 2 0 0 0)) 0) (hi + size)
    /\ increasing fb
    /\ (5 # 100) * (hi - lo) <= size
    /\ mean (diff [0; 1; 2; 4]) <= size.
Proof.
  apply (show_flow_extends [0; 1; 2; 4] [5; 6; 7] None (mkFlow 2 0 0 0)).
  - repeat constructor.
  - cbn. lia.
Defined.

Lemma flow_loop_app (flow : option string) (final_bins : list Q)
    (hs1 hs2 : list Hist) :
  forall st,
    flow_loop flow final_bins st (hs1 ++ hs2)
    = (st' ← flow_loop flow final_bins st hs1;
       flow_loop flow final_bins st' hs2).
Proof.
  induction hs1 as [|h hs1 IH]; intros st; [reflexivity|].
  cbn [flow_loop app].
  destruct (flow_step flow final_bins st h) as [st1|e]; [|reflexivity].
  rewrite !bind_Ok. apply IH.
Qed.

(** X3: the markers and dashed lines that flag flow content are decided
    by the histogram that comes last in the call: its flow content is the
    one the drawing code reads, whatever the histograms before it hold. *)
Theorem flow_markers_of_last (a : HistplotArgs) (hs : list Hist) (h : Hist)
    (evs : list draw_event) (arts : list artists) :
  a_hists a = hs ++ [h] ->
  histplot a = (evs, Ok arts) ->
  exists st f marks,
    prepare a = Ok st
    /\ flow_content h = Ok f
    /\ p_last_flow st = f
    /\ flow_styling (a_flow a) (a_final_bins a) (p_series st) f = Ok marks
    /\ evs = (draw_loop (draw_series a (p_series st))
                        (seq 0 (length (s_plottables (p_series st))))).1
             ++ marks.
Proof.
  intros Hh Hrun. unfold histplot in Hrun.
  destruct (prepare a) as [st|e] eqn:Hprep; [|discriminate].
  assert (Hlast : flow_content h = Ok (p_last_flow st)).
  { unfold prepare in Hprep.
    apply bind_Ok_inv in Hprep as (_ & _ & Hprep).
    apply bind_Ok_inv in Hprep as (_ & _ & Hprep).
    apply bind_Ok_inv in Hprep as (_ & _ & Hprep).
    apply bind_Ok_inv in Hprep as (fl & Hfl & Hprep).
    apply bind_Ok_inv in Hprep as (s & _ & [= <-]). cbn [p_last_flow].
    unfold make_plottables in Hfl. rewrite Hh, flow_loop_app in Hfl.
    apply bind_Ok_inv in Hfl as (st1 & _ & Hfl). cbn [flow_loop] in Hfl.
    apply bind_Ok_inv in Hfl as (st2 & Hstep & [= <-]).
    unfold flow_step in Hstep.
    apply bind_Ok_inv in Hstep as (f & Hf & Hstep).
    apply bind_Ok_inv in Hstep as ([p fb] & _ & [= <-]). exact Hf. }
  unfold draw in Hrun.
  destruct (draw_loop (draw_series a (p_series st))
              (seq 0 (length (s_plottables (p_series st))))) as [evs0 r] eqn:Hloop.
  destruct r as [arts0|e]; [|discriminate].
  destruct (flow_styling (a_flow a) (a_final_bins a) (p_series st)
              (p_last_flow st)) as [marks|e] eqn:Hmarks; [|discriminate].
  injection Hrun as <- <-.
  exists st, (p_last_flow st), marks. rewrite Hloop.
  repeat split; try reflexivity; assumption.
Qed.

Lemma flow_markers_of_last_witness :
  match histplot (default_args flow_then_none [0; 1; 2; 3]) with
  | (evs, Ok arts) =>
      exists st f marks,
        prepare (default_args flow_then_none [0; 1; 2; 3]) = Ok st
        /\ flow_content (mkHist [1; 1; 1] None NoFlow [] []) = Ok f
        /\ p_last_flow st = f
        /\ flow_styling (Some "hint") [0; 1; 2; 3] (p_series st) f = Ok marks
        /\ evs = (draw_loop (draw_series (default_args flow_then_none [0; 1; 2; 3])
                                         (p_series st))
                            (seq 0 (length (s_plottables (p_series st))))).1
                 ++ marks
  | (_, Raise _) => False
  end.
Proof.
  destruct (histplot (default_args flow_then_none [0; 1; 2; 3]))
    as [evs [arts|e]] eqn:Hrun.
  - apply (flow_markers_of_last (default_args flow_then_none [0; 1; 2; 3])
             [three_bins] (mkHist [1; 1; 1] None NoFlow [] []) evs arts);
      [reflexivity|exact Hrun].
  - vm_compute in Hrun. discriminate.
Defined.

(** The underflow of 2 and overflow of 3 of the first histogram leave no
    marker: the call ends with the stairs of the second histogram. *)
Example markers_follow_last :
  last (histplot (default_args flow_then_none [0; 1; 2; 3])).1
  = Some (Stairs StepOutline (new_Plottable [1; 1; 1] [0; 1; 2; 3] None)
                 (Some 0) None ∅).
Proof. reflexivity. Qed.

(** ** Supplied errors and [w2] *)

Lemma length_concat_replicate {A} (k : nat) (row : list A) :
  length (concat (replicate k row)) = (k * length row)%nat.
Proof.
  induction k as [|k IH]; [reflexivity|].
  cbn. rewrite length_app, IH. lia.
Qed.

(** Cutting a concatenation of rows of one length gives the rows back. *)
Lemma split_rows_concat (c : nat) (rows : list (list Q)) (rest : list Q) :
  Forall (fun r => length r = c) rows ->
  split_rows (length rows) c (concat rows ++ rest) = rows.
Proof.
  induction 1 as [|r rows Hr _ IH]; [reflexivity|].
  cbn [length concat split_rows]. rewrite <- app_assoc.
  rewrite take_app_length' by (now symmetry).
  rewrite drop_app_length' by (now symmetry). now rewrite IH.
Qed.

Lemma split_rows_concat_all (c : nat) (rows : list (list Q)) :
  Forall (fun r => length r = c) rows ->
  split_rows (length rows) c (concat rows) = rows.
Proof.
  intros H. rewrite <- (app_nil_r (concat rows)). now apply split_rows_concat.
Qed.

Lemma concat_replicate_pairs {A} (k : nat) (row : list A) :
  concat (replicate (2 * k) row) = concat (replicate k (row ++ row)).
Proof.
  induction k as [|k IH]; [reflexivity|].
  replace (2 * S k)%nat with (S (S (2 * k))) by lia.
  cbn [replicate concat]. rewrite IH. now rewrite app_assoc.
Qed.

(** The two halves of a doubled row are the lower and the upper errors. *)
Lemma apply_errors_pair (lo hi : list Q) (p : Plottable) :
  length lo = length hi ->
  apply_errors (mkArray [2%nat; length lo] (lo ++ hi)) p
  = Ok (fixed_errors p lo hi).
Proof.
  intros Hlen. unfold apply_errors, subarrays. cbn [shape data size_of foldr].
  rewrite Nat.mul_1_r.
  assert (Hrows : split_rows 2 (length lo) (lo ++ hi) = [lo; hi]).
  { change 2%nat with (length [lo; hi]).
    replace (lo ++ hi) with (concat [lo; hi]) by (cbn; now rewrite app_nil_r).
    apply split_rows_concat_all. repeat constructor. now symmetry. }
  rewrite Hrows. reflexivity.
Qed.

Lemma attach_errors_rows (rows : list (list Q)) (n : nat) :
  Forall (fun r => length r = n) rows ->
  forall ps,
    length ps = length rows ->
    attach_errors ((fun r => mkArray [2%nat; n] (r ++ r)) <$> rows) ps
    = Ok (zip_with (fun p r => fixed_errors p r r) ps rows).
Proof.
  induction 1 as [|r rows Hr _ IH]; intros [|p ps] Hlen; try discriminate.
  - reflexivity.
  - cbn [fmap list_fmap attach_errors zip_with]. subst n.
    rewrite apply_errors_pair by reflexivity. rewrite bind_Ok.
    change (list_fmap (list Q) ndarray
              (fun r0 => mkArray [2%nat; length r] (r0 ++ r0)) rows)
      with ((fun r0 => mkArray [2%nat; length r] (r0 ++ r0)) <$> rows).
    rewrite IH by (cbn in Hlen; lia). reflexivity.
Qed.

Lemma subarrays_rows (c : nat) (rows : list (list Q)) :
  Forall (fun r => length r = (2 * c)%nat) rows ->
  subarrays (mkArray [length rows; 2%nat; c] (concat rows))
  = (fun r => mkArray [2%nat; c] r) <$> rows.
Proof.
  intros H. unfold subarrays. cbn [shape data size_of foldr].
  rewrite Nat.mul_1_r. now rewrite split_rows_concat_all.
Qed.

(** X4: a one-dimensional [yerr] of one entry per bin is taken for every
    series, as its lower and as its upper error. *)
Theorem yerr_1d_for_all_series (row : list Q) (ps : list Plottable)
    (final_bins : list Q) :
  exists a,
    resolve_yerr (YerrArray (mkArray [length row] row)) (length ps) final_bins
    = Ok (Some a)
    /\ shape a = [length ps; 2%nat; length row]
    /\ attach_errors (subarrays a) ps
       = Ok ((fun p => fixed_errors p row row) <$> ps).
Proof.
  set (n := length ps).
  assert (Htile : tile (mkArray [length row] row) (2 * n)
                  = mkArray [(length row * (2 * n))%nat]
                            (concat (replicate n (row ++ row)))).
  { unfold tile, shape_last. cbn [shape data last removelast default app
                                  size_of foldr split_rows fmap list_fmap concat].
    cbn [id]. rewrite firstn_all, app_nil_r. now rewrite concat_replicate_pairs. }
  unfold resolve_yerr, yerr_array. rewrite bind_Ok. unfold broadcast_yerr.
  change (ndim (mkArray [length row] row)) with 1%nat. cbn [Nat.eqb andb].
  rewrite Htile. unfold reshape, shape_last. cbn [shape data last default size_of foldr].
  unfold id. rewrite length_concat_replicate, length_app.
  replace (n * (2 * (length row * 1)))%nat
    with (n * (length row + length row))%nat by lia.
  rewrite Nat.eqb_refl, bind_Ok. eexists. split; [reflexivity|].
  split; [reflexivity|].
  assert (Hsub : subarrays (mkArray [n; 2%nat; length row]
                                    (concat (replicate n (row ++ row))))
                 = (fun r => mkArray [2%nat; length row] (r ++ r))
                     <$> replicate n row).
  { rewrite <- (length_replicate n (row ++ row)) at 1.
    rewrite subarrays_rows.
    - now rewrite !fmap_replicate.
    - apply Forall_replicate. rewrite length_app. lia. }
  cbn [shape data]. rewrite Hsub.
  rewrite (attach_errors_rows (replicate n row) (length row)).
  - f_equal. unfold n. clear. induction ps as [|p ps IH]; [reflexivity|].
    cbn. now rewrite IH.
  - now apply Forall_replicate.
  - now rewrite length_replicate.
Qed.

(** X5: a two-dimensional [yerr] with one row per series gives every
    series its own row, as its lower and as its upper error. *)
Theorem yerr_2d_row_per_series (n : nat) (rows : list (list Q))
    (ps : list Plottable) (final_bins : list Q) :
  Forall (fun r => length r = n) rows -> length ps = length rows ->
  exists a,
    resolve_yerr (YerrArray (array2d n rows)) (length ps) final_bins
    = Ok (Some a)
    /\ shape a = [length ps; 2%nat; n]
    /\ attach_errors (subarrays a) ps
       = Ok (zip_with (fun p r => fixed_errors p r r) ps rows).
Proof.
  intros Hrows Hlen.
  assert (Htile : tile (array2d n rows) 2
                  = mkArray [length rows; (n * 2)%nat]
                            (concat ((fun r => r ++ r) <$> rows))).
  { unfold tile, array2d, shape_last.
    cbn [shape data last removelast default app size_of foldr].
    unfold id. rewrite Nat.mul_1_r, (split_rows_concat_all n rows Hrows).
    f_equal. f_equal.
    apply list_fmap_ext. intros _ r _. cbn. now rewrite app_nil_r. }
  assert (Hdata : length (concat ((fun r => r ++ r) <$> rows))
                  = (length rows * (2 * (n * 1)))%nat).
  { clear Hlen Htile. induction Hrows as [|r rows Hr _ IH]; [reflexivity|].
    cbn. rewrite !length_app, IH, Hr. lia. }
  assert (Hres : reshape (tile (array2d n rows) 2) [length ps; 2%nat; n]
                 = Ok (mkArray [length rows; 2%nat; n]
                               (concat ((fun r => r ++ r) <$> rows)))).
  { rewrite Htile, Hlen. unfold reshape. cbn [shape data size_of foldr].
    now rewrite Hdata, Nat.eqb_refl. }
  assert (Hbroad : broadcast_yerr (array2d n rows) (length ps)
                   = Ok (mkArray [length rows; 2%nat; n]
                                 (concat ((fun r => r ++ r) <$> rows)))).
  { unfold broadcast_yerr.
    change (ndim (array2d n rows)) with 2%nat.
    change (shape_last (array2d n rows)) with n.
    change (shape_last2 (array2d n rows)) with (length rows).
    cbn [Nat.eqb andb]. destruct (Nat.eqb_spec (length ps) 1) as [H1|H1].
    - assert (Hr1 : length rows = 1%nat) by congruence.
      destruct (Nat.eqb_spec (length rows) 2); [lia|].
      destruct (Nat.eqb_spec (length rows) 1); [exact Hres|contradiction].
    - exact Hres. }
  unfold resolve_yerr, yerr_array. rewrite bind_Ok, Hbroad, bind_Ok.
  eexists. split; [reflexivity|]. cbn [shape]. split; [now rewrite Hlen|].
  rewrite <- (length_fmap (fun r => r ++ r) rows) at 1.
  rewrite subarrays_rows.
  - rewrite <- list_fmap_compose. now apply (attach_errors_rows rows n).
  - apply Forall_fmap. eapply Forall_impl; [exact Hrows|].
    cbn. intros r Hr. rewrite length_app. lia.
Qed.

Lemma yerr_2d_row_per_series_witness :
  exists a,
    resolve_yerr (YerrArray (array2d 2 [[1; 2]; [3; 4]]))
      (length [new_Plottable [5; 6] [0; 1; 2] None;
               new_Plottable [7; 8] [0; 1; 2] None]) [0; 1; 2]
    = Ok (Some a)
    /\ shape a = [length [new_Plottable [5; 6] [0; 1; 2] None;
                          new_Plottable [7; 8] [0; 1; 2] None]; 2%nat; 2%nat]
    /\ attach_errors (subarrays a)
         [new_Plottable [5; 6] [0; 1; 2] None;
          new_Plottable [7; 8] [0; 1; 2] None]
       = Ok (zip_with (fun p r => fixed_errors p r r)
               [new_Plottable [5; 6] [0; 1; 2] None;
                new_Plottable [7; 8] [0; 1; 2] None] [[1; 2]; [3; 4]]).
Proof.
  apply (yerr_2d_row_per_series 2 [[1; 2]; [3; 4]]
           [new_Plottable [5; 6] [0; 1; 2] None;
            new_Plottable [7; 8] [0; 1; 2] None] [0; 1; 2]).
  - repeat constructor.
  - reflexivity.
Defined.

(** X6: for a single series, a two-dimensional [yerr] of two rows is the
    pair of lower and upper errors. *)
Theorem yerr_two_rows_one_series (lo hi : list Q) (p : Plottable)
    (final_bins : list Q) :
  length lo = length hi ->
  exists a,
    resolve_yerr (YerrArray (array2d (length lo) [lo; hi])) 1 final_bins
    = Ok (Some a)
    /\ attach_errors (subarrays a) [p] = Ok [fixed_errors p lo hi].
Proof.
  intros Hlen. unfold resolve_yerr, yerr_array. rewrite bind_Ok.
  unfold broadcast_yerr.
  change (ndim (array2d (length lo) [lo; hi])) with 2%nat.
  change (shape_last (array2d (length lo) [lo; hi])) with (length lo).
  change (shape_last2 (array2d (length lo) [lo; hi])) with 2%nat.
  cbn [Nat.eqb andb]. unfold reshape, array2d.
  cbn [data shape size_of foldr concat length].
  rewrite app_nil_r, length_app, <- Hlen.
  replace (1 * (2 * (length lo * 1)))%nat with (length lo + length lo)%nat by lia.
  rewrite Nat.eqb_refl, bind_Ok. eexists. split; [reflexivity|].
  change [1%nat; 2%nat; length lo] with [length [lo ++ hi]; 2%nat; length lo].
  replace (lo ++ hi) with (concat [lo ++ hi]) at 2 by (cbn; now rewrite app_nil_r).
  rewrite subarrays_rows.
  - cbn [fmap list_fmap attach_errors]. rewrite apply_errors_pair by exact Hlen.
    reflexivity.
  - repeat constructor. rewrite length_app. lia.
Qed.

Lemma yerr_two_rows_one_series_witness :
  exists a,
    resolve_yerr (YerrArray (array2d (length [1; 2]) [[1; 2]; [3; 4]])) 1
                 [0; 1; 2]
    = Ok (Some a)
    /\ attach_errors (subarrays a) [new_Plottable [5; 6] [0; 1; 2] None]
       = Ok [fixed_errors (new_Plottable [5; 6] [0; 1; 2] None) [1; 2] [3; 4]].
Proof.
  apply (yerr_two_rows_one_series [1; 2] [3; 4]
           (new_Plottable [5; 6] [0; 1; 2] None) [0; 1; 2]).
  reflexivity.
Defined.

(** A filled array cut into rows: the rows have the row length, and put
    together they are the data. *)
Lemma split_rows_filled (c n : nat) :
  forall l, length l = (n * c)%nat ->
            Forall (fun r => length r = c) (split_rows n c l)
            /\ concat (split_rows n c l) = l
            /\ length (split_rows n c l) = n.
Proof.
  induction n as [|n IH]; intros l Hl.
  - cbn. destruct l; [auto|discriminate].
  - cbn [split_rows]. destruct (IH (drop c l)) as (Hall & Hcat & Hn).
    { rewrite length_drop. lia. }
    repeat split.
    + constructor; [|exact Hall]. rewrite length_take. cbn in Hl. lia.
    + cbn. rewrite Hcat. apply take_drop.
    + cbn. now rewrite Hn.
Qed.

Lemma length_tiled_rows (k c : nat) (rows : list (list Q)) :
  Forall (fun r => length r = c) rows ->
  length (concat ((fun row => concat (replicate k row)) <$> rows))
  = (k * (length rows * c))%nat.
Proof.
  induction 1 as [|x rows Hx _ IH]; [cbn; lia|].
  rewrite fmap_cons. cbn [concat length].
  rewrite length_app, length_concat_replicate, IH, Hx. lia.
Qed.

Lemma length_tile_2d (r c k : nat) (d : list Q) :
  length d = (r * c)%nat ->
  length (data (tile (mkArray [r; c] d) k)) = (k * (r * c))%nat.
Proof.
  intros Hd. unfold tile, shape_last.
  cbn [shape data last removelast default app size_of foldr]. unfold id.
  rewrite Nat.mul_1_r.
  destruct (split_rows_filled c r d Hd) as (Hall & _ & Hn).
  now rewrite (length_tiled_rows k c _ Hall), Hn.
Qed.

(** X7: a two-dimensional [yerr] of [r] rows is accepted for [n] series
    exactly when it has one row per series, or two rows for a single
    series; otherwise [histplot] raises a [ValueError]. *)
Theorem yerr_2d_accepted (r c n : nat) (d : list Q) (final_bins : list Q) :
  length d = (r * c)%nat -> (0 < c)%nat ->
  ((exists a, resolve_yerr (YerrArray (mkArray [r; c] d)) n final_bins
              = Ok (Some a))
   <-> r = n \/ (n = 1%nat /\ r = 2%nat))
  /\ (forall e, resolve_yerr (YerrArray (mkArray [r; c] d)) n final_bins
                = Raise e -> exists msg, e = ValueError msg).
Proof.
  intros Hd Hc.
  assert (Htile : reshape (tile (mkArray [r; c] d) 2) [n; 2%nat; c]
                  = if (n =? r)%nat
                    then Ok (mkArray [n; 2%nat; c] (data (tile (mkArray [r; c] d) 2)))
                    else Raise (ValueError "cannot reshape array")).
  { unfold reshape. rewrite (length_tile_2d r c 2 d Hd).
    cbn [size_of foldr].
    destruct (Nat.eqb_spec n r) as [->|Hne].
    - replace (r * (2 * (c * 1)))%nat with (2 * (r * c))%nat by lia.
      now rewrite Nat.eqb_refl.
    - destruct (Nat.eqb_spec (n * (2 * (c * 1))) (2 * (r * c))) as [Heq|_];
        [|reflexivity].
      exfalso. apply Hne. nia. }
  assert (Hplain : reshape (mkArray [r; c] d) [n; 2%nat; c]
                   = if (n * 2 =? r)%nat
                     then Ok (mkArray [n; 2%nat; c] d)
                     else Raise (ValueError "cannot reshape array")).
  { unfold reshape. cbn [data size_of foldr]. rewrite Hd.
    destruct (Nat.eqb_spec (n * 2) r) as [<-|Hne].
    - replace (n * (2 * (c * 1)))%nat with (n * 2 * c)%nat by lia.
      now rewrite Nat.eqb_refl.
    - destruct (Nat.eqb_spec (n * (2 * (c * 1))) (r * c)) as [Heq|_];
        [|reflexivity].
      exfalso. apply Hne. nia. }
  assert (Hrun : resolve_yerr (YerrArray (mkArray [r; c] d)) n final_bins
                 = a ← (if (n =? 1)%nat then
                          if (r =? 2)%nat then reshape (mkArray [r; c] d) [n; 2%nat; c]
                          else if (r =? 1)%nat
                               then reshape (tile (mkArray [r; c] d) 2) [n; 2%nat; c]
                               else Raise not_understood
                        else reshape (tile (mkArray [r; c] d) 2) [n; 2%nat; c]);
                   Ok (Some a)).
  { unfold resolve_yerr, yerr_array. rewrite bind_Ok. unfold broadcast_yerr.
    change (ndim (mkArray [r; c] d)) with 2%nat.
    change (shape_last (mkArray [r; c] d)) with c.
    change (shape_last2 (mkArray [r; c] d)) with r.
    cbn [Nat.eqb andb]. now destruct (n =? 1)%nat. }
  rewrite Hrun, Htile, Hplain. clear Hrun Htile Hplain.
  destruct (Nat.eqb_spec n 1) as [->|Hn1].
  - destruct (Nat.eqb_spec r 2) as [->|Hr2].
    + cbn. split; [|intros e [=]]. split; eauto.
    + destruct (Nat.eqb_spec r 1) as [->|Hr1].
      * cbn. split; [|intros e [=]]. split; eauto.
      * cbn. split.
        -- split; [intros [a [=]]|]. intros [H|[_ H]]; lia.
        -- intros e [= <-]. unfold not_understood. eauto.
  - destruct (Nat.eqb_spec n r) as [->|Hnr].
    + cbn. split; [|intros e [=]]. split; eauto.
    + cbn. split.
      * split; [intros [a [=]]|]. intros [H|[H _]]; lia.
      * intros e [= <-]. eauto.
Qed.

Lemma yerr_2d_accepted_witness :
  ((exists a, resolve_yerr (YerrArray (mkArray [3%nat; 2%nat] [1; 2; 3; 4; 5; 6]))
                           2 [0; 1; 2]
              = Ok (Some a))
   <-> 3%nat = 2%nat \/ (2%nat = 1%nat /\ 3%nat = 2%nat))
  /\ (forall e, resolve_yerr (YerrArray (mkArray [3%nat; 2%nat] [1; 2; 3; 4; 5; 6]))
                             2 [0; 1; 2]
                = Raise e -> exists msg, e = ValueError msg).
Proof.
  apply (yerr_2d_accepted 3 2 2 [1; 2; 3; 4; 5; 6] [0; 1; 2]).
  - reflexivity.
  - lia.
Defined.

(** X8: [w2] is reshaped to one row per series, whatever its own shape,
    and every series gets its row as variances and [w2method] as method;
    values, edges and explicit errors stay. *)
Theorem apply_w2_rows (rows : list (list Q)) (ps : list Plottable)
    (w2method : option string) (final_bins : list Q) (sh : list nat) :
  final_bins <> [] ->
  Forall (fun r => S (length r) = length final_bins) rows ->
  length rows = length ps ->
  apply_w2 (Some (mkArray sh (concat rows))) w2method final_bins ps
  = Ok (zip_with (with_w2 w2method) rows ps).
Proof.
  intros Hne Hrows Hlen. destruct final_bins as [|b bins]; [congruence|].
  assert (Hrows' : Forall (fun r => length r = length bins) rows).
  { eapply Forall_impl; [exact Hrows|]. cbn. intros r Hr. lia. }
  assert (Hsize : length (concat rows) = (length rows * length bins)%nat).
  { clear Hlen Hrows. induction Hrows' as [|r rows Hr _ IH]; [reflexivity|].
    cbn. rewrite length_app, IH, Hr. lia. }
  unfold apply_w2, reshape_w2, reshape. cbn [data size_of foldr].
  rewrite Hsize, <- Hlen, Nat.mul_1_r, Nat.eqb_refl, bind_Ok.
  unfold subarrays. cbn [shape data size_of foldr]. rewrite Nat.mul_1_r.
  rewrite (split_rows_concat_all _ rows Hrows'), length_fmap.
  rewrite Hlen, drop_all. rewrite (app_nil_r (zip_with _ _ _)). f_equal.
  clear Hlen.
  clear. revert ps. induction rows as [|r rows IH]; intros [|p ps]; try reflexivity.
  cbn. now rewrite <- IH.
Qed.

Lemma apply_w2_rows_witness :
  apply_w2 (Some (mkArray [4%nat] (concat [[1; 2]; [3; 4]]))) (Some "sqrt")
           [0; 1; 2]
           [new_Plottable [5; 6] [0; 1; 2] None;
            new_Plottable [7; 8] [0; 1; 2] None]
  = Ok (zip_with (with_w2 (Some "sqrt")) [[1; 2]; [3; 4]]
          [new_Plottable [5; 6] [0; 1; 2] None;
           new_Plottable [7; 8] [0; 1; 2] None]).
Proof.
  apply (apply_w2_rows [[1; 2]; [3; 4]]
           [new_Plottable [5; 6] [0; 1; 2] None;
            new_Plottable [7; 8] [0; 1; 2] None] (Some "sqrt") [0; 1; 2] [4%nat]).
  - discriminate.
  - repeat constructor.
  - reflexivity.
Defined.

(** ** Keyword arguments that do not fit *)

Lemma fan_out_inv (kwarg : string) (items : list pyval) :
  forall (i : nat) (chunked : list (gmap string pyval)),
    match fan_out i chunked kwarg items with
    | Ok c' => length c' = length chunked
               /\ (items = [] \/ (i + length items <= length chunked)%nat)
    | Raise e => e = IndexError
                 /\ (length chunked < i + length items)%nat
    end.
Proof.
  induction items as [|kw rest IH]; intros i chunked.
  - cbn. auto.
  - cbn [fan_out]. destruct (chunked !! i) as [d|] eqn:Hd.
    + apply lookup_lt_Some in Hd.
      specialize (IH (S i) (<[i := <[kwarg := kw]> d]> chunked)).
      destruct (fan_out (S i) _ kwarg rest) as [c'|e].
      * destruct IH as [Hl Hfit]. rewrite length_insert in Hl, Hfit.
        split; [exact Hl|]. right. cbn.
        destruct Hfit as [->|Hfit]; cbn; lia.
      * destruct IH as [He Hfit]. rewrite length_insert in Hfit.
        split; [exact He|]. cbn. lia.
    + apply lookup_ge_None in Hd. split; [reflexivity|]. cbn. lia.
Qed.

Lemma chunk_kwarg_inv (kwarg : string) (v : pyval)
    (chunked : list (gmap string pyval)) :
  match chunk_kwarg chunked kwarg v with
  | Ok c' => length c' = length chunked
             /\ forall items, iterable_not_string v = Some items ->
                              numeric_tuple v = false ->
                              (length items <= length chunked)%nat
  | Raise e => e = IndexError
               /\ exists items, iterable_not_string v = Some items
                                /\ numeric_tuple v = false
                                /\ (length chunked < length items)%nat
  end.
Proof.
  unfold chunk_kwarg.
  destruct (iterable_not_string v) as [items|] eqn:Hit.
  - assert (Hnum : is_tuple v && forallb is_int_or_float items = numeric_tuple v).
    { destruct v; try discriminate; cbn in Hit; injection Hit as <-; reflexivity. }
    rewrite Hnum. destruct (numeric_tuple v) eqn:Hn.
    + split; [apply length_fmap|]. intros ? _ [=].
    + pose proof (fan_out_inv kwarg items 0 chunked) as Hf.
      destruct (fan_out 0 chunked kwarg items) as [c'|e].
      * destruct Hf as [Hl Hfit]. split; [exact Hl|].
        intros ? [= <-] _. destruct Hfit as [->|Hfit]; cbn in *; lia.
      * destruct Hf as [He Hfit]. split; [exact He|].
        exists items. repeat split. cbn in Hfit. lia.
  - split; [apply length_fmap|]. intros ? [=].
Qed.

Lemma chunk_loop_inv (kwargs : list (string * pyval)) :
  forall chunked : list (gmap string pyval),
    match chunk_loop chunked kwargs with
    | Ok c' => length c' = length chunked /\ fits (length chunked) kwargs
    | Raise e => e = IndexError /\ ~ fits (length chunked) kwargs
    end.
Proof.
  induction kwargs as [|[k v] rest IH]; intros chunked.
  - cbn. split; [reflexivity|]. intros ? ? ? Hin. now apply elem_of_nil in Hin.
  - cbn [chunk_loop]. pose proof (chunk_kwarg_inv k v chunked) as Hk.
    destruct (chunk_kwarg chunked k v) as [c1|e].
    + destruct Hk as [Hl1 Hfit1]. rewrite bind_Ok.
      specialize (IH c1). destruct (chunk_loop c1 rest) as [c'|e].
      * destruct IH as [Hl Hfit]. rewrite Hl1 in Hl, Hfit.
        split; [exact Hl|].
        intros k' v' items [[= -> ->]|Hin]%elem_of_cons Hit Hn.
        -- now apply Hfit1.
        -- now apply (Hfit k' v' items).
      * destruct IH as [He Hnot]. rewrite Hl1 in Hnot. split; [exact He|].
        intros Hfit. apply Hnot. intros k' v' items Hin.
        apply (Hfit k' v' items). now apply list_elem_of_further.
    + destruct Hk as [He (items & Hit & Hn & Hlen)]. split; [exact He|].
      intros Hfit. specialize (Hfit k v items (list_elem_of_here _ _) Hit Hn). lia.
Qed.

(** X9: the keyword arguments are fanned out without error exactly when
    no list among them has more items than there are series; otherwise the
    error is an [IndexError], and [histplot] stops before drawing. *)
Theorem chunk_kwargs_fits (n : nat) (kwargs : list (string * pyval)) :
  ((exists chunked, chunk_kwargs n kwargs = Ok chunked) <-> fits n kwargs)
  /\ (forall e, chunk_kwargs n kwargs = Raise e -> e = IndexError).
Proof.
  unfold chunk_kwargs. pose proof (chunk_loop_inv kwargs (replicate n ∅)) as H.
  rewrite length_replicate in H.
  destruct (chunk_loop (replicate n ∅) kwargs) as [c|e].
  - destruct H as [_ Hfit]. split; [|intros ? [=]]. split; eauto.
  - destruct H as [He Hnot]. split.
    + split; [intros [c [=]]|]. intros Hfit. contradiction.
    + now intros ? [= <-].
Qed.

(** Three colours for two series. *)
Example too_many_colours :
  chunk_kwargs 2 [("color", PList [PStr "r"; PStr "g"; PStr "b"])]
  = Raise IndexError.
Proof. reflexivity. Qed.

(** ** Sorting by an explicit list of indices *)

Lemma py_item_in_range {A} (l : list A) (ix : Z) :
  in_range (length l) ix ->
  exists x, l !! py_pos (length l) ix = Some x /\ py_item l ix = Ok x.
Proof.
  unfold in_range, py_item, py_pos. intros Hix.
  destruct (Z.ltb_spec ix 0) as [Hneg|Hpos].
  - destruct (Z.ltb_spec (Z.of_nat (length l) + ix) 0) as [H|_]; [lia|].
    destruct (lookup_lt_is_Some_2 l (Z.to_nat (Z.of_nat (length l) + ix)))
      as [x Hx]; [lia|].
    exists x. now rewrite Hx.
  - destruct (Z.ltb_spec ix 0) as [H|_]; [lia|].
    destruct (lookup_lt_is_Some_2 l (Z.to_nat ix)) as [x Hx]; [lia|].
    exists x. now rewrite Hx.
Qed.

Lemma take_order_in_range {A} (l : list A) (order : list Z) :
  Forall (in_range (length l)) order ->
  take_order l order = Ok (pick (py_pos (length l) <$> order) l).
Proof.
  unfold pick. induction 1 as [|ix t Hix _ IH]; [reflexivity|].
  destruct (py_item_in_range l ix Hix) as (x & Hx & Hitem).
  cbn [take_order fmap list_fmap]. rewrite Hitem, bind_Ok, IH, bind_Ok.
  rewrite omap_cons, Hx. reflexivity.
Qed.

(** X10: with a list of indices as [sort], series [i] of the result is the
    series the [i]-th index names, negative indices counting from the end;
    plottables, keyword arguments and labels are taken alike.  A list of
    another length than the number of series is turned down with a
    [ValueError] that names both lengths. *)
Theorem sort_by_indices (ix : list Z) (label : label_arg) (s : Series) :
  length (s_kwargs s) = length (s_plottables s) ->
  length (s_labels s) = length (s_plottables s) ->
  (length ix = length (s_plottables s) ->
   Forall (in_range (length (s_plottables s))) ix ->
   sort_series (SortIndex ix) label s
   = Ok (reorder (py_pos (length (s_plottables s)) <$> ix) s))
  /\ (length ix <> length (s_plottables s) ->
      sort_series (SortIndex ix) label s
      = Raise (ValueError
          ("Sort indexing array is of the wrong size - "
           ++ pretty (length ix) ++ ", " ++ pretty (length (s_plottables s))
           ++ " expected.")%string)).
Proof.
  intros Hkw Hlab. unfold sort_series, sort_order. split.
  - intros Hlen Hall. rewrite Hlen, Nat.eqb_refl, bind_Ok.
    rewrite (take_order_in_range (s_plottables s)) by exact Hall.
    rewrite (take_order_in_range (s_kwargs s)) by (now rewrite Hkw).
    rewrite (take_order_in_range (s_labels s)) by (now rewrite Hlab).
    rewrite !bind_Ok, Hkw, Hlab. reflexivity.
  - intros Hlen. apply Nat.eqb_neq in Hlen. now rewrite Hlen.
Qed.

Lemma sort_by_indices_witness :
  let p (v : list Q) := new_Plottable v [0; 1; 2] None in
  let s := mkSeries [p [5; 5]; p [1; 2]; p [3; 3]] [∅; ∅; ∅]
                    [Some "b"; Some "c"; Some "a"] in
  (length [-1; 0; 1]%Z = length (s_plottables s) ->
   Forall (in_range (length (s_plottables s))) [-1; 0; 1]%Z ->
   sort_series (SortIndex [-1; 0; 1]%Z) LabelNone s
   = Ok (reorder (py_pos (length (s_plottables s)) <$> [-1; 0; 1]%Z) s))
  /\ (length [-1; 0; 1]%Z <> length (s_plottables s) ->
      sort_series (SortIndex [-1; 0; 1]%Z) LabelNone s
      = Raise (ValueError
          ("Sort indexing array is of the wrong size - "
           ++ pretty (length [-1; 0; 1]%Z) ++ ", "
           ++ pretty (length (s_plottables s)) ++ " expected.")%string)).
Proof.
  intros p s. apply (sort_by_indices [-1; 0; 1]%Z LabelNone s); reflexivity.
Defined.

(** Two indices for three series. *)
Example sort_by_too_few_indices :
  let p (v : list Q) := new_Plottable v [0; 1; 2] None in
  sort_series (SortIndex [1; 0]%Z) LabelNone
    (mkSeries [p [5; 5]; p [1; 2]; p [3; 3]] [∅; ∅; ∅]
              [Some "b"; Some "c"; Some "a"])
  = Raise (ValueError
             "Sort indexing array is of the wrong size - 2, 3 expected.").
Proof. reflexivity. Qed.

Example sort_by_indices_example :
  let p (v : list Q) := new_Plottable v [0; 1; 2] None in
  sort_series (SortIndex [-1; 0; 1]%Z) LabelNone
    (mkSeries [p [5; 5]; p [1; 2]; p [3; 3]] [∅; ∅; ∅]
              [Some "b"; Some "c"; Some "a"])
  = Ok (mkSeries [p [3; 3]; p [5; 5]; p [1; 2]] [∅; ∅; ∅]
                 [Some "a"; Some "b"; Some "c"]).
Proof. reflexivity. Qed.

(** ** One artist and one label per series *)

Lemma flow_loop_length (flow : option string) (final_bins : list Q)
    (hists : list Hist) :
  forall st fl,
    flow_loop flow final_bins st hists = Ok fl ->
    length (fl_plottables fl) = (length (fl_plottables st) + length hists)%nat.
Proof.
  induction hists as [|h hs IH]; intros st fl Hrun.
  - injection Hrun as <-. cbn. lia.
  - cbn [flow_loop] in Hrun. apply bind_Ok_inv in Hrun as (st1 & Hstep & Hrun).
    unfold flow_step in Hstep.
    apply bind_Ok_inv in Hstep as (f & _ & Hstep).
    apply bind_Ok_inv in Hstep as ([p fb] & _ & [= <-]).
    rewrite (IH _ _ Hrun). cbn. rewrite length_app. cbn. lia.
Qed.

Lemma apply_w2_length (w2 : option ndarray) (w2method : option string)
    (final_bins : list Q) (ps ps' : list Plottable) :
  apply_w2 w2 w2method final_bins ps = Ok ps' -> length ps' = length ps.
Proof.
  unfold apply_w2. destruct w2 as [a|]; [|now intros [= <-]].
  intros (a' & _ & [= <-])%bind_Ok_inv.
  rewrite length_app, length_zip_with, length_drop. lia.
Qed.

Lemma attach_errors_length (yerrs : list ndarray) :
  forall ps ps', attach_errors yerrs ps = Ok ps' -> length ps' = length ps.
Proof.
  induction yerrs as [|y yerrs IH]; intros ps ps' Hrun.
  - destruct ps; now injection Hrun as <-.
  - destruct ps as [|p ps]; [now injection Hrun as <-|].
    cbn [attach_errors] in Hrun.
    apply bind_Ok_inv in Hrun as (p' & _ & Hrun).
    apply bind_Ok_inv in Hrun as (rest & Hrest & [= <-]).
    cbn. now rewrite (IH _ _ Hrest).
Qed.

Lemma take_order_length {A} (l : list A) (order : list Z) :
  forall l', take_order l order = Ok l' -> length l' = length order.
Proof.
  induction order as [|ix t IH]; intros l' Hrun.
  - now injection Hrun as <-.
  - cbn [take_order] in Hrun.
    apply bind_Ok_inv in Hrun as (x & _ & Hrun).
    apply bind_Ok_inv in Hrun as (xs & Hxs & [= <-]).
    cbn. now rewrite (IH _ Hxs).
Qed.

Lemma mapR_length {A B} (f : A -> result B) (l : list A) :
  forall l', mapR f l = Ok l' -> length l' = length l.
Proof.
  induction l as [|x t IH]; intros l' Hrun.
  - now injection Hrun as <-.
  - cbn [mapR] in Hrun.
    apply bind_Ok_inv in Hrun as (y & _ & Hrun).
    apply bind_Ok_inv in Hrun as (ys & Hys & [= <-]).
    cbn. now rewrite (IH _ Hys).
Qed.

Lemma normalise_length (density stack : bool) (norm : option Q)
    (final_bins : list Q) (ps ps' : list Plottable) :
  normalise density stack norm final_bins ps = Ok ps' -> length ps' = length ps.
Proof.
  unfold normalise.
  destruct (density && bool_decide (is_Some norm)); [discriminate|].
  destruct density.
  - destruct stack.
    + unfold stack_density. intros (total & _ & H)%bind_Ok_inv.
      now apply mapR_length in H.
    + apply mapR_length.
  - destruct norm; intros [= <-]; [apply length_fmap|reflexivity].
Qed.

Lemma do_stack_length (stack : bool) (ps : list Plottable) :
  length (do_stack stack ps) = length ps.
Proof.
  unfold do_stack. destruct (stack && (1 <? length ps)%nat); [|reflexivity].
  destruct ps as [|p ps]; [reflexivity|]. cbn. f_equal.
  generalize (values p). induction ps as [|q ps IH]; intros base; [reflexivity|].
  cbn. now rewrite IH.
Qed.

Lemma length_argsort {K} (leb : K -> K -> bool) (keys : list K) :
  length (argsort leb keys) = length keys.
Proof.
  unfold argsort. rewrite length_fmap.
  assert (Hins : forall x l, length (insert_key leb x l) = S (length l)).
  { intros x l. induction l as [|y t IH]; [reflexivity|].
    cbn. destruct (leb x.1 y.1); cbn; [reflexivity|]. now rewrite IH. }
  assert (Hsort : forall l, length (sort_keys leb l) = length l).
  { unfold sort_keys. induction l as [|x t IH]; [reflexivity|].
    cbn [foldr]. rewrite Hins, IH. reflexivity. }
  rewrite Hsort, length_zip_with, length_seq. lia.
Qed.

(** A sort that keeps every series leaves as many as it found. *)
Lemma sort_series_length (sort : sort_arg) (label : label_arg) (s s' : Series) :
  sort_keeps_all sort label (length (s_plottables s)) ->
  sort_series sort label s = Ok s' ->
  length (s_plottables s') = length (s_plottables s).
Proof.
  intros Hkeep. unfold sort_series. intros (order & Hord & Hrun)%bind_Ok_inv.
  destruct order as [order|]; [|now injection Hrun as <-].
  apply bind_Ok_inv in Hrun as (ps & Hps & Hrun).
  apply bind_Ok_inv in Hrun as (kw & _ & Hrun).
  apply bind_Ok_inv in Hrun as (ls & _ & [= <-]). cbn [s_plottables].
  rewrite (take_order_length _ _ _ Hps). clear Hps.
  destruct sort as [|str|ix|]; unfold sort_order in Hord; try discriminate.
  - cbv zeta in Hord. unfold sort_keeps_all in Hkeep.
    destruct (in_strings (default EmptyString (split "_"%char str !! 0%nat))
                ["l"; "label"]) eqn:Hl.
    + destruct (Hkeep eq_refl) as (l & -> & Hlen). injection Hord as <-.
      rewrite length_fmap. cbn [argsort_label].
      destruct (_ && _); rewrite ?length_rev, length_argsort; exact Hlen.
    + destruct (in_strings _ ["y"; "yield"]); [|discriminate].
      injection Hord as <-. rewrite length_fmap.
      destruct (_ && _); rewrite ?length_rev, length_argsort; apply length_fmap.
  - destruct (Nat.eqb_spec (length ix) (length (s_plottables s))) as [Hlen|];
      [|discriminate].
    now injection Hord as <-.
Qed.

Lemma prepare_series_length (a : HistplotArgs) (ps : list Plottable)
    (s : Series) :
  sort_keeps_all (a_sort a) (a_label a) (length ps) ->
  prepare_series a ps = Ok s ->
  length (s_plottables s) = length ps.
Proof.
  intros Hkeep. unfold prepare_series.
  intros (ps1 & H1 & Hrun)%bind_Ok_inv. apply apply_w2_length in H1.
  apply bind_Ok_inv in Hrun as (_ & _ & Hrun). cbv zeta in Hrun.
  apply bind_Ok_inv in Hrun as (chunked & _ & Hrun).
  apply bind_Ok_inv in Hrun as (yerr & _ & Hrun).
  apply bind_Ok_inv in Hrun as (ps2 & H2 & Hrun).
  assert (Hps2 : length ps2 = length ps1).
  { destruct yerr; [now apply attach_errors_length in H2|now injection H2 as <-]. }
  apply bind_Ok_inv in Hrun as (s1 & Hsort & Hrun).
  apply sort_series_length in Hsort; [|cbn; now rewrite Hps2, H1].
  cbn in Hsort.
  apply bind_Ok_inv in Hrun as (ps3 & Hnorm & [= <-]).
  apply normalise_length in Hnorm. cbn.
  rewrite do_stack_length. congruence.
Qed.

Lemma draw_loop_length (f : nat -> result (list draw_event * artists))
    (ixs : list nat) :
  forall evs arts, draw_loop f ixs = (evs, Ok arts) -> length arts = length ixs.
Proof.
  induction ixs as [|i ixs IH]; intros evs arts Hrun.
  - now injection Hrun as _ <-.
  - cbn [draw_loop] in Hrun. destruct (f i) as [[ev art]|e]; [|discriminate].
    destruct (draw_loop f ixs) as [evs' r] eqn:Hloop.
    destruct r as [arts'|e]; [|discriminate].
    injection Hrun as _ <-. cbn. now rewrite (IH _ _ eq_refl).
Qed.

(** X11: a call of [histplot] that returns, returns one bundle of artists
    per histogram, provided the sort keeps every series. *)
Theorem histplot_one_artist_each (a : HistplotArgs) (evs : list draw_event)
    (arts : list artists) :
  sort_keeps_all (a_sort a) (a_label a) (length (a_hists a)) ->
  histplot a = (evs, Ok arts) ->
  length arts = length (a_hists a).
Proof.
  intros Hkeep Hrun. unfold histplot in Hrun.
  destruct (prepare a) as [st|e] eqn:Hprep; [|discriminate].
  unfold prepare in Hprep.
  apply bind_Ok_inv in Hprep as (_ & _ & Hprep).
  apply bind_Ok_inv in Hprep as (_ & _ & Hprep).
  apply bind_Ok_inv in Hprep as (_ & _ & Hprep).
  apply bind_Ok_inv in Hprep as (fl & Hfl & Hprep).
  apply bind_Ok_inv in Hprep as (s & Hs & [= <-]).
  apply flow_loop_length in Hfl. cbn in Hfl.
  apply prepare_series_length in Hs; [|now rewrite Hfl].
  unfold draw in Hrun. cbn [p_series] in Hrun.
  destruct (draw_loop (draw_series a s) (seq 0 (length (s_plottables s))))
    as [evs0 r] eqn:Hloop.
  destruct r as [arts0|e]; [|discriminate].
  apply draw_loop_length in Hloop. rewrite length_seq in Hloop.
  destruct (flow_styling _ _ _ _); [|discriminate].
  injection Hrun as _ <-. congruence.
Qed.

Lemma histplot_one_artist_each_witness :
  match histplot (default_args flow_then_none [0; 1; 2; 3]) with
  | (evs, Ok arts) => length arts = length flow_then_none
  | (_, Raise _) => False
  end.
Proof.
  destruct (histplot (default_args flow_then_none [0; 1; 2; 3]))
    as [evs [arts|e]] eqn:Hrun.
  - apply (histplot_one_artist_each (default_args flow_then_none [0; 1; 2; 3])
             evs arts); [exact I|exact Hrun].
  - vm_compute in Hrun. discriminate.
Defined.

(** Sorting by label with a single label for three series keeps only the
    first of them. *)
Example label_sort_without_list :
  let p (v : list Q) := new_Plottable v [0; 1; 2] None in
  sort_series (SortStr "label") (LabelStr "MC")
    (mkSeries [p [5; 5]; p [1; 2]; p [3; 3]] [∅; ∅; ∅]
              [Some "MC"; Some "MC"; Some "MC"])
  = Ok (mkSeries [p [5; 5]] [∅] [Some "MC"]).
Proof. reflexivity. Qed.

Lemma draw_series_label (a : HistplotArgs) (s : Series) (i : nat)
    (ev : list draw_event) (art : artists) :
  draw_series a s i = Ok (ev, art) ->
  exists lab, s_labels s !! i = Some lab
              /\ omap event_label ev = omap id [lab].
Proof.
  unfold draw_series.
  intros (p & _ & Hrun)%bind_Ok_inv.
  apply bind_Ok_inv in Hrun as (kw & _ & Hrun).
  apply bind_Ok_inv in Hrun as (lab & Hlab & Hrun).
  unfold lookup_item in Hlab.
  destruct (s_labels s !! i) as [lab'|]; [|discriminate].
  injection Hlab as ->. exists lab. split; [reflexivity|].
  destruct (String.eqb (a_histtype a) "step").
  { injection Hrun as <- _. destruct (do_errors a p); now destruct lab. }
  destruct (String.eqb (a_histtype a) "fill").
  { injection Hrun as <- _. now destruct lab. }
  destruct (String.eqb (a_histtype a) "band").
  { injection Hrun as <- _. now destruct lab. }
  destruct (String.eqb (a_histtype a) "errorbar"); [|discriminate].
  injection Hrun as <- _. now destruct lab.
Qed.

Lemma draw_loop_labels (a : HistplotArgs) (s : Series) (ixs : list nat) :
  forall evs arts,
    draw_loop (draw_series a s) ixs = (evs, Ok arts) ->
    exists labs,
      Forall2 (fun i lab => s_labels s !! i = Some lab) ixs labs
      /\ omap event_label evs = omap id labs.
Proof.
  induction ixs as [|i ixs IH]; intros evs arts Hrun.
  - injection Hrun as <- _. exists []. split; [constructor|reflexivity].
  - cbn [draw_loop] in Hrun.
    destruct (draw_series a s i) as [[ev art]|e] eqn:Hi; [|discriminate].
    destruct (draw_loop (draw_series a s) ixs) as [evs' r] eqn:Hloop.
    destruct r as [arts'|e]; [|discriminate].
    injection Hrun as <- _.
    destruct (IH _ _ eq_refl) as (labs & Hall & Hlabs).
    destruct (draw_series_label _ _ _ _ _ Hi) as (lab & Hlab & Hev).
    exists (lab :: labs). split; [now constructor|].
    rewrite omap_app, Hev, Hlabs. now destruct lab.
Qed.

Lemma lookups_take {A} (l : list A) (n : nat) :
  forall k labs,
    Forall2 (fun i lab => l !! i = Some lab) (seq k n) labs ->
    labs = take n (drop k l).
Proof.
  induction n as [|n IH]; intros k labs Hall.
  - inversion Hall. reflexivity.
  - cbn [seq] in Hall. inversion Hall as [|i lab ixs labs' Hlab Hrest]; subst.
    apply IH in Hrest. subst labs'.
    rewrite (drop_S _ _ _ Hlab). reflexivity.
Qed.

Lemma flow_styling_no_label (flow : option string) (final_bins : list Q)
    (s : Series) (f : FlowContent) (evs : list draw_event) :
  flow_styling flow final_bins s f = Ok evs -> omap event_label evs = [].
Proof.
  assert (Hhint : forall b edge m l,
            hint_marker b edge final_bins m = Ok l -> omap event_label l = []).
  { intros b edge m l. unfold hint_marker. destruct b; [|now intros [= <-]].
    now intros (x & _ & [= <-])%bind_Ok_inv. }
  assert (Hshow : forall b from to l,
            show_marker b from to = Ok l -> omap event_label l = []).
  { intros b from to l. unfold show_marker. destruct b; [|now intros [= <-]].
    intros (x & _ & (y & _ & [= <-])%bind_Ok_inv)%bind_Ok_inv. reflexivity. }
  unfold flow_styling. destruct (flow_is flow "hint").
  { intros (lo & Hlo & (hi & Hhi & [= <-])%bind_Ok_inv)%bind_Ok_inv.
    now rewrite omap_app, (Hhint _ _ _ _ Hlo), (Hhint _ _ _ _ Hhi). }
  destruct (_ && _); [|now intros [= <-]].
  intros (p & _ & (lo & Hlo & (hi & Hhi & [= <-])%bind_Ok_inv)%bind_Ok_inv)%bind_Ok_inv.
  now rewrite omap_app, (Hshow _ _ _ _ Hlo), (Hshow _ _ _ _ Hhi).
Qed.

(** X12: without sorting, the labels on the drawing calls of a call of
    [histplot] that returns are the labels of the series, each once and in
    the order of the histograms: a label of [None] is on no call, a list of
    labels longer than the histograms loses its tail, and the markers of
    the flow bins carry no label. *)
Theorem histplot_labels_once (a : HistplotArgs) (evs : list draw_event)
    (arts : list artists) :
  a_sort a = SortNone ->
  histplot a = (evs, Ok arts) ->
  omap event_label evs
  = omap id (take (length (a_hists a))
                  (make_labels (a_label a) (length (a_hists a)))).
Proof.
  intros Hsort Hrun. unfold histplot in Hrun.
  destruct (prepare a) as [st|e] eqn:Hprep; [|discriminate].
  unfold prepare in Hprep.
  apply bind_Ok_inv in Hprep as (_ & _ & Hprep).
  apply bind_Ok_inv in Hprep as (_ & _ & Hprep).
  apply bind_Ok_inv in Hprep as (_ & _ & Hprep).
  apply bind_Ok_inv in Hprep as (fl & Hfl & Hprep).
  apply bind_Ok_inv in Hprep as (s & Hs & [= <-]).
  apply flow_loop_length in Hfl. cbn in Hfl.
  assert (Hlen := Hs).
  apply prepare_series_length in Hlen; [|now rewrite Hsort].
  assert (Hlabels : s_labels s
                    = make_labels (a_label a) (length (a_hists a))).
  { unfold prepare_series in Hs. rewrite Hsort in Hs.
    apply bind_Ok_inv in Hs as (ps1 & H1%apply_w2_length & Hs).
    apply bind_Ok_inv in Hs as (_ & _ & Hs). cbv zeta in Hs.
    apply bind_Ok_inv in Hs as (chunked & _ & Hs).
    apply bind_Ok_inv in Hs as (yerr & _ & Hs).
    apply bind_Ok_inv in Hs as (ps2 & _ & Hs).
    apply bind_Ok_inv in Hs as (s1 & [= <-] & Hs).
    apply bind_Ok_inv in Hs as (ps3 & _ & [= <-]). cbn.
    now rewrite H1, Hfl. }
  unfold draw in Hrun. cbn [p_series p_last_flow] in Hrun.
  destruct (draw_loop (draw_series a s) (seq 0 (length (s_plottables s))))
    as [evs0 r] eqn:Hloop.
  destruct r as [arts0|e]; [|discriminate].
  destruct (flow_styling _ _ _ _) as [evs1|e] eqn:Hflow; [|discriminate].
  injection Hrun as <- _.
  apply draw_loop_labels in Hloop as (labs & Hall & Hlabs).
  apply lookups_take in Hall. rewrite drop_0 in Hall.
  rewrite omap_app, Hlabs, (flow_styling_no_label _ _ _ _ _ Hflow), app_nil_r.
  rewrite Hall, Hlabels, Hlen, Hfl. reflexivity.
Qed.

Lemma histplot_labels_once_witness :
  let a := mkArgs flow_then_none [0; 1; 2; 3] YerrNone None None
                  false false None "step" YerrNone
                  (LabelList ["a"; "b"; "c"]) SortNone false AxNone
                  (Some "hint") [] in
  match histplot a with
  | (evs, Ok arts) => omap event_label evs = ["a"; "b"]
  | (_, Raise _) => False
  end.
Proof.
  intros a. destruct (histplot a) as [evs [arts|e]] eqn:Hrun.
  - apply (histplot_labels_once a evs arts); [reflexivity|exact Hrun].
  - vm_compute in Hrun. discriminate.
Defined.

(** ** Styling defaults *)

Lemma soft_update_loop {V} (not_default : list string)
    (mods : list (string * V)) :
  forall m : gmap string V,
    foldl (fun m kv =>
             if bool_decide (m !! kv.1 = None)
                && (true && negb (rc_modded not_default kv.1))
             then <[kv.1 := kv.2]> m
             else m) m mods
    = m ∪ standing not_default mods.
Proof.
  unfold standing.
  induction mods as [|[k v] mods IH]; intros m.
  - cbn. rewrite map_filter_empty. now rewrite (right_id_L ∅ (∪)).
  - cbn [foldl fst snd]. rewrite IH, list_to_map_cons. clear IH.
    apply map_eq. intros j.
    destruct (rc_modded not_default k) eqn:Hk; cbn [negb andb].
    + rewrite andb_false_r.
      rewrite map_filter_insert_False by (cbn; congruence).
      rewrite map_filter_delete.
      rewrite !lookup_union.
      destruct (decide (j = k)) as [->|Hj].
      * rewrite lookup_delete_eq, map_lookup_filter.
        destruct (list_to_map mods !! k) as [w|]; cbn; [|reflexivity].
        rewrite option_guard_False by (cbn; congruence). reflexivity.
      * now rewrite lookup_delete_ne.
    + rewrite andb_true_r.
      rewrite map_filter_insert_True by (cbn; congruence).
      rewrite !lookup_union.
      destruct (m !! k) as [w|] eqn:Hm.
      * rewrite bool_decide_eq_false_2 by congruence.
        destruct (decide (j = k)) as [->|Hj].
        -- rewrite Hm, lookup_insert_eq.
           destruct (filter _ _ !! k); reflexivity.
        -- now rewrite lookup_insert_ne.
      * rewrite bool_decide_eq_true_2 by reflexivity.
        destruct (decide (j = k)) as [->|Hj].
        -- rewrite !lookup_insert_eq, Hm.
           destruct (filter _ _ !! k); reflexivity.
        -- now rewrite !lookup_insert_ne.
Qed.

Lemma soft_update_loop_keeps {V} (not_default : list string)
    (mods : list (string * V)) (rc : bool) (j : string) (v : V) :
  forall m : gmap string V,
    m !! j = Some v ->
    foldl (fun m kv =>
             if bool_decide (m !! kv.1 = None)
                && (rc && negb (rc_modded not_default kv.1))
             then <[kv.1 := kv.2]> m
             else m) m mods !! j = Some v.
Proof.
  induction mods as [|[k w] mods IH]; intros m Hj; [exact Hj|].
  cbn [foldl fst snd]. apply IH.
  destruct (bool_decide (m !! k = None)) eqn:Hk; cbn [andb]; [|exact Hj].
  destruct (rc && negb (rc_modded not_default k)); [|exact Hj].
  apply bool_decide_eq_true in Hk.
  rewrite lookup_insert_ne; [exact Hj|]. intros ->. congruence.
Qed.

(** X13: [soft_update_kwargs] returns the user's keywords under their long
    names, joined by those defaults whose key the user did not give and the
    rc state has not modified; with [rc=False] no default is added. *)
Theorem soft_update_kwargs_union {V} (not_default : list string)
    (kwargs mods : list (string * V)) (rc : bool) :
  soft_update_kwargs not_default kwargs mods rc
  = rename kwargs ∪ (if rc then standing not_default mods else ∅).
Proof.
  unfold soft_update_kwargs. destruct rc.
  - apply soft_update_loop.
  - rewrite (right_id_L ∅ (∪)). generalize (rename kwargs).
    induction mods as [|kv mods IH]; intros m; [reflexivity|].
    cbn [foldl]. rewrite andb_false_r. apply IH.
Qed.

Lemma in_strings_elem_of (s : string) (l : list string) :
  in_strings s l = true <-> s ∈ l.
Proof.
  unfold in_strings. rewrite existsb_exists. split.
  - intros (x & Hx & ->%String.eqb_eq). now apply list_elem_of_In.
  - intros Hs. exists s. split; [now apply list_elem_of_In|apply String.eqb_refl].
Qed.

(** X14: a default is held back by the rc state exactly when its own key is
    among the modified rc keys, or it is [linewidth] and one of the three
    line widths the code respects is modified, or it is [linestyle] and
    [lines.linestyle] is. *)
Theorem rc_modded_keys (not_default : list string) (key : string) :
  rc_modded not_default key = true
  <-> key ∈ not_default
      \/ (key = "linewidth"
          /\ ("hatch.linewidth" ∈ not_default
              \/ "lines.linewidth" ∈ not_default
              \/ "patch.linewidth" ∈ not_default))
      \/ (key = "linestyle" /\ "lines.linestyle" ∈ not_default).
Proof.
  unfold rc_modded. rewrite orb_true_iff, !in_strings_elem_of.
  rewrite list_elem_of_fmap.
  split.
  - intros [H|(k & -> & Hk)]; [now left|right].
    apply list_elem_of_filter in Hk as [Hr Hk].
    apply in_strings_elem_of in Hr. unfold respect in Hr.
    repeat (apply elem_of_cons in Hr as [->|Hr]); [| | | |inversion Hr].
    + left. split; [reflexivity|now left].
    + left. split; [reflexivity|right; now left].
    + left. split; [reflexivity|right; now right].
    + right. now split.
  - intros [H|[[-> H]|[-> H]]]; [now left| |]; right.
    + destruct H as [H|[H|H]];
        [exists "hatch.linewidth"|exists "lines.linewidth"
        |exists "patch.linewidth"];
        (split; [reflexivity|]); apply list_elem_of_filter; now split.
    + exists "lines.linestyle". split; [reflexivity|].
      apply list_elem_of_filter. now split.
Qed.

Lemma alias_long (k : string) : alias k <> "ls" /\ alias k <> "lw".
Proof.
  unfold alias. destruct (String.eqb_spec k "ls"); [now split|].
  destruct (String.eqb_spec k "lw"); now split.
Qed.

Lemma rename_loop_other {V} (kwargs : list (string * V)) (j : string) :
  forall m : gmap string V,
    j ∉ alias <$> kwargs.*1 ->
    foldl (fun m kv => <[alias kv.1 := kv.2]> m) m kwargs !! j = m !! j.
Proof.
  induction kwargs as [|[k v] t IH]; intros m Hj; [reflexivity|].
  cbn [foldl fst snd]. rewrite !fmap_cons in Hj. cbn [fst] in Hj.
  apply not_elem_of_cons in Hj as [Hne Hj].
  rewrite IH by exact Hj. now rewrite lookup_insert_ne.
Qed.

Lemma rename_loop_given {V} (kwargs : list (string * V)) (k : string) (v : V) :
  forall m : gmap string V,
    NoDup (alias <$> kwargs.*1) ->
    (k, v) ∈ kwargs ->
    foldl (fun m kv => <[alias kv.1 := kv.2]> m) m kwargs !! alias k = Some v.
Proof.
  induction kwargs as [|[k' v'] t IH]; intros m Hnd Hin; [inversion Hin|].
  rewrite !fmap_cons in Hnd. cbn [fst] in Hnd.
  apply NoDup_cons in Hnd as [Hnew Hnd].
  cbn [foldl fst snd].
  apply elem_of_cons in Hin as [[= <- <-]|Hin].
  - rewrite rename_loop_other by exact Hnew. apply lookup_insert_eq.
  - now apply IH.
Qed.

(** X15: the user's keywords always win.  The short names [ls] and [lw]
    are never keys of what the user's keywords become, and when no keyword
    is given under both its names, each of them is in the result with the
    user's value under its long name, whatever the defaults and the rc
    state. *)
Theorem soft_update_keeps_user {V} (not_default : list string)
    (kwargs mods : list (string * V)) (rc : bool) :
  (rename kwargs !! "ls" = None /\ rename kwargs !! "lw" = None)
  /\ (NoDup (alias <$> kwargs.*1) ->
      forall k v, (k, v) ∈ kwargs ->
        soft_update_kwargs not_default kwargs mods rc !! alias k = Some v).
Proof.
  split.
  - unfold rename. split; rewrite rename_loop_other; try apply lookup_empty.
    + intros (k & H & _)%list_elem_of_fmap.
      destruct (alias_long k). congruence.
    + intros (k & H & _)%list_elem_of_fmap.
      destruct (alias_long k). congruence.
  - intros Hnd k v Hin. unfold soft_update_kwargs.
    apply soft_update_loop_keeps. unfold rename. now apply rename_loop_given.
Qed.

Lemma soft_update_keeps_user_witness :
  soft_update_kwargs ["lines.linestyle"]
    [("lw", 3%Z); ("color", 7%Z)] [("linewidth", 15%Z); ("linestyle", 0%Z)]
    true !! alias "lw" = Some 3%Z.
Proof.
  apply (soft_update_keeps_user ["lines.linestyle"]
           [("lw", 3%Z); ("color", 7%Z)]
           [("linewidth", 15%Z); ("linestyle", 0%Z)] true).
  - apply (bool_decide_unpack _). vm_compute. exact I.
  - apply list_elem_of_here.
Defined.

(** With [lw] after [linewidth] the value of [lw] stays, and a modified
    [lines.linestyle] holds the default [linestyle] back. *)
Example soft_update_example :
  soft_update_kwargs ["lines.linestyle"]
    [("linewidth", 1%Z); ("lw", 3%Z)] [("linewidth", 15%Z); ("linestyle", 0%Z)]
    true
  = {[ "linewidth" := 3%Z ]}.
Proof. now vm_compute. Qed.

(** ** The legend helpers *)

Lemma insert_loop_last {T} (l : list (string * T)) (k : string) :
  forall m : gmap string T,
    foldl (fun m kv => <[kv.1 := kv.2]> m) m l !! k
    = match last (filter (fun kv => kv.1 = k) l) with
      | Some kv => Some kv.2
      | None => m !! k
      end.
Proof.
  induction l as [|[k' h] l IH] using rev_ind; intros m; [reflexivity|].
  rewrite foldl_app, filter_app. cbn [foldl fst snd].
  rewrite filter_cons, filter_nil. cbn [fst].
  destruct (decide (k' = k)) as [->|Hne].
  - now rewrite last_snoc, lookup_insert_eq.
  - rewrite app_nil_r, lookup_insert_ne by exact Hne. apply IH.
Qed.

Lemma by_label_last {T} (labels : list string) (handles : list T)
    (k : string) :
  by_label labels handles !! k = last_handle labels handles k.
Proof.
  unfold by_label, last_handle. rewrite insert_loop_last.
  now destruct (last _).
Qed.

Lemma last_handle_of_label {T} (labels : list string) (handles : list T)
    (k : string) :
  length handles = length labels ->
  k ∈ labels ->
  is_Some (last_handle labels handles k).
Proof.
  intros Hlen (i & Hi)%list_elem_of_lookup.
  destruct (lookup_lt_is_Some_2 handles i) as [h Hh].
  { rewrite Hlen. now apply lookup_lt_Some in Hi. }
  unfold last_handle.
  assert (Hin : (k, h) ∈ filter (fun kv : string * T => kv.1 = k)
                             (zip labels handles)).
  { apply list_elem_of_filter. split; [reflexivity|].
    apply list_elem_of_lookup. exists i.
    apply lookup_zip_with_Some. now exists k, h. }
  destruct (filter _ _) as [|x t] using rev_ind; [inversion Hin|].
  rewrite last_snoc. now eexists.
Qed.

Lemma new_name_of_key (d : list (string * string)) (k : string) :
  k ∈ d.*1 -> is_Some (new_name d k).
Proof.
  intros Hk. unfold new_name.
  destruct (list_to_map d !! k) eqn:Hd; [now eexists|].
  now apply not_elem_of_list_to_map_2 in Hd.
Qed.

(** X16: given as many handles as labels, [sort_legend] raises only for an
    [order] of a type it does not know, and never a [KeyError].  Otherwise
    the labels it keeps are those of [order] (of the legend when there is no
    [order]) that are in the legend, in that order; each comes with the
    handle of the last legend entry that has this label; under an
    [OrderedDict] the labels are returned under their new names. *)
Theorem sort_legend_returns {T} (labels : list string) (handles : list T)
    (order : order_arg) :
  length handles = length labels ->
  match ordered_labels labels order with
  | None => sort_legend labels handles order = inl LegendTypeError
  | Some l =>
      let kept := filter (fun entry => entry ∈ labels) l in
      exists hs ls,
        sort_legend labels handles order = inr (hs, ls)
        /\ Forall2 (fun k h => last_handle labels handles k = Some h) kept hs
        /\ match order with
           | OrderDict d => Forall2 (fun k name => (k, name) ∈ d) kept ls
           | _ => ls = kept
           end
  end.
Proof.
  intros Hlen. unfold sort_legend.
  destruct (ordered_labels labels order) as [l|] eqn:Hord; [|reflexivity].
  cbv zeta. set (kept := filter (fun entry => entry ∈ labels) l).
  destruct (mapM (fun k => by_label labels handles !! k) kept) as [hs|] eqn:Hhs.
  2:{ exfalso. apply eq_None_not_Some in Hhs. apply Hhs, mapM_is_Some.
      apply Forall_forall. intros k [Hk _]%list_elem_of_filter. cbn.
      rewrite by_label_last. now apply last_handle_of_label. }
  apply mapM_Some in Hhs.
  assert (Hhandles : Forall2 (fun k h => last_handle labels handles k = Some h)
                             kept hs).
  { eapply Forall2_impl; [exact Hhs|]. intros k h. cbn.
    now rewrite by_label_last. }
  destruct order as [|l'|d|]; try discriminate;
    try (exists hs, kept; now repeat split).
  injection Hord as <-.
  destruct (mapM (new_name d) kept) as [names|] eqn:Hnames.
  2:{ exfalso. apply eq_None_not_Some in Hnames. apply Hnames, mapM_is_Some.
      apply Forall_forall. intros k [_ Hk]%list_elem_of_filter. cbn.
      now apply new_name_of_key. }
  exists hs, names. repeat split; [exact Hhandles|].
  apply mapM_Some in Hnames. eapply Forall2_impl; [exact Hnames|].
  intros k name. unfold new_name. apply elem_of_list_to_map_2.
Qed.

Lemma sort_legend_returns_witness :
  exists hs ls,
    sort_legend ["a"; "b"; "a"] [1%Z; 2%Z; 3%Z]
                (OrderDict [("b", "B"); ("x", "X"); ("a", "A")])
    = inr (hs, ls)
    /\ Forall2 (fun k h => last_handle ["a"; "b"; "a"] [1%Z; 2%Z; 3%Z] k
                           = Some h) ["b"; "a"] hs
    /\ Forall2 (fun k name => (k, name) ∈ [("b", "B"); ("x", "X"); ("a", "A")])
               ["b"; "a"] ls.
Proof.
  exact (sort_legend_returns ["a"; "b"; "a"] [1%Z; 2%Z; 3%Z]
           (OrderDict [("b", "B"); ("x", "X"); ("a", "A")]) eq_refl).
Defined.

Lemma filter_none {A} (P : A -> Prop) `{forall x, Decision (P x)}
    (l : list A) :
  Forall (fun x => ~ P x) l -> filter P l = [].
Proof.
  induction 1 as [|x l Hx _ IH]; [reflexivity|].
  rewrite filter_cons, decide_False by exact Hx. exact IH.
Qed.

Lemma filter_all {A} (P : A -> Prop) `{forall x, Decision (P x)}
    (l : list A) :
  Forall P l -> filter P l = l.
Proof.
  induction 1 as [|x l Hx _ IH]; [reflexivity|].
  rewrite filter_cons, decide_True by exact Hx. now rewrite IH.
Qed.

Lemma filter_one_key {T} (l : list (string * T)) (k : string) (h : T) :
  NoDup l.*1 -> (k, h) ∈ l -> filter (fun kv => kv.1 = k) l = [(k, h)].
Proof.
  induction l as [|[k' h'] l IH]; intros Hnd Hin; [inversion Hin|].
  rewrite fmap_cons in Hnd. cbn [fst] in Hnd.
  apply NoDup_cons in Hnd as [Hnew Hnd].
  rewrite filter_cons. cbn [fst].
  apply elem_of_cons in Hin as [[= <- <-]|Hin].
  - rewrite decide_True by reflexivity. f_equal.
    apply filter_none, Forall_forall. intros [k2 h2] Hin2 Hk. cbn in Hk.
    subst k2. apply Hnew, list_elem_of_fmap. now exists (k, h2).
  - rewrite decide_False; [now apply IH|].
    intros ->. apply Hnew, list_elem_of_fmap. now exists (k, h).
Qed.

(** X17: without [order], a legend whose labels are all different comes
    back as it is. *)
Theorem sort_legend_identity {T} (labels : list string) (handles : list T) :
  length handles = length labels ->
  NoDup labels ->
  sort_legend labels handles OrderNone = inr (handles, labels).
Proof.
  intros Hlen Hnd. unfold sort_legend. cbn [ordered_labels]. cbv zeta.
  assert (Hall : filter (fun entry => entry ∈ labels) labels = labels).
  { apply filter_all, Forall_forall. auto. }
  rewrite Hall.
  assert (Hhs : mapM (fun k => by_label labels handles !! k) labels
                = Some handles).
  { apply mapM_Some. apply Forall2_same_length_lookup.
    split; [now symmetry|]. intros i k h Hk Hh. rewrite by_label_last.
    unfold last_handle. rewrite (filter_one_key _ k h); [reflexivity| |].
    - now rewrite fst_zip by lia.
    - apply list_elem_of_lookup. exists i.
      apply lookup_zip_with_Some. now exists k, h. }
  now rewrite Hhs.
Qed.

Lemma sort_legend_identity_witness :
  sort_legend ["data"; "MC"] [1%Z; 2%Z] OrderNone
  = inr ([1%Z; 2%Z], ["data"; "MC"]).
Proof.
  apply (sort_legend_identity ["data"; "MC"] [1%Z; 2%Z]); [reflexivity|].
  apply (bool_decide_unpack _). vm_compute. exact I.
Defined.

(** Of two entries with one label, both get the handle of the later. *)
Example sort_legend_same_label :
  sort_legend ["a"; "b"; "a"] [1%Z; 2%Z; 3%Z] OrderNone
  = inr ([3%Z; 2%Z; 3%Z], ["a"; "b"; "a"]).
Proof. now vm_compute. Qed.

(** ** The layout loops stop at the first fit *)

Lemma yscale_loop_to_fit (overlap : Q * Q -> Z) (otol : Q) (soft_fail : bool)
    (what : string) (factor : Q) (k : nat) :
  forall fuel m st,
    (k + m <= 11)%nat -> (k < fuel)%nat ->
    inject_Z (overlap (ylim (rescaled factor k st))) <= otol ->
    (forall j, (j < k)%nat ->
       otol < inject_Z (overlap (ylim (rescaled factor j st)))) ->
    yscale_loop overlap otol soft_fail what factor fuel m st
    = Some (rescaled factor k st, None).
Proof.
  induction k as [|k IH]; intros fuel m st Hm Hfuel Hfit Hover;
    (destruct fuel as [|fuel]; [lia|]); cbn [yscale_loop].
  - apply Qgtb_false in Hfit. cbn in Hfit. now rewrite Hfit.
  - assert (H0 : Qgtb (inject_Z (overlap (ylim st))) otol = true).
    { apply Qgtb_true. apply (Hover 0%nat). lia. }
    rewrite H0. destruct (Nat.ltb_spec 10 m) as [Hcap|_]; [lia|].
    rewrite <- rescaled_succ. apply IH; [lia|lia| |].
    + now rewrite rescaled_succ.
    + intros j Hj. rewrite rescaled_succ. apply Hover. lia.
Qed.

Lemma yscale_loop_from_fit (overlap : Q * Q -> Z) (otol : Q) (what : string)
    (factor : Q) (fuel : nat) :
  forall m st st',
    (m <= 11)%nat ->
    yscale_loop overlap otol false what factor fuel m st = Some (st', None) ->
    exists k,
      (k + m <= 11)%nat /\ (k < fuel)%nat
      /\ inject_Z (overlap (ylim (rescaled factor k st))) <= otol
      /\ (forall j, (j < k)%nat ->
            otol < inject_Z (overlap (ylim (rescaled factor j st))))
      /\ st' = rescaled factor k st.
Proof.
  induction fuel as [|fuel IH]; intros m st st' Hm Hrun; [discriminate|].
  cbn [yscale_loop] in Hrun.
  destruct (Qgtb (inject_Z (overlap (ylim st))) otol) eqn:H0.
  - destruct (Nat.ltb_spec 10 m) as [Hcap|Hcap]; [discriminate|].
    apply IH in Hrun as (k & Hk & Hfuel & Hfit & Hover & ->); [|lia].
    exists (S k). rewrite rescaled_succ in *.
    split; [lia|]. split; [lia|]. split; [exact Hfit|].
    split; [|reflexivity].
    intros [|j] Hj; [now apply Qgtb_true in H0|].
    rewrite <- rescaled_succ. apply Hover. lia.
  - injection Hrun as <-. exists 0%nat.
    split; [lia|]. split; [lia|]. split; [now apply Qgtb_false in H0|].
    split; [lia|reflexivity].
Qed.

Lemma loop_returns_at_first_fit (overlap : Q * Q -> Z) (otol factor : Q)
    (what : string) (lim : Q * Q) :
  returns_at_first_fit
    (fun fuel => yscale_loop overlap otol false what factor fuel 0
                             (start_scaling lim))
    overlap otol factor lim.
Proof.
  intros fuel st. split.
  - intros Hrun. apply yscale_loop_from_fit in Hrun; [|lia].
    destruct Hrun as (k & Hk & Hfuel & Hfit & Hover & ->).
    exists k. split; [lia|]. split; [exact Hfuel|].
    split; [now split|reflexivity].
  - intros (k & Hk & Hfuel & [Hfit Hover] & ->).
    apply yscale_loop_to_fit; try assumption; lia.
Qed.

(** X18: with [soft_fail=False], [yscale_legend] and
    [yscale_anchored_text] return without an exception exactly when the
    overlap is within the tolerance at one of the first twelve checks, and
    they return at the first such check, with as many rescalings as checks
    that failed; a fit that only the twelfth rescaling brings is not
    seen. *)
Theorem yscale_returns_at_first_fit (overlap : Q * Q -> Z)
    (yscale_is_log : bool) (otol : option Q) (lim : Q * Q) :
  returns_at_first_fit
    (fun fuel => yscale_legend overlap yscale_is_log otol false fuel lim)
    overlap (default 0 otol) (scale_factor yscale_is_log) lim
  /\ returns_at_first_fit
       (fun fuel => yscale_anchored_text overlap yscale_is_log otol false
                                         fuel lim)
       overlap (default 0 otol) (scale_factor yscale_is_log) lim.
Proof.
  assert (Hloop : forall what,
            returns_at_first_fit
              (fun fuel => yscale_loop overlap (default 0 otol) false what
                             (scale_factor yscale_is_log) fuel 0
                             (start_scaling lim))
              overlap (default 0 otol) (scale_factor yscale_is_log) lim).
  { intros what fuel st. split.
    - intros Hrun. apply yscale_loop_from_fit in Hrun; [|lia].
      destruct Hrun as (k & Hk & Hfuel & Hfit & Hover & ->).
      exists k. split; [lia|]. split; [exact Hfuel|].
      split; [now split|reflexivity].
    - intros (k & Hk & Hfuel & [Hfit Hover] & ->).
      apply yscale_loop_to_fit; try assumption; lia. }
  split; [apply (Hloop "legend")|apply (Hloop "AnchoredText")].
Qed.

(** The twelfth rescaling brings the fit, and the loop raises all the
    same. *)
Example fit_after_the_cap :
  let overlap (lim : Q * Q) : Z :=
    if Qle_bool (Nat.iter 12 (fun y => y * (105 # 100)) 1) lim.2
    then 0%Z else 1%Z in
  match yscale_legend overlap false None false 13 (0, 1) with
  | Some (st, Some (RuntimeError _)) => overlap (ylim st) = 0%Z
  | _ => False
  end.
Proof. vm_compute. reflexivity. Qed.

(** ** [ylow] and [mpl_magic] *)

Lemma Qminb_le (a b : Q) : Qminb a b <= a /\ Qminb a b <= b.
Proof.
  unfold Qminb. destruct (Qle_bool a b) eqn:Hab.
  - apply Qle_bool_iff in Hab. split; [apply Qle_refl|exact Hab].
  - split; [|apply Qle_refl]. apply Qlt_le_weak, Qnot_le_lt.
    intros H%Qle_bool_iff. congruence.
Qed.

Lemma np_min_le (l : list Q) (m : Q) :
  np_min l = Ok m -> Forall (fun y => m <= y) l.
Proof.
  destruct l as [|x t]; [discriminate|]. intros [= <-].
  induction t as [|y t IH]; cbn [foldr].
  - constructor; [apply Qle_refl|constructor].
  - destruct (Qminb_le y (foldr Qminb x t)) as [Hy Hrest].
    inversion IH as [|? ? Hx Ht]; subst.
    constructor; [eapply Qle_trans; eassumption|].
    constructor; [exact Hy|].
    eapply Forall_impl; [exact Ht|]. intros z Hz. cbn in Hz.
    eapply Qle_trans; eassumption.
Qed.

Lemma Qminb_tight (a b : Q) : Qminb a b = a \/ Qminb a b = b.
Proof. unfold Qminb. destruct (Qle_bool a b); [now left|now right]. Qed.

Lemma np_min_elem (l : list Q) (m : Q) : np_min l = Ok m -> m ∈ l.
Proof.
  destruct l as [|x t]; [discriminate|]. intros [= <-].
  induction t as [|y t IH]; cbn [foldr]; [apply list_elem_of_here|].
  destruct (Qminb_tight y (foldr Qminb x t)) as [-> | ->].
  - apply list_elem_of_further, list_elem_of_here.
  - apply elem_of_cons in IH as [->|IH]; [apply list_elem_of_here|].
    now apply list_elem_of_further, list_elem_of_further.
Qed.

(** X19: [ylow] never touches the upper limit and leaves a log axis alone.
    On a linear axis a given [ylow] sets the lower limit to 0 whatever its
    value, as does no [ylow] when nothing is found below the axes; when
    something is, the new lower limit is the smaller of the lowest vertex
    and the old lower limit, so it is never raised. *)
Theorem ylow_limits (yscale_is_log : bool) (count : Z) (ydata : list Q)
    (ylow_arg : option Q) (lim lim' : Q * Q) :
  ylow yscale_is_log count ydata ylow_arg lim = Ok lim' ->
  lim'.2 = lim.2
  /\ (yscale_is_log = true -> lim' = lim)
  /\ (yscale_is_log = false ->
      if bool_decide (is_Some ylow_arg) || (count =? 0)%Z
      then lim'.1 = 0
      else exists lowest,
             lowest ∈ ydata
             /\ Forall (fun y => lowest <= y) ydata
             /\ ((lowest <= lim.1 /\ lim'.1 = lowest)
                 \/ (lim.1 < lowest /\ lim'.1 = lim.1))
             /\ lim'.1 <= lim.1
             /\ Forall (fun y => lim'.1 <= y) ydata).
Proof.
  unfold ylow. destruct yscale_is_log.
  { intros [= <-]. split; [reflexivity|]. split; [now intros _|discriminate]. }
  destruct ylow_arg as [v|].
  { intros [= <-]. split; [reflexivity|]. split; [discriminate|].
    intros _. rewrite bool_decide_eq_true_2 by (now eexists). reflexivity. }
  rewrite bool_decide_eq_false_2 by (intros [? ?]; discriminate).
  cbn [orb]. destruct (count =? 0)%Z.
  { intros [= <-]. split; [reflexivity|]. split; [discriminate|now intros _]. }
  intros (m & Hm & [= <-])%bind_Ok_inv. cbn [fst snd].
  split; [reflexivity|]. split; [discriminate|]. intros _.
  exists m. split; [exact (np_min_elem _ _ Hm)|].
  split; [exact (np_min_le _ _ Hm)|].
  destruct (Qminb_le m lim.1) as [Hm' Hlim]. split; [|split; [exact Hlim|]].
  - unfold Qminb. destruct (Qle_bool m lim.1) eqn:Hle.
    + left. split; [now apply Qle_bool_iff|reflexivity].
    + right. split; [|reflexivity]. apply Qnot_le_lt.
      intros H%Qle_bool_iff. congruence.
  - eapply Forall_impl; [exact (np_min_le _ _ Hm)|].
    intros y Hy. exact (Qle_trans _ _ _ Hm' Hy).
Qed.

Lemma ylow_limits_witness :
  (-3, 10).2 = (-1, 10).2
  /\ (false = true -> (-3, 10) = (-1, 10))
  /\ (false = false ->
      exists lowest,
        lowest ∈ [2; -3; 5]
        /\ Forall (fun y => lowest <= y) [2; -3; 5]
        /\ ((lowest <= (-1, 10).1 /\ (-3, 10).1 = lowest)
            \/ ((-1, 10).1 < lowest /\ (-3, 10).1 = (-1, 10).1))
        /\ (-3, 10).1 <= (-1, 10).1
        /\ Forall (fun y => (-3, 10).1 <= y) [2; -3; 5]).
Proof.
  exact (ylow_limits false 2 [2; -3; 5] None (-1, 10) (-3, 10) eq_refl).
Defined.

Lemma ylow_top (yscale_is_log : bool) (count : Z) (ydata : list Q)
    (ylow_arg : option Q) (lim lim' : Q * Q) :
  ylow yscale_is_log count ydata ylow_arg lim = Ok lim' -> lim'.2 = lim.2.
Proof.
  unfold ylow. destruct yscale_is_log; [now intros [= <-]|].
  destruct ylow_arg; [now intros [= <-]|].
  destruct (count =? 0)%Z; [now intros [= <-]|].
  now intros (m & _ & [= <-])%bind_Ok_inv.
Qed.

Lemma yscale_loop_returns (overlap : Q * Q -> Z) (otol : Q)
    (soft_fail : bool) (what : string) (factor : Q) (fuel : nat)
    (st : Scaling) :
  (12 <= fuel)%nat ->
  exists st' e,
    yscale_loop overlap otol soft_fail what factor fuel 0 st = Some (st', e).
Proof.
  intros Hfuel.
  destruct (yscale_loop_bounded overlap otol soft_fail what factor fuel 0 st)
    as (n & e & _ & _ & [Hrun|[_ Hrun]]); [lia|lia| |]; eauto.
Qed.

(** X20: on axes without a legend, or without an anchored text,
    [mpl_magic] always ends in an exception. *)
Theorem mpl_magic_needs_boxes {Leg Box} (leg_overlap : Leg -> Q * Q -> Z)
    (text_overlap : Box -> Q * Q -> Z) (yscale_is_log : bool)
    (legend : option Leg) (children : list Leg)
    (textboxes : list (Z * Box)) (count : Z) (ydata : list Q)
    (fuel : nat) (lim : Q * Q) :
  (12 <= fuel)%nat ->
  (legend = None /\ children = []) \/ textboxes = [] ->
  exists lim' e,
    mpl_magic leg_overlap text_overlap yscale_is_log legend children
              textboxes count ydata fuel lim
    = Some (lim', Some e).
Proof.
  intros Hfuel Hno. unfold mpl_magic.
  destruct (ylow yscale_is_log count ydata None lim) as [lim1|e]; [|eauto].
  destruct (_draw_leg_bbox legend children) as [leg|e] eqn:Hleg; [|eauto].
  destruct Hno as [[-> ->]| ->]; [discriminate|].
  unfold yscale_legend.
  destruct (yscale_loop_returns (leg_overlap leg) (default 0 None) false
              "legend" (scale_factor yscale_is_log) fuel (start_scaling lim1)
              Hfuel) as (st & e & ->).
  destruct e as [e|]; eauto.
Qed.

Lemma mpl_magic_needs_boxes_witness :
  exists lim' e,
    mpl_magic (fun (_ : unit) _ => 0%Z) (fun (_ : unit) _ => 0%Z) false
              (Some tt) [] [] 0 [] 12 (1, 10)
    = Some (lim', Some e).
Proof.
  apply (mpl_magic_needs_boxes (fun (_ : unit) _ => 0%Z)
           (fun (_ : unit) _ => 0%Z) false (Some tt) [] [] 0 [] 12 (1, 10));
    [lia|now right].
Defined.

(** X21: when [mpl_magic] returns, the lower limit is the one [ylow] has
    set, the upper limit is the one it found, scaled up at most twenty-two
    times, and the text box does not overlap; the legend is not looked at
    again after the text box has been given room. *)
Theorem mpl_magic_limits {Leg Box} (leg_overlap : Leg -> Q * Q -> Z)
    (text_overlap : Box -> Q * Q -> Z) (yscale_is_log : bool)
    (legend : option Leg) (children : list Leg)
    (textboxes : list (Z * Box)) (count : Z) (ydata : list Q)
    (fuel : nat) (lim lim' : Q * Q) :
  mpl_magic leg_overlap text_overlap yscale_is_log legend children
            textboxes count ydata fuel lim
  = Some (lim', None) ->
  exists lim1 box k,
    ylow yscale_is_log count ydata None lim = Ok lim1
    /\ _draw_text_bbox textboxes = Ok box
    /\ (k <= 22)%nat
    /\ lim' = (lim1.1, scaled_up (scale_factor yscale_is_log) k lim.2)
    /\ inject_Z (text_overlap box lim') <= 0.
Proof.
  unfold mpl_magic.
  destruct (ylow yscale_is_log count ydata None lim) as [lim1|e] eqn:Hylow;
    [|discriminate].
  destruct (_draw_leg_bbox legend children) as [leg|e]; [|discriminate].
  destruct (yscale_legend _ _ _ _ _ _) as [[st [e|]]|] eqn:Hleg;
    try discriminate.
  destruct (_draw_text_bbox textboxes) as [box|e]; [|discriminate].
  destruct (yscale_anchored_text _ _ _ _ _ _) as [[st' e]|] eqn:Htext;
    [|discriminate].
  intros [= <- ->].
  apply loop_returns_at_first_fit in Hleg as (k1 & Hk1 & _ & _ & ->).
  apply loop_returns_at_first_fit in Htext as (k2 & Hk2 & _ & [Hfit _] & ->).
  exists lim1, box, (k2 + k1)%nat.
  split; [reflexivity|]. split; [reflexivity|]. split; [lia|].
  assert (Hlim : ylim (rescaled (scale_factor yscale_is_log) k2
                   (start_scaling
                      (ylim (rescaled (scale_factor yscale_is_log) k1
                               (start_scaling lim1)))))
                 = (lim1.1, scaled_up (scale_factor yscale_is_log) (k2 + k1)
                                      lim.2)).
  { rewrite !ylim_rescaled. cbn [start_scaling ylim fst snd].
    unfold scaled_up. now rewrite Nat.iter_add, (ylow_top _ _ _ _ _ _ Hylow). }
  rewrite Hlim in *. split; [reflexivity|exact Hfit].
Qed.

Lemma mpl_magic_limits_witness :
  let leg_overlap (_ : unit) (lim : Q * Q) : Z :=
    if Qle_bool 11 lim.2 then 0%Z else 1%Z in
  let text_overlap (_ : unit) (lim : Q * Q) : Z :=
    if Qle_bool 12 lim.2 then 0%Z else 1%Z in
  match mpl_magic leg_overlap text_overlap false (Some tt) [] [(1%Z, tt)]
                  0 [] 13 (1, 10) with
  | Some (lim', None) =>
      exists lim1 box k,
        ylow false 0 [] None (1, 10) = Ok lim1
        /\ _draw_text_bbox [(1%Z, tt)] = Ok box
        /\ (k <= 22)%nat
        /\ lim' = (lim1.1, scaled_up (scale_factor false) k (1, 10).2)
        /\ inject_Z (text_overlap box lim') <= 0
  | _ => False
  end.
Proof.
  intros leg_overlap text_overlap.
  destruct (mpl_magic leg_overlap text_overlap false (Some tt) []
              [(1%Z, tt)] 0 [] 13 (1, 10)) as [[lim' [e|]]|] eqn:Hrun.
  - vm_compute in Hrun. discriminate.
  - exact (mpl_magic_limits leg_overlap text_overlap false (Some tt) []
             [(1%Z, tt)] 0 [] 13 (1, 10) lim' Hrun).
  - vm_compute in Hrun. discriminate.
Defined.

(** The text box gets its room and the legend overlaps again. *)
Example mpl_magic_legend_not_rechecked :
  let leg_overlap (_ : unit) (lim : Q * Q) : Z :=
    if Qle_bool lim.2 10 then 0%Z else 1%Z in
  let text_overlap (_ : unit) (lim : Q * Q) : Z :=
    if Qle_bool 12 lim.2 then 0%Z else 1%Z in
  match mpl_magic leg_overlap text_overlap false (Some tt) [] [(1%Z, tt)]
                  0 [] 13 (1, 10) with
  | Some (lim', None) => leg_overlap tt lim' = 1%Z
  | _ => False
  end.
Proof. vm_compute. reflexivity. Qed.

(** ** [flow="sum"] in [hist2dplot] keeps the content *)

Lemma Qsum_app (a b : list Q) : Qsum (a ++ b) == Qsum a + Qsum b.
Proof.
  induction a as [|x a IH].
  - change (Qsum b == 0 + Qsum b). ring.
  - cbn [app]. rewrite !Qsum_cons, IH. ring.
Qed.

Lemma Qsum_snoc (a : list Q) (x : Q) : Qsum (a ++ [x]) == Qsum a + x.
Proof. rewrite Qsum_app, Qsum_cons. change (Qsum []) with 0. ring. Qed.

Lemma Qsum_insert (l : list Q) (j : nat) (o x : Q) :
  l !! j = Some o -> Qsum (<[j := x]> l) == Qsum l - o + x.
Proof.
  revert j. induction l as [|y l IH]; intros [|j] Hj; try discriminate.
  - injection Hj as ->. cbn [insert list_insert]. rewrite !Qsum_cons. ring.
  - cbn in Hj. change (<[S j := x]> (y :: l)) with (y :: <[j := x]> l).
    rewrite !Qsum_cons, (IH _ Hj). ring.
Qed.

Lemma Qsum_zip_plus (a b : list Q) :
  length a = length b -> Qsum (zip_with Qplus a b) == Qsum a + Qsum b.
Proof.
  revert b. induction a as [|x a IH]; intros [|y b] Hlen; try discriminate.
  - change (0 == 0 + 0). ring.
  - cbn [zip_with]. rewrite !Qsum_cons, IH by (cbn in Hlen; lia). ring.
Qed.

Lemma total_cons (r : list Q) (m : list (list Q)) :
  total (r :: m) = Qsum r + total m.
Proof. reflexivity. Qed.

Lemma total_app (a b : list (list Q)) : total (a ++ b) == total a + total b.
Proof. unfold total. now rewrite fmap_app, Qsum_app. Qed.

Lemma total_insert (m : list (list Q)) (i : nat) (r r' : list Q) :
  m !! i = Some r -> total (<[i := r']> m) == total m - Qsum r + Qsum r'.
Proof.
  intros Hi. unfold total. rewrite list_fmap_insert.
  apply Qsum_insert. now rewrite list_lookup_fmap, Hi.
Qed.

Lemma total_set_cell (m : list (list Q)) (i j : nat) (o x : Q) :
  cell m i j = Some o -> total (set_cell i j x m) == total m - o + x.
Proof.
  unfold cell, set_cell. destruct (m !! i) as [row|] eqn:Hi; [|discriminate].
  cbn. intros Hj. rewrite (total_insert _ _ _ _ Hi), (Qsum_insert _ _ _ _ Hj).
  ring.
Qed.

Lemma cell_set_cell (m : list (list Q)) (a b i j : nat) (x : Q) :
  i <> a \/ j <> b -> cell (set_cell a b x m) i j = cell m i j.
Proof.
  intros Hne. unfold cell, set_cell.
  destruct (m !! a) as [row|] eqn:Ha; [|reflexivity].
  destruct (decide (i = a)) as [->|Hi].
  - rewrite list_lookup_insert_eq by (now apply lookup_lt_Some in Ha).
    rewrite Ha. cbn. apply list_lookup_insert_ne. destruct Hne; congruence.
  - now rewrite list_lookup_insert_ne.
Qed.

Lemma grid_set_cell (nx ny : nat) (m : list (list Q)) (i j : nat) (x : Q) :
  grid nx ny m -> grid nx ny (set_cell i j x m).
Proof.
  intros [Hlen Hrows]. unfold set_cell.
  destruct (m !! i) as [row|] eqn:Hi; [|now split]. split.
  - now rewrite length_insert.
  - apply Forall_insert; [exact Hrows|]. rewrite length_insert.
    exact (proj1 (Forall_lookup _ _) Hrows _ _ Hi).
Qed.

Lemma cell_grid (nx ny : nat) (m : list (list Q)) (i j : nat) :
  grid nx ny m -> (i < nx)%nat -> (j < ny)%nat ->
  exists row x, m !! i = Some row /\ row !! j = Some x
                /\ cell m i j = Some x.
Proof.
  intros [Hlen Hrows] Hi Hj.
  destruct (lookup_lt_is_Some_2 m i) as [row Hrow]; [lia|].
  assert (Hr : length row = ny)
    by exact (proj1 (Forall_lookup _ _) Hrows _ _ Hrow).
  destruct (lookup_lt_is_Some_2 row j) as [x Hx]; [lia|].
  exists row, x. unfold cell. rewrite Hrow. cbn. now rewrite Hx.
Qed.

Lemma total_set_col (j : list Q -> nat) (m : list (list Q)) (old : list Q) :
  Forall2 (fun row o => row !! j row = Some o) m old ->
  forall col, length col = length m ->
    total (zip_with (fun row x => <[j row := x]> row) m col)
    == total m - Qsum old + Qsum col.
Proof.
  induction 1 as [|row o m old Hrow _ IH]; intros [|x col] Hlen;
    try discriminate.
  - change (0 == 0 - 0 + 0). ring.
  - cbn [zip_with]. rewrite !total_cons, !Qsum_cons.
    rewrite (Qsum_insert _ _ _ _ Hrow), IH by (cbn in Hlen; lia). ring.
Qed.

Lemma col0_lookup (m : list (list Q)) :
  Forall (fun r => (1 <= length r)%nat) m ->
  Forall2 (fun row o => row !! 0%nat = Some o) m (col0 m).
Proof.
  induction 1 as [|r m Hr _ IH]; [constructor|].
  unfold col0. rewrite fmap_cons. constructor; [|exact IH].
  destruct r; [cbn in Hr; lia|reflexivity].
Qed.

Lemma colL_lookup (m : list (list Q)) :
  Forall (fun r => (1 <= length r)%nat) m ->
  Forall2 (fun row o => row !! last_index row = Some o) m (colL m).
Proof.
  induction 1 as [|r m Hr _ IH]; [constructor|].
  unfold colL. rewrite fmap_cons. constructor; [|exact IH].
  destruct r as [|x r _] using rev_ind; [cbn in Hr; lia|].
  rewrite last_snoc. unfold last_index. rewrite length_app. cbn.
  replace (pred (length r + 1)) with (length r + 0)%nat by lia.
  now rewrite lookup_app_r, Nat.add_comm, Nat.add_sub by lia.
Qed.

Lemma colL_set_first (m : list (list Q)) :
  Forall (fun r => (2 <= length r)%nat) m ->
  forall col, length col = length m ->
    colL (zip_with (fun row x => <[0%nat := x]> row) m col) = colL m.
Proof.
  induction 1 as [|r m Hr _ IH]; intros [|x col] Hlen; try discriminate;
    [reflexivity|].
  cbn [zip_with]. unfold colL in *. rewrite !fmap_cons.
  rewrite IH by (cbn in Hlen; lia). f_equal.
  destruct r as [|a [|b r]]; cbn in Hr; try lia. reflexivity.
Qed.

Lemma grid_set_col (nx ny : nat) (j : list Q -> nat) (m : list (list Q))
    (col : list Q) :
  grid nx ny m -> length col = nx ->
  grid nx ny (zip_with (fun row x => <[j row := x]> row) m col).
Proof.
  intros [Hlen Hrows] Hcol. split.
  - rewrite length_zip_with. lia.
  - subst nx. revert col Hcol.
    induction Hrows as [|r m Hr _ IH]; intros [|x col] Hcol;
      try discriminate; [constructor|].
    cbn [zip_with]. constructor; [now rewrite length_insert|].
    apply IH. cbn in Hcol. lia.
Qed.

Lemma length_inner {A} (l : list A) : length (inner l) = (length l - 2)%nat.
Proof.
  unfold inner, but_last, but_first.
  destruct l as [|a l]; [reflexivity|].
  change (drop 1 (a :: l)) with l.
  destruct l as [|b l _] using rev_ind; [reflexivity|].
  rewrite removelast_last. cbn. rewrite length_app. cbn. lia.
Qed.

Lemma inner_ends {A} (a b : A) (mid : list A) : inner (a :: mid ++ [b]) = mid.
Proof. unfold inner, but_last, but_first. cbn. apply removelast_last. Qed.

Lemma Qsum_ends (a b : Q) (mid : list Q) :
  Qsum (a :: mid ++ [b]) == a + Qsum mid + b.
Proof. rewrite Qsum_cons, Qsum_snoc. ring. Qed.

Lemma np_add_same (a b : list Q) :
  length a = length b -> np_add a b = Ok (zip_with Qplus a b).
Proof. intros Hlen. unfold np_add. now rewrite Hlen, Nat.eqb_refl. Qed.

Lemma item0_lookup {A} (l : list A) (x : A) :
  l !! 0%nat = Some x -> item0 l = Ok x.
Proof. unfold item0. now intros ->. Qed.

Lemma item_last_lookup {A} (l : list A) (x : A) :
  l !! last_index l = Some x -> item_last l = Ok x.
Proof.
  unfold item_last, last_index. intros Hx. now rewrite last_lookup, Hx.
Qed.

Lemma item_last_ends {A} (a b : A) (mid : list A) :
  item_last (a :: mid ++ [b]) = Ok b.
Proof. rewrite app_comm_cons. apply item_last_snoc. Qed.

Lemma total_inner (m : list (list Q)) :
  Forall (fun r => (2 <= length r)%nat) m ->
  total m == Qsum (col0 m) + total (inner <$> m) + Qsum (colL m).
Proof.
  induction 1 as [|r m Hr _ IH].
  { change (0 == 0 + 0 + 0). ring. }
  unfold col0, colL in *. rewrite !fmap_cons, !total_cons, !Qsum_cons, IH.
  destruct (list_ends r Hr) as (a & mid & b & ->).
  rewrite inner_ends, Qsum_ends. cbn [head default].
  rewrite app_comm_cons, last_snoc. cbn [default]. unfold id. ring.
Qed.

(** The four corner assignments of lines 739-744. *)
Lemma corners_total (nx ny : nat) (m : list (list Q))
    (f00 fll f0l fl0 h00 hll h0l hl0 : Q) :
  (2 <= nx)%nat -> (2 <= ny)%nat -> grid nx ny m ->
  cell m 0 0 = Some h00 -> cell m (nx - 1) (ny - 1) = Some hll ->
  cell m 0 (ny - 1) = Some h0l -> cell m (nx - 1) 0 = Some hl0 ->
  let m' := set_cell (nx - 1) 0 (fl0 + hl0)
              (set_cell 0 (ny - 1) (f0l + h0l)
                 (set_cell (nx - 1) (ny - 1) (fll + hll)
                    (set_cell 0 0 (f00 + h00) m))) in
  grid nx ny m' /\ total m' == total m + (f00 + fll + f0l + fl0).
Proof.
  intros Hnx Hny Hgrid H00 Hll H0l Hl0 m'. split.
  { now repeat apply grid_set_cell. }
  subst m'.
  rewrite (total_set_cell _ _ _ hl0).
  2:{ rewrite !cell_set_cell by lia. exact Hl0. }
  rewrite (total_set_cell _ _ _ h0l).
  2:{ rewrite !cell_set_cell by lia. exact H0l. }
  rewrite (total_set_cell _ _ _ hll).
  2:{ rewrite !cell_set_cell by lia. exact Hll. }
  rewrite (total_set_cell _ _ _ h00) by exact H00.
  ring.
Qed.

Lemma at2_cons_0 (r : list Q) (m : list (list Q)) (j : nat) :
  at2 (r :: m) 0 j = default 0 (r !! j).
Proof. reflexivity. Qed.

Lemma at2_cons_S (r : list Q) (m : list (list Q)) (i j : nat) :
  at2 (r :: m) (S i) j = at2 m i j.
Proof. reflexivity. Qed.

Lemma at2_app_l (m m' : list (list Q)) (i j : nat) :
  (i < length m)%nat -> at2 (m ++ m') i j = at2 m i j.
Proof. intros Hi. unfold at2, cell. now rewrite lookup_app_l. Qed.

Lemma at2_app_last (m : list (list Q)) (r : list Q) (j : nat) :
  at2 (m ++ [r]) (length m) j = default 0 (r !! j).
Proof.
  unfold at2, cell. rewrite lookup_app_r, Nat.sub_diag by lia. reflexivity.
Qed.

Lemma at2_cell (m : list (list Q)) (i j : nat) (x : Q) :
  cell m i j = Some x -> at2 m i j = x.
Proof. unfold at2. now intros ->. Qed.

Lemma default_zip_plus (a b : list Q) (j : nat) :
  (j < length a)%nat -> (j < length b)%nat ->
  default 0 (zip_with Qplus a b !! j)
  = default 0 (a !! j) + default 0 (b !! j).
Proof.
  intros Ha Hb.
  destruct (lookup_lt_is_Some_2 a j Ha) as [x Hx].
  destruct (lookup_lt_is_Some_2 b j Hb) as [y Hy].
  rewrite Hx, Hy. cbn.
  assert (H : zip_with Qplus a b !! j = Some (x + y)).
  { apply lookup_zip_with_Some. now exists x, y. }
  now rewrite H.
Qed.

Lemma default_app_l {A} (d : A) (l l' : list A) (j : nat) :
  (j < length l)%nat -> default d ((l ++ l') !! j) = default d (l !! j).
Proof. intros Hj. now rewrite lookup_app_l. Qed.

Lemma default_snoc {A} (d : A) (l : list A) (x : A) :
  default d ((l ++ [x]) !! length l) = x.
Proof. rewrite lookup_app_r, Nat.sub_diag by lia. reflexivity. Qed.

Lemma at2_col0 (nx ny : nat) (m : list (list Q)) (i : nat) :
  grid nx ny m -> (1 <= ny)%nat -> (i < nx)%nat ->
  default 0 (col0 m !! i) = at2 m i 0.
Proof.
  intros [Hlen Hrows] Hny Hi.
  destruct (lookup_lt_is_Some_2 m i) as [row Hrow]; [lia|].
  assert (Hr : length row = ny)
    by exact (proj1 (Forall_lookup _ _) Hrows _ _ Hrow).
  unfold col0, at2, cell. rewrite list_lookup_fmap, Hrow. cbn.
  destruct row; [cbn in Hr; lia|reflexivity].
Qed.

Lemma at2_colL (nx ny : nat) (m : list (list Q)) (i : nat) :
  grid nx ny m -> (1 <= ny)%nat -> (i < nx)%nat ->
  default 0 (colL m !! i) = at2 m i (ny - 1).
Proof.
  intros [Hlen Hrows] Hny Hi.
  destruct (lookup_lt_is_Some_2 m i) as [row Hrow]; [lia|].
  assert (Hr : length row = ny)
    by exact (proj1 (Forall_lookup _ _) Hrows _ _ Hrow).
  unfold colL, at2, cell. rewrite list_lookup_fmap, Hrow. cbn.
  rewrite last_lookup, Hr. now replace (pred ny) with (ny - 1)%nat by lia.
Qed.

(** A cell after [H[:, c] = col]. *)
Lemma at2_set_col (nx ny : nat) (jf : list Q -> nat) (c : nat)
    (m : list (list Q)) (col : list Q) (i j : nat) :
  grid nx ny m -> length col = nx ->
  (forall row, length row = ny -> jf row = c) ->
  (i < nx)%nat -> (j < ny)%nat ->
  at2 (zip_with (fun row x => <[jf row := x]> row) m col) i j
  = if (j =? c)%nat then default 0 (col !! i) else at2 m i j.
Proof.
  intros [Hlen Hrows] Hcol Hjf Hi Hj.
  destruct (lookup_lt_is_Some_2 m i) as [row Hrow]; [lia|].
  destruct (lookup_lt_is_Some_2 col i) as [x Hx]; [lia|].
  assert (Hr : length row = ny)
    by exact (proj1 (Forall_lookup _ _) Hrows _ _ Hrow).
  assert (Hz : zip_with (fun row x => <[jf row := x]> row) m col !! i
               = Some (<[jf row := x]> row)).
  { apply lookup_zip_with_Some. now exists row, x. }
  unfold at2, cell. rewrite Hz, Hrow, Hx. cbn. rewrite (Hjf row Hr).
  destruct (Nat.eqb_spec j c) as [->|Hne].
  - now rewrite list_lookup_insert_eq by lia.
  - now rewrite list_lookup_insert_ne by congruence.
Qed.

(** A cell after [H[a, b] = x]. *)
Lemma at2_set_cell (nx ny : nat) (m : list (list Q)) (a b i j : nat)
    (x : Q) :
  grid nx ny m -> (a < nx)%nat -> (b < ny)%nat ->
  at2 (set_cell a b x m) i j
  = if (i =? a)%nat && (j =? b)%nat then x else at2 m i j.
Proof.
  intros Hgrid Ha Hb.
  destruct (cell_grid nx ny m a b Hgrid Ha Hb) as (row & y & Hrow & Hy & _).
  destruct (Nat.eqb_spec i a) as [->|Hi]; cbn [andb].
  - destruct (Nat.eqb_spec j b) as [->|Hj].
    + unfold at2, cell, set_cell. rewrite Hrow.
      rewrite list_lookup_insert_eq by (now apply lookup_lt_Some in Hrow).
      cbn. rewrite list_lookup_insert_eq by (now apply lookup_lt_Some in Hy).
      reflexivity.
    + unfold at2. rewrite cell_set_cell by (now right). reflexivity.
  - unfold at2. rewrite cell_set_cell by (now left). reflexivity.
Qed.

Lemma sum_flow2d_cells (nx ny : nat) (H vf : list (list Q)) :
  (2 <= nx)%nat -> (2 <= ny)%nat ->
  grid nx ny H -> grid (nx + 2) (ny + 2) vf ->
  exists H',
    sum_flow2d H vf = Ok H' /\ grid nx ny H'
    /\ total H' == total H + (total vf - total (core vf))
    /\ forall i j, (i < nx)%nat -> (j < ny)%nat ->
         at2 H' i j == at2 H i j + flow_next vf nx ny i j.
Proof.
  intros Hnx Hny [HlenH HrowsH] [Hlenv Hrowsv].
  destruct (list_ends H) as (r0 & mid & rl & ->); [lia|].
  destruct (list_ends vf) as (f0 & fmid & fl & ->); [lia|].
  apply Forall_cons in HrowsH as [Hr0 HrowsH].
  apply Forall_app in HrowsH as [Hmid Hrl%Forall_inv].
  apply Forall_cons in Hrowsv as [Hf0 Hrowsv].
  apply Forall_app in Hrowsv as [Hfmid Hfl%Forall_inv].
  cbn beta in Hr0, Hrl, Hf0, Hfl.
  cbn in HlenH, Hlenv. rewrite length_app in HlenH, Hlenv. cbn in HlenH, Hlenv.
  destruct (list_ends f0) as (f00 & t0 & f0l & ->); [lia|].
  destruct (list_ends fl) as (fl0 & tl & fll & ->); [lia|].
  cbn in Hf0, Hfl. rewrite length_app in Hf0, Hfl. cbn in Hf0, Hfl.
  unfold sum_flow2d.
  change (row_first (r0 :: mid ++ [rl])) with (Ok r0). rewrite bind_Ok.
  change (row_first ((f00 :: t0 ++ [f0l]) :: fmid ++ [fl0 :: tl ++ [fll]]))
    with (Ok (f00 :: t0 ++ [f0l])).
  rewrite bind_Ok, !inner_ends.
  rewrite np_add_same, bind_Ok by lia.
  unfold row_last. rewrite !item_last_ends, !bind_Ok, !inner_ends.
  rewrite np_add_same, bind_Ok by lia.
  rewrite !length_zip_with.
  replace ((length r0 `min` length t0 =? length r0)%nat
           && (length rl `min` length tl =? length rl)%nat) with true
    by (symmetry; apply andb_true_iff; split; apply Nat.eqb_eq; lia).
  rewrite bind_Ok. cbv zeta.
  set (a := zip_with Qplus r0 t0). set (b := zip_with Qplus rl tl).
  assert (HH1 : <[last_index (r0 :: mid ++ [rl]) := b]>
                  (<[0%nat := a]> (r0 :: mid ++ [rl]))
                = a :: mid ++ [b]).
  { change (<[0%nat := a]> (r0 :: mid ++ [rl])) with (a :: mid ++ [rl]).
    unfold last_index.
    replace (pred (length (r0 :: mid ++ [rl]))) with (S (length mid + 0))
      by (cbn; rewrite length_app; cbn; lia).
    change (<[S (length mid + 0) := b]> (a :: mid ++ [rl]))
      with (a :: <[(length mid + 0)%nat := b]> (mid ++ [rl])).
    now rewrite insert_app_r. }
  rewrite HH1. clear HH1. set (H1 := a :: mid ++ [b]).
  assert (Hgrid1 : grid nx ny H1).
  { split; [subst H1; cbn; rewrite length_app; cbn; lia|].
    subst H1 a b. constructor; [rewrite length_zip_with; lia|].
    apply Forall_app. split; [exact Hmid|].
    constructor; [rewrite length_zip_with; lia|constructor]. }
  assert (Htotal1 : total H1 == total (r0 :: mid ++ [rl]) + Qsum t0 + Qsum tl).
  { subst H1 a b. rewrite !total_cons, !total_app, !total_cons.
    rewrite !Qsum_zip_plus by lia. ring. }
  assert (Hone : forall n (m : list (list Q)),
            Forall (fun r => length r = n) m -> (1 <= n)%nat ->
            Forall (fun r => (1 <= length r)%nat) m).
  { intros n m Hm Hn. eapply Forall_impl; [exact Hm|]. cbn. lia. }
  assert (Htwo : forall n (m : list (list Q)),
            Forall (fun r => length r = n) m -> (2 <= n)%nat ->
            Forall (fun r => (2 <= length r)%nat) m).
  { intros n m Hm Hn. eapply Forall_impl; [exact Hm|]. cbn. lia. }
  destruct Hgrid1 as [Hlen1 Hrows1].
  rewrite (col_first_ok H1), bind_Ok by (eapply Hone; [eassumption|lia]).
  rewrite (col_first_ok fmid), bind_Ok by (eapply Hone; [eassumption|lia]).
  assert (Hc0 : length (col0 H1) = length (col0 fmid)).
  { unfold col0. rewrite !length_fmap. lia. }
  rewrite np_add_same, bind_Ok by exact Hc0.
  rewrite (col_last_ok H1), bind_Ok by (eapply Hone; [eassumption|lia]).
  rewrite (col_last_ok fmid), bind_Ok by (eapply Hone; [eassumption|lia]).
  assert (HcL : length (colL H1) = length (colL fmid)).
  { unfold colL. rewrite !length_fmap. lia. }
  rewrite np_add_same, bind_Ok by exact HcL.
  set (A := zip_with Qplus (col0 H1) (col0 fmid)).
  set (B := zip_with Qplus (colL H1) (colL fmid)).
  assert (HA : length A = length H1).
  { subst A. unfold col0. rewrite length_zip_with, !length_fmap. lia. }
  assert (HB : length B = length H1).
  { subst B. unfold colL. rewrite length_zip_with, !length_fmap. lia. }
  unfold set_col at 2. rewrite HA, Nat.eqb_refl, bind_Ok.
  set (H2 := zip_with (fun row x => <[0%nat := x]> row) H1 A).
  assert (Hgrid2 : grid nx ny H2).
  { apply (grid_set_col nx ny (fun _ => 0%nat)); [now split|lia]. }
  assert (Htotal2 : total H2 == total H1 + Qsum (col0 fmid)).
  { subst H2. rewrite (total_set_col (fun _ => 0%nat) H1 (col0 H1)).
    - subst A. rewrite Qsum_zip_plus by exact Hc0. ring.
    - apply col0_lookup. eapply Hone; [eassumption|lia].
    - exact HA. }
  unfold set_col. destruct Hgrid2 as [Hlen2 Hrows2].
  replace (length B =? length H2)%nat with true
    by (symmetry; apply Nat.eqb_eq; lia).
  rewrite bind_Ok.
  set (H3 := zip_with (fun row x => <[last_index row := x]> row) H2 B).
  assert (Hgrid3 : grid nx ny H3).
  { apply (grid_set_col nx ny last_index); [now split|lia]. }
  assert (Htotal3 : total H3 == total H2 + Qsum (colL fmid)).
  { subst H3. rewrite (total_set_col last_index H2 (colL H2)).
    - subst H2. rewrite colL_set_first;
        [|eapply Htwo; [eassumption|lia]|exact HA].
      subst B. rewrite Qsum_zip_plus by exact HcL. ring.
    - apply colL_lookup. eapply Hone; [eassumption|lia].
    - lia. }
  destruct (cell_grid nx ny H3 0 0 Hgrid3) as (row0 & h00 & Hrow0 & Hh00 & C00);
    [lia|lia|].
  destruct (cell_grid nx ny H3 0 (ny - 1) Hgrid3)
    as (row0' & h0l & Hrow0' & Hh0l & C0l); [lia|lia|].
  destruct (cell_grid nx ny H3 (nx - 1) 0 Hgrid3)
    as (rowl & hl0 & Hrowl & Hhl0 & Cl0); [lia|lia|].
  destruct (cell_grid nx ny H3 (nx - 1) (ny - 1) Hgrid3)
    as (rowl' & hll & Hrowl' & Hhll & Cll); [lia|lia|].
  assert (row0' = row0) by congruence. subst row0'.
  assert (rowl' = rowl) by congruence. subst rowl'.
  assert (Hlast3 : last_index H3 = (nx - 1)%nat).
  { unfold last_index. destruct Hgrid3 as [-> _]. lia. }
  assert (Hlast0 : last_index row0 = (ny - 1)%nat).
  { unfold last_index. destruct Hgrid3 as [_ Hrows3].
    rewrite (proj1 (Forall_lookup _ _) Hrows3 _ _ Hrow0). lia. }
  assert (Hlastl : last_index rowl = (ny - 1)%nat).
  { unfold last_index. destruct Hgrid3 as [_ Hrows3].
    rewrite (proj1 (Forall_lookup _ _) Hrows3 _ _ Hrowl). lia. }
  unfold row_first. rewrite (item0_lookup H3 row0 Hrow0), bind_Ok.
  rewrite (item_last_lookup H3 rowl), bind_Ok by (now rewrite Hlast3).
  rewrite (item0_lookup row0 h00 Hh00), bind_Ok.
  rewrite (item_last_lookup rowl hll), bind_Ok by (now rewrite Hlastl).
  rewrite (item_last_lookup row0 h0l), bind_Ok by (now rewrite Hlast0).
  rewrite (item0_lookup rowl hl0 Hhl0), bind_Ok.
  change (item0 (f00 :: t0 ++ [f0l])) with (Ok f00). rewrite bind_Ok.
  rewrite !item_last_ends, !bind_Ok.
  change (item0 (fl0 :: tl ++ [fll])) with (Ok fl0). rewrite bind_Ok.
  rewrite Hlast3, Hlast0.
  destruct (corners_total nx ny H3 f00 fll f0l fl0 h00 hll h0l hl0
              Hnx Hny Hgrid3 C00 Cll C0l Cl0) as [Hgrid4 Htotal4].
  eexists. split; [reflexivity|]. split; [exact Hgrid4|]. split.
  { unfold set_cell in Htotal4. rewrite Htotal4, Htotal3, Htotal2, Htotal1.
    unfold core. rewrite inner_ends.
    rewrite !total_cons, !total_app, !total_cons.
    rewrite !Qsum_ends. change (total []) with 0.
    rewrite (total_inner fmid) by (eapply Htwo; [eassumption|lia]).
    ring. }
  intros i j Hi Hj.
  change (at2 (set_cell (nx - 1) 0 (fl0 + hl0)
                 (set_cell 0 (ny - 1) (f0l + h0l)
                    (set_cell (nx - 1) (ny - 1) (fll + hll)
                       (set_cell 0 0 (f00 + h00) H3)))) i j
          == at2 (r0 :: mid ++ [rl]) i j
             + flow_next ((f00 :: t0 ++ [f0l])
                            :: fmid ++ [fl0 :: tl ++ [fll]]) nx ny i j).
  set (H0 := r0 :: mid ++ [rl]).
  set (vf := (f00 :: t0 ++ [f0l]) :: fmid ++ [fl0 :: tl ++ [fll]]).
  assert (Hgridf : grid nx (ny + 2) fmid) by (split; [lia|exact Hfmid]).
  (* the rows *)
  assert (F1 : at2 H1 i j
               = if (i =? 0)%nat then at2 H0 i j + default 0 (t0 !! j)
                 else if (i =? nx - 1)%nat
                      then at2 H0 i j + default 0 (tl !! j)
                      else at2 H0 i j).
  { subst H1 H0 a b. destruct (Nat.eqb_spec i 0) as [->|Hi0].
    - rewrite !at2_cons_0. apply default_zip_plus; lia.
    - destruct i as [|i']; [lia|]. rewrite !at2_cons_S.
      destruct (Nat.eqb_spec (S i') (nx - 1)) as [Hil|Hil].
      + assert (i' = length mid) as -> by lia.
        rewrite !at2_app_last. apply default_zip_plus; lia.
      + rewrite !at2_app_l by lia. reflexivity. }
  (* the columns *)
  assert (F3 : at2 H3 i j
               = if (j =? ny - 1)%nat then at2 H1 i j + at2 fmid i (S ny)
                 else if (j =? 0)%nat then at2 H1 i j + at2 fmid i 0
                      else at2 H1 i j).
  { subst H3.
    rewrite (at2_set_col nx ny last_index (ny - 1)%nat);
      [|now split|lia|intros row Hrow; unfold last_index; lia|lia|lia].
    destruct (Nat.eqb_spec j (ny - 1)) as [->|Hjl].
    - subst B. rewrite default_zip_plus by (unfold colL; rewrite length_fmap; lia).
      rewrite (at2_colL nx ny H1), (at2_colL nx (ny + 2) fmid);
        [|exact Hgridf|lia|lia|now split|lia|lia].
      now replace (ny + 2 - 1)%nat with (S ny) by lia.
    - subst H2.
      rewrite (at2_set_col nx ny (fun _ => 0%nat) 0%nat);
        [|now split|lia|reflexivity|lia|lia].
      destruct (Nat.eqb_spec j 0) as [->|Hj0]; [|reflexivity].
      subst A. rewrite default_zip_plus by (unfold col0; rewrite length_fmap; lia).
      rewrite (at2_col0 nx ny H1), (at2_col0 nx (ny + 2) fmid);
        [reflexivity|exact Hgridf|lia|lia|now split|lia|lia]. }
  (* the corners *)
  assert (F4 : at2 (set_cell (nx - 1) 0 (fl0 + hl0)
                      (set_cell 0 (ny - 1) (f0l + h0l)
                         (set_cell (nx - 1) (ny - 1) (fll + hll)
                            (set_cell 0 0 (f00 + h00) H3)))) i j
               = if (i =? nx - 1)%nat && (j =? 0)%nat
                 then fl0 + at2 H3 i j
                 else if (i =? 0)%nat && (j =? ny - 1)%nat
                 then f0l + at2 H3 i j
                 else if (i =? nx - 1)%nat && (j =? ny - 1)%nat
                 then fll + at2 H3 i j
                 else if (i =? 0)%nat && (j =? 0)%nat
                 then f00 + at2 H3 i j
                 else at2 H3 i j).
  { rewrite !(at2_set_cell nx ny)
      by (try lia; repeat apply grid_set_cell; exact Hgrid3).
    rewrite <- (at2_cell _ _ _ _ C00), <- (at2_cell _ _ _ _ Cll),
            <- (at2_cell _ _ _ _ C0l), <- (at2_cell _ _ _ _ Cl0).
    destruct (Nat.eqb_spec i (nx - 1)) as [->|Hil],
             (Nat.eqb_spec j 0) as [->|Hj0]; cbn [andb]; try reflexivity.
    - destruct (Nat.eqb_spec (nx - 1) 0); [lia|]. cbn [andb].
      destruct (Nat.eqb_spec j (ny - 1)) as [->|Hjl]; reflexivity.
    - destruct (Nat.eqb_spec i 0) as [->|Hi0]; cbn [andb]; [|reflexivity].
      destruct (Nat.eqb_spec 0 (ny - 1)); [lia|]. reflexivity.
    - destruct (Nat.eqb_spec i 0) as [->|Hi0]; cbn [andb]; [|reflexivity].
      destruct (Nat.eqb_spec j (ny - 1)) as [->|Hjl]; reflexivity. }
  (* the grid with flow bins *)
  assert (V0 : at2 vf 0 (S j) = default 0 (t0 !! j)).
  { subst vf. rewrite at2_cons_0.
    change ((f00 :: t0 ++ [f0l]) !! S j) with ((t0 ++ [f0l]) !! j).
    apply default_app_l. lia. }
  assert (VL : at2 vf (S nx) (S j) = default 0 (tl !! j)).
  { subst vf. rewrite at2_cons_S.
    replace nx with (length fmid) by lia. rewrite at2_app_last.
    change ((fl0 :: tl ++ [fll]) !! S j) with ((tl ++ [fll]) !! j).
    apply default_app_l. lia. }
  assert (Vm : forall c, at2 vf (S i) c = at2 fmid i c).
  { intros c. subst vf. rewrite at2_cons_S. apply at2_app_l. lia. }
  assert (V00 : at2 vf 0 0 = f00) by reflexivity.
  assert (V0l : at2 vf 0 (S ny) = f0l).
  { subst vf. rewrite at2_cons_0.
    change ((f00 :: t0 ++ [f0l]) !! S ny) with ((t0 ++ [f0l]) !! ny).
    replace ny with (length t0) by lia. apply default_snoc. }
  assert (Vl0 : at2 vf (S nx) 0 = fl0).
  { subst vf. rewrite at2_cons_S.
    replace nx with (length fmid) by lia. now rewrite at2_app_last. }
  assert (Vll : at2 vf (S nx) (S ny) = fll).
  { subst vf. rewrite at2_cons_S.
    replace nx with (length fmid) by lia. rewrite at2_app_last.
    change ((fl0 :: tl ++ [fll]) !! S ny) with ((tl ++ [fll]) !! ny).
    replace ny with (length tl) by lia. apply default_snoc. }
  rewrite F4, F3, F1. unfold flow_next, edge_of.
  clearbody vf H0 H1 H2 H3.
  destruct (Nat.eqb_spec i 0) as [Hi0|Hi0],
           (Nat.eqb_spec i (nx - 1)) as [Hil|Hil]; try (exfalso; lia);
    destruct (Nat.eqb_spec j 0) as [Hj0|Hj0],
             (Nat.eqb_spec j (ny - 1)) as [Hjl|Hjl]; try (exfalso; lia);
    cbn [andb app fmap list_fmap concat];
    rewrite ?Qsum_cons; change (Qsum []) with 0;
    rewrite ?V0, ?VL, ?Vm, ?V00, ?V0l, ?Vl0, ?Vll; ring.
Qed.

Lemma grid_core (nx ny : nat) (vf : list (list Q)) :
  grid (nx + 2) (ny + 2) vf -> grid nx ny (core vf).
Proof.
  intros [Hlen Hrows]. unfold core.
  destruct (list_ends vf) as (f0 & fmid & fl & ->); [lia|].
  rewrite inner_ends. cbn in Hlen. rewrite length_app in Hlen. cbn in Hlen.
  apply Forall_cons in Hrows as [_ Hrows].
  apply Forall_app in Hrows as [Hrows _]. split.
  - rewrite length_fmap. lia.
  - apply Forall_fmap. eapply Forall_impl; [exact Hrows|].
    intros r Hr. cbn in *. rewrite length_inner. lia.
Qed.

(** X22: with [flow="sum"], [hist2dplot] draws a grid of the shape of the
    histogram that holds all of its content, the flow bins included: every
    flow cell is added to the cell next to it.  Cell [(i, j)] of the drawn
    grid is the cell of the histogram plus [flow_next]: the flow cells of
    its row if it is in the first or the last column, those of its column
    if it is in the first or the last row, and the flow cell off the corner
    if it is a corner.  This needs two bins or more on each axis. *)
Theorem hist2dplot_sum_keeps_content (nx ny : nat) (h : Hist2D)
    (xbins ybins : list Q) (ax : ax_arg) :
  (2 <= nx)%nat -> (2 <= ny)%nat ->
  ax <> AxOther -> h2_flow_arg h = true ->
  grid (nx + 2) (ny + 2) (h2_values_flow h) ->
  h2_values h = core (h2_values_flow h) ->
  exists g,
    hist2dplot h xbins ybins ax (Some "sum")
    = ([Pcolormesh (g_H g) xbins ybins], Ok g)
    /\ grid nx ny (g_H g)
    /\ total (g_H g) == total (h2_values_flow h)
    /\ forall i j, (i < nx)%nat -> (j < ny)%nat ->
         at2 (g_H g) i j
         == at2 (h2_values h) i j + flow_next (h2_values_flow h) nx ny i j.
Proof.
  intros Hnx Hny Hax Harg Hgrid Hcore.
  destruct (sum_flow2d_cells nx ny (h2_values h) (h2_values_flow h))
    as (H' & Hrun & Hgrid' & Htotal & Hcells); try assumption.
  { rewrite Hcore. now apply grid_core. }
  exists (mkGrid2D H' xbins ybins None (Some "sum") false).
  split; [|split; [exact Hgrid'|split; [|exact Hcells]]].
  - unfold hist2dplot, flow2d.
    replace (check_ax ax) with (Ok tt : result unit)
      by (now destruct ax).
    rewrite bind_Ok, Harg. cbn [negb andb].
    change (flow_in (Some "sum") ["hint"; "show"]) with false.
    change (flow_is (Some "sum") "sum") with true. cbv iota.
    rewrite Hrun, bind_Ok. reflexivity.
  - cbn [g_H]. rewrite Htotal, Hcore. ring.
Qed.

Lemma hist2dplot_sum_keeps_content_witness :
  let vf := [[1; 2; 3; 4]; [5; 6; 7; 8]; [9; 10; 11; 12]; [13; 14; 15; 16]] in
  let h := mkHist2D [[6; 7]; [10; 11]] vf vf true in
  exists g,
    hist2dplot h [0; 1; 2] [0; 1; 2] AxNone (Some "sum")
    = ([Pcolormesh (g_H g) [0; 1; 2] [0; 1; 2]], Ok g)
    /\ grid 2 2 (g_H g)
    /\ total (g_H g) == total vf
    /\ forall i j, (i < 2)%nat -> (j < 2)%nat ->
         at2 (g_H g) i j == at2 [[6; 7]; [10; 11]] i j + flow_next vf 2 2 i j.
Proof.
  intros vf h.
  apply (hist2dplot_sum_keeps_content 2 2 h [0; 1; 2] [0; 1; 2] AxNone);
    try lia; try reflexivity; try discriminate.
  split; [reflexivity|]. repeat constructor.
Defined.

(** The grid drawn for a histogram of two by two cells whose grid with
    flow bins counts from 1 to 16: each cell takes the three flow cells
    around its corner. *)
Example sum_of_two_by_two :
  let vf := [[1; 2; 3; 4]; [5; 6; 7; 8]; [9; 10; 11; 12]; [13; 14; 15; 16]] in
  fst (hist2dplot (mkHist2D [[6; 7]; [10; 11]] vf vf true)
         [0; 1; 2] [0; 1; 2] AxNone (Some "sum"))
  = [Pcolormesh [[14; 22]; [46; 54]] [0; 1; 2] [0; 1; 2]].
Proof. reflexivity. Qed.

(** With a single row the content of the lower flow row is lost: both rows
    of the first assignment are the same row, and the second value stays. *)
Example sum_of_one_row :
  sum_flow2d [[1; 1]] [[0; 5; 5; 0]; [0; 1; 1; 0]; [0; 7; 7; 0]]
  = Ok [[8; 8]].
Proof. reflexivity. Qed.

(** ** Bin centres and cell labels *)

Lemma length_diff (l : list Q) : length (diff l) = pred (length l).
Proof.
  induction l as [|a t IH]; [reflexivity|].
  destruct t as [|b t]; [reflexivity|].
  change (diff (a :: b :: t)) with ((b - a) :: diff (b :: t)).
  cbn [length] in *. now rewrite IH.
Qed.

Lemma diff_lookup (l : list Q) :
  forall i lo hi,
    l !! i = Some lo -> l !! S i = Some hi -> diff l !! i = Some (hi - lo).
Proof.
  induction l as [|a t IH]; intros i lo hi Hlo Hhi; [discriminate|].
  destruct t as [|b t]; [discriminate|].
  change (diff (a :: b :: t)) with ((b - a) :: diff (b :: t)).
  destruct i as [|i].
  - cbn in Hlo, Hhi. injection Hlo as ->. now injection Hhi as ->.
  - apply (IH i lo hi); assumption.
Qed.

Lemma length_bin_centers (bins : list Q) :
  length (bin_centers bins) = pred (length bins).
Proof.
  unfold bin_centers, but_first.
  rewrite length_zip_with, length_drop, length_diff. lia.
Qed.

(** X23: there is one bin centre per bin, and it is the midpoint of the
    bin. *)
Theorem bin_centers_midpoints (bins : list Q) :
  length (bin_centers bins) = pred (length bins)
  /\ forall i lo hi,
       bins !! i = Some lo -> bins !! S i = Some hi ->
       exists c, bin_centers bins !! i = Some c /\ c == (lo + hi) / 2.
Proof.
  unfold bin_centers, but_first. split.
  - rewrite length_zip_with, length_drop, length_diff. lia.
  - intros i lo hi Hlo Hhi. exists (hi - (hi - lo) / 2). split.
    + apply lookup_zip_with_Some. exists hi, (hi - lo).
      split; [reflexivity|]. split; [now rewrite lookup_drop|].
      now apply diff_lookup.
    + field.
Qed.

Lemma omap_lookup_all {A B} (f : A -> option B) (m : list A) :
  Forall (fun r => is_Some (f r)) m ->
  forall i, omap f m !! i = m !! i ≫= f.
Proof.
  induction 1 as [|r m [y Hy] _ IH]; intros i; [reflexivity|].
  rewrite omap_cons, Hy. destruct i as [|i]; [now cbn; rewrite Hy|].
  apply IH.
Qed.

Lemma shape2_grid {A} (nx ny : nat) (m : list (list A)) :
  (1 <= nx)%nat -> grid_of nx ny m -> shape2 m = (nx, ny).
Proof.
  intros Hnx [Hlen Hrows]. unfold shape2. rewrite Hlen. f_equal.
  destruct m as [|r m]; [cbn in Hlen; lia|]. cbn.
  now apply Forall_inv in Hrows.
Qed.

Lemma item2_lookup {A} (m : list (list A)) (i j : nat) (row : list A)
    (x : A) :
  m !! i = Some row -> row !! j = Some x -> item2 m i j = Ok x.
Proof. intros Hi Hj. unfold item2, lookup_item. now rewrite Hi, bind_Ok, Hj. Qed.

Lemma transpose_item {A} (nx ny : nat) (m : list (list A)) (ix iy : nat)
    (row : list A) (x : A) :
  grid_of nx ny m -> m !! ix = Some row -> row !! iy = Some x ->
  item2 (transpose m) iy ix = Ok x.
Proof.
  intros Hgrid Hrow Hx.
  assert (Hnx : (1 <= nx)%nat).
  { destruct Hgrid as [<- _]. apply lookup_lt_Some in Hrow. lia. }
  assert (Hiy : (iy < ny)%nat).
  { destruct Hgrid as [_ Hrows].
    rewrite <- (proj1 (Forall_lookup _ _) Hrows _ _ Hrow).
    now apply lookup_lt_Some in Hx. }
  apply (item2_lookup _ _ _ (omap (fun r => r !! iy) m)).
  - unfold transpose. rewrite (shape2_grid nx ny) by assumption. cbn [snd].
    rewrite list_lookup_fmap, lookup_seq_lt by exact Hiy. reflexivity.
  - rewrite omap_lookup_all, Hrow; [exact Hx|].
    destruct Hgrid as [_ Hrows]. eapply Forall_impl; [exact Hrows|].
    intros r Hr. cbn in *. apply lookup_lt_is_Some. lia.
Qed.

Lemma item2_fmap {A B} (f : A -> B) (m : list (list A)) (i j : nat) (x : A) :
  item2 m i j = Ok x ->
  item2 (fmap (M:=list) f <$> m) i j = Ok (f x).
Proof.
  unfold item2, lookup_item. rewrite list_lookup_fmap.
  destruct (m !! i) as [row|]; [|discriminate]. cbn.
  rewrite list_lookup_fmap. destruct (row !! j); [|discriminate].
  now intros [= ->].
Qed.

Lemma for_enumerate_zip {A B C} (f : nat -> A -> result (list B))
    (G : A -> C -> list B) (cells : list C) :
  forall xs k,
    (length xs + k <= length cells)%nat ->
    (forall i x c, xs !! i = Some x -> cells !! (k + i)%nat = Some c ->
                   f (k + i)%nat x = Ok (G x c)) ->
    for_enumerate f k xs = Ok (concat (zip_with G xs (drop k cells))).
Proof.
  induction xs as [|x xs IH]; intros k Hlen Hf; [reflexivity|].
  cbn [length] in Hlen.
  destruct (lookup_lt_is_Some_2 cells k) as [c Hc]; [lia|].
  cbn [for_enumerate]. rewrite <- (Nat.add_0_r k) at 1.
  rewrite (Hf 0%nat x c), bind_Ok by (rewrite ?Nat.add_0_r; easy).
  rewrite (IH (S k)), bind_Ok.
  - now rewrite (drop_S _ _ _ Hc).
  - lia.
  - intros i x' c' Hx' Hc'.
    replace (S k + i)%nat with (k + S i)%nat in * by lia.
    now apply Hf.
Qed.

Lemma concat_zip_singleton {A B C} (g : A -> B -> C) (l : list A) :
  forall k, concat (zip_with (fun x y => [g x y]) l k) = zip_with g l k.
Proof.
  induction l as [|x l IH]; intros [|y k]; try reflexivity.
  cbn. now rewrite IH.
Qed.

(** The two loops over a labelled grid. *)
Lemma cell_texts_grid {A L} (show : A -> cell_text L) (nx ny : nat)
    (Ht : list (list (option Q))) (lt : list (list (cell_text L)))
    (cells : list (list A)) (xcs ycs : list Q) :
  grid_of nx ny cells -> length xcs = nx -> length ycs = ny ->
  (forall ix iy row c, cells !! ix = Some row -> row !! iy = Some c ->
     (exists v, item2 Ht iy ix = Ok v) /\ item2 lt iy ix = Ok (show c)) ->
  cell_texts Ht (Some lt) xcs ycs = Ok (texts_of show xcs ycs cells).
Proof.
  intros [Hlen Hrows] Hxcs Hycs Hcells. unfold cell_texts, texts_of.
  rewrite (for_enumerate_zip _
             (fun xc row => zip_with (fun yc c => (xc, yc, show c)) ycs row)
             cells); [now rewrite drop_0|lia|].
  intros ix xc row _ Hrow. cbn [Nat.add] in *.
  assert (Hr : length row = ny)
    by exact (proj1 (Forall_lookup _ _) Hrows _ _ Hrow).
  rewrite (for_enumerate_zip _ (fun yc c => [(xc, yc, show c)]) row);
    [now rewrite drop_0, concat_zip_singleton|lia|].
  intros iy yc c _ Hc. cbn [Nat.add] in *.
  destruct (Hcells ix iy row c Hrow Hc) as [[v Hv] Hlab].
  now rewrite Hv, bind_Ok, Hlab, bind_Ok.
Qed.

Lemma rectangular_grid {A} (nx ny : nat) (rows : list (list A)) :
  (1 <= nx)%nat ->
  rectangular rows && bool_decide ((ny, nx) = shape_T (shape2 rows)) = true
  <-> grid_of nx ny rows.
Proof.
  intros Hnx. rewrite andb_true_iff, bool_decide_eq_true. unfold rectangular.
  rewrite forallb_forall. split.
  - intros [Hrect [= Hny Hlen]]. split; [now symmetry|].
    apply Forall_forall. intros r Hr%list_elem_of_In.
    apply Hrect, Nat.eqb_eq in Hr. cbn in Hr. congruence.
  - intros Hgrid. rewrite (shape2_grid nx ny) by assumption. split.
    + intros r Hr%list_elem_of_In. apply Nat.eqb_eq. cbn.
      destruct Hgrid as [_ Hrows].
      exact (proj1 (Forall_forall _ _) Hrows _ Hr).
    + reflexivity.
Qed.

Lemma cut_taken (dtype : grid_dtype) (cmin cmax : option Q)
    (H : list (list Q)) :
  takes_cuts dtype cmin cmax ->
  cut dtype cmin cmax H = Ok (fmap (M:=list) (cut_cell cmin cmax) <$> H).
Proof.
  unfold cut. intros [-> | [-> ->]]; [reflexivity|]. now destruct dtype.
Qed.

Lemma cut_refused (dtype : grid_dtype) (cmin cmax : option Q)
    (H : list (list Q)) :
  ~ takes_cuts dtype cmin cmax ->
  exists msg, cut dtype cmin cmax H = Raise (TypeError msg).
Proof.
  unfold cut, takes_cuts. intros Hno.
  destruct dtype; [|exfalso; apply Hno; now left].
  destruct cmin as [lo|]; [now eexists|].
  destruct cmax as [hi|]; [now eexists|].
  exfalso. apply Hno. now right.
Qed.

(** X24: on a grid that takes the cuts, a nested list of labels is taken
    exactly when it has the shape of the grid that is drawn, indexed as the
    histogram is, x first; anything else is a [ValueError].  Each cell then
    gets one text, at the centre of the cell, with the label at the cell's
    own indices. *)
Theorem hist2d_labels_array {L} (nx ny : nat) (g : Grid2D)
    (dtype : grid_dtype) (cmin cmax : option Q) (rows : list (list L)) :
  drawn nx ny g -> takes_cuts dtype cmin cmax ->
  (grid_of nx ny rows ->
     hist2d_texts dtype g cmin cmax (LabelsArray rows)
     = Ok (texts_of GivenText (bin_centers (g_xbins g))
                    (bin_centers (g_ybins g)) rows))
  /\ (~ grid_of nx ny rows ->
      exists msg,
        hist2d_texts dtype g cmin cmax (LabelsArray rows)
        = Raise (ValueError msg)).
Proof.
  intros (Hnx & Hny & HgridH & Hxb & Hyb) Hcuts. unfold hist2d_texts.
  rewrite (cut_taken _ _ _ _ Hcuts), bind_Ok. unfold read_labels.
  rewrite (shape2_grid nx ny (g_H g)) by assumption.
  change (shape_T (nx, ny)) with (ny, nx).
  split; intros Hrows.
  - rewrite (proj2 (rectangular_grid nx ny rows Hnx) Hrows), bind_Ok.
    apply (cell_texts_grid GivenText nx ny); try assumption.
    + rewrite length_bin_centers, Hxb. reflexivity.
    + rewrite length_bin_centers, Hyb. reflexivity.
    + intros ix iy row c Hrow Hc. split.
      * destruct HgridH as [HlenH HrowsH].
        destruct (lookup_lt_is_Some_2 (g_H g) ix) as [hrow Hhrow].
        { rewrite HlenH. destruct Hrows as [<- _].
          now apply lookup_lt_Some in Hrow. }
        destruct (lookup_lt_is_Some_2 hrow iy) as [h Hh].
        { rewrite (proj1 (Forall_lookup _ _) HrowsH _ _ Hhrow).
          destruct Hrows as [_ Hrows].
          rewrite <- (proj1 (Forall_lookup _ _) Hrows _ _ Hrow).
          now apply lookup_lt_Some in Hc. }
        exists (cut_cell cmin cmax h). apply item2_fmap.
        now apply (transpose_item nx ny _ _ _ hrow).
      * apply item2_fmap. now apply (transpose_item nx ny _ _ _ row).
  - destruct (rectangular rows && _) eqn:Hok.
    + now apply rectangular_grid in Hok.
    + eexists. reflexivity.
Qed.

Lemma hist2d_labels_array_witness :
  let g := mkGrid2D [[1; 2]; [3; 4]] [0; 1; 2] [0; 2; 4] None None false in
  let rows := [["a"; "b"]; ["c"; "d"]] in
  (grid_of 2 2 rows ->
     hist2d_texts FloatGrid g (Some 2) None (LabelsArray rows)
     = Ok (texts_of GivenText (bin_centers (g_xbins g))
                    (bin_centers (g_ybins g)) rows))
  /\ (~ grid_of 2 2 rows ->
      exists msg,
        hist2d_texts FloatGrid g (Some 2) None (LabelsArray rows)
        = Raise (ValueError msg)).
Proof.
  intros g rows.
  apply (hist2d_labels_array 2 2 g FloatGrid (Some 2) None rows);
    [|now left].
  split; [lia|]. split; [lia|]. split; [|now split].
  split; [reflexivity|]. repeat constructor.
Defined.

Lemma cut_kept (cmin cmax : option Q) (x : Q) :
  (cut_cell cmin cmax x = Some x
   <-> (forall c, cmin = Some c -> c <= x)
       /\ (forall c, cmax = Some c -> x <= c))
  /\ (cut_cell cmin cmax x = Some x \/ cut_cell cmin cmax x = None).
Proof.
  unfold cut_cell. split.
  - destruct cmin as [lo|], cmax as [hi|]; cbn [orb].
    + destruct (Qgtb lo x) eqn:Hlo; cbn [orb].
      * apply Qgtb_true in Hlo. split; [discriminate|].
        intros [H _]. specialize (H lo eq_refl).
        exfalso. exact (Qlt_not_le _ _ Hlo H).
      * apply Qgtb_false in Hlo. destruct (Qgtb x hi) eqn:Hhi.
        -- apply Qgtb_true in Hhi. split; [discriminate|].
           intros [_ H]. specialize (H hi eq_refl).
           exfalso. exact (Qlt_not_le _ _ Hhi H).
        -- apply Qgtb_false in Hhi. split; [|reflexivity].
           intros _. split; now intros c [= <-].
    + destruct (Qgtb lo x) eqn:Hlo; cbn [orb].
      * apply Qgtb_true in Hlo. split; [discriminate|].
        intros [H _]. specialize (H lo eq_refl).
        exfalso. exact (Qlt_not_le _ _ Hlo H).
      * apply Qgtb_false in Hlo. split; [|reflexivity].
        intros _. split; [now intros c [= <-]|discriminate].
    + destruct (Qgtb x hi) eqn:Hhi.
      * apply Qgtb_true in Hhi. split; [discriminate|].
        intros [_ H]. specialize (H hi eq_refl).
        exfalso. exact (Qlt_not_le _ _ Hhi H).
      * apply Qgtb_false in Hhi. split; [|reflexivity].
        intros _. split; [discriminate|now intros c [= <-]].
    + split; [|reflexivity]. intros _. split; discriminate.
  - destruct (_ || _); [now right|now left].
Qed.

(** X25: with [labels=True], on a grid of floats or without cuts, every
    cell that is drawn gets one text, at its centre, that shows the cell's
    own value; a value below [cmin] or above [cmax] is cut and shows as no
    number, the bounds themselves are kept.  On a grid of integers a cut
    raises a [TypeError], and there are no texts. *)
Theorem hist2d_labels_values (nx ny : nat) (g : Grid2D)
    (dtype : grid_dtype) (cmin cmax : option Q) :
  drawn nx ny g ->
  (takes_cuts dtype cmin cmax ->
   hist2d_texts (L:=string) dtype g cmin cmax (LabelsBool true)
   = Ok (texts_of (fun x => ValueText (cut_cell cmin cmax x))
                  (bin_centers (g_xbins g)) (bin_centers (g_ybins g))
                  (g_H g)))
  /\ (~ takes_cuts dtype cmin cmax ->
      exists msg,
        hist2d_texts (L:=string) dtype g cmin cmax (LabelsBool true)
        = Raise (TypeError msg))
  /\ forall x,
       (cut_cell cmin cmax x = Some x
        <-> (forall c, cmin = Some c -> c <= x)
            /\ (forall c, cmax = Some c -> x <= c))
       /\ (cut_cell cmin cmax x = Some x \/ cut_cell cmin cmax x = None).
Proof.
  intros (Hnx & Hny & HgridH & Hxb & Hyb).
  split; [|split; [|apply cut_kept]].
  - intros Hcuts. unfold hist2d_texts.
    rewrite (cut_taken _ _ _ _ Hcuts), bind_Ok.
    unfold read_labels. rewrite bind_Ok.
    apply (cell_texts_grid _ nx ny); try assumption.
    + rewrite length_bin_centers, Hxb. reflexivity.
    + rewrite length_bin_centers, Hyb. reflexivity.
    + intros ix iy row c Hrow Hc.
      assert (Hcut : item2 (fmap (M:=list) (cut_cell cmin cmax)
                              <$> transpose (g_H g))
                           iy ix = Ok (cut_cell cmin cmax c)).
      { apply item2_fmap. now apply (transpose_item nx ny _ _ _ row). }
      split; [exists (cut_cell cmin cmax c); exact Hcut|].
      exact (item2_fmap ValueText _ _ _ _ Hcut).
  - intros Hno. unfold hist2d_texts.
    destruct (cut_refused dtype cmin cmax (transpose (g_H g)) Hno)
      as [msg ->].
    now exists msg.
Qed.

Lemma hist2d_labels_values_witness :
  let g := mkGrid2D [[1; 2]; [3; 4]] [0; 1; 2] [0; 2; 4] None None false in
  hist2d_texts (L:=string) FloatGrid g (Some 2) None (LabelsBool true)
  = Ok (texts_of (fun x => ValueText (cut_cell (Some 2) None x))
                 (bin_centers (g_xbins g)) (bin_centers (g_ybins g))
                 (g_H g)).
Proof.
  intros g.
  apply (hist2d_labels_values 2 2 g FloatGrid (Some 2) None); [|now left].
  split; [lia|]. split; [lia|]. split; [|now split].
  split; [reflexivity|]. repeat constructor.
Defined.

(** A grid of integers takes no cut: no text is made. *)
Example cut_of_integers :
  let g := mkGrid2D [[1; 2]; [3; 4]] [0; 1; 2] [0; 2; 4] None None false in
  exists msg,
    hist2d_texts (L:=string) IntGrid g (Some 2) None (LabelsBool true)
    = Raise (TypeError msg).
Proof. eexists. reflexivity. Qed.

(** Labels of the shape of the histogram do not fit the grid that
    [flow="show"] draws when a flow bin is filled. *)
Example labels_under_show :
  let vf := [[0; 9; 0]; [0; 1; 0]; [0; 0; 0]] in
  let h := mkHist2D [[1]] vf vf true in
  match hist2dplot h [0; 1] [0; 1] AxNone (Some "show") with
  | (_, Ok g) =>
      g_H g = [[9]; [1]]
      /\ exists msg,
           hist2d_texts FloatGrid g None None (LabelsArray [["one"]])
           = Raise (ValueError msg)
  | _ => False
  end.
Proof. cbn. split; [reflexivity|]. eexists. reflexivity. Qed.

(** ** The text box that is measured *)

Lemma last_filter_split {A} (P : A -> Prop) `{forall x, Decision (P x)}
    (l : list A) (x : A) :
  last (filter P l) = Some x
  <-> exists pre post,
        l = pre ++ x :: post /\ P x /\ Forall (fun y => ~ P y) post.
Proof.
  split.
  - induction l as [|y l IH] using rev_ind; [discriminate|].
    rewrite filter_app, filter_cons, filter_nil.
    destruct (decide (P y)) as [Hy|Hy].
    + rewrite last_snoc. intros [= ->]. exists l, []. now repeat split.
    + rewrite app_nil_r. intros (pre & post & -> & Hx & Hpost)%IH.
      exists pre, (post ++ [y]). split; [now rewrite <- app_assoc|].
      split; [exact Hx|]. apply Forall_app. split; [exact Hpost|].
      now constructor.
  - intros (pre & post & -> & Hx & Hpost).
    rewrite filter_app, filter_cons, decide_True by exact Hx.
    rewrite (filter_none P post Hpost).
    now rewrite last_snoc.
Qed.

(** X26: which text box is measured.  A single one is, wherever it sits; of
    several, the last one at the upper right or upper left is.  Without any
    text box the code raises an [IndexError], and with several of which
    none sits there an [UnboundLocalError]. *)
Theorem text_box_measured {Box} (textboxes : list (Z * Box)) (b : Box) :
  (_draw_text_bbox textboxes = Ok b
   <-> (exists loc, textboxes = [(loc, b)])
       \/ ((2 <= length textboxes)%nat
           /\ exists pre post loc,
                textboxes = pre ++ (loc, b) :: post
                /\ upper (loc, b)
                /\ Forall (fun box => ~ upper box) post))
  /\ (textboxes = [] -> _draw_text_bbox textboxes = Raise IndexError)
  /\ ((2 <= length textboxes)%nat ->
      Forall (fun box => ~ upper box) textboxes ->
      _draw_text_bbox textboxes = Raise UnboundLocalError).
Proof.
  unfold _draw_text_bbox, upper.
  set (P := fun box : Z * Box => box.1 ∈ [1%Z; 2%Z]).
  split; [|split].
  - destruct (Nat.ltb_spec 1 (length textboxes)) as [Hmany|Hfew].
    + split.
      * destruct (last (filter _ textboxes)) as [[loc b']|] eqn:Hlast;
          [|discriminate].
        intros [= ->]. right. split; [lia|].
        apply (last_filter_split P) in Hlast
          as (pre & post & -> & Hx & Hpost).
        exists pre, post, loc. split; [reflexivity|]. split; [exact Hx|exact Hpost].
      * intros [[loc ->]|[_ (pre & post & loc & -> & Hx & Hpost)]];
          [cbn in Hmany; lia|].
        assert (Hlast : last (filter P (pre ++ (loc, b) :: post))
                        = Some (loc, b)).
        { apply last_filter_split. exists pre, post.
          split; [reflexivity|]. split; [exact Hx|exact Hpost]. }
        now rewrite Hlast.
    + destruct textboxes as [|[loc b'] [|? ?]]; cbn in Hfew; try lia.
      * split; [discriminate|].
        intros [[loc H]|[Hlen _]]; [discriminate|cbn in Hlen; lia].
      * split.
        -- intros [= ->]. left. now exists loc.
        -- intros [[loc' [= -> ->]]|[Hlen _]]; [reflexivity|cbn in Hlen; lia].
  - now intros ->.
  - intros Hlen Hnone.
    destruct (Nat.ltb_spec 1 (length textboxes)) as [_|Hfew]; [|lia].
    now rewrite (filter_none P textboxes Hnone).
Qed.

Lemma text_box_measured_witness :
  _draw_text_bbox [(3%Z, "a"); (5%Z, "b")] = Raise UnboundLocalError.
Proof.
  apply (text_box_measured [(3%Z, "a"); (5%Z, "b")] "a"); [cbn; lia|].
  unfold upper.
  repeat (apply Forall_cons; split; [apply (bool_decide_unpack _); exact I|]).
  apply Forall_nil_2.
Defined.

(** ** Square axes *)

(** X27: the first size [make_square_add_cbar] gives to the divider is the
    same for both directions, absolute, and the largest with which the
    axes, the pad and the colour bar fit into the box of the divider in
    width and in height. *)
Theorem square_axes_fit (size pad bb_width bb_height dpi : Q) :
  let '(horizontal, vertical) :=
    make_square_add_cbar size pad bb_width bb_height dpi in
  horizontal = vertical
  /\ (exists side, horizontal = [(0, side); Fixed pad; Fixed size])
  /\ extent horizontal <= bb_width / dpi
  /\ extent vertical <= bb_height / dpi
  /\ (extent horizontal == bb_width / dpi
      \/ extent vertical == bb_height / dpi).
Proof.
  unfold make_square_add_cbar, get_size, size_sum, extent. cbn [foldl].
  unfold size_add, Fixed. cbn [fst snd fmap list_fmap].
  set (w := bb_width / dpi - (0 + pad + size)).
  set (h := bb_height / dpi - (0 + pad + size)).
  split; [reflexivity|]. split; [now eexists|].
  rewrite !Qsum_cons. change (Qsum []) with 0.
  destruct (Qminb_le w h) as [Hw Hh]. subst w h.
  split; [|split].
  - apply (Qplus_le_l _ _ (pad + (size + 0))) in Hw.
    eapply Qle_trans; [exact Hw|]. apply Qle_lteq. right. ring.
  - apply (Qplus_le_l _ _ (pad + (size + 0))) in Hh.
    eapply Qle_trans; [exact Hh|]. apply Qle_lteq. right. ring.
  - destruct (Qminb_tight (bb_width / dpi - (0 + pad + size))
                          (bb_height / dpi - (0 + pad + size))) as [->| ->];
      [left|right]; ring.
Qed.

Lemma bin_centers_midpoints_witness :
  exists c, bin_centers [0; 1; 3] !! 1%nat = Some c /\ c == (1 + 3) / 2.
Proof.
  exact (proj2 (bin_centers_midpoints [0; 1; 3]) 1%nat 1 3 eq_refl eq_refl).
Defined.
(** * Density, from the call to the drawn values *)

(** ** The series stay on the bins *)













Lemma on_bins_area (bins : list Q) (p : Plottable) :
  edges p = bins -> area p = integral bins (values p).
Proof. intros <-. reflexivity. Qed.




(** ** From the drawing calls back to the series *)





(** ** Calls on plain values return *)



Lemma area_new_Plottable (v bins : list Q) :
  area (new_Plottable v bins None) = integral bins v.
Proof. reflexivity. Qed.



(** ** Density as drawn *)





(** The values that the stacked call of the two series draws: the first
    series, and the sum of both. *)
Example stacked_density_drawn :
  let a := density_call true [[1; 3]; [2; 2]] [0; 1; 2] in
  (fun p => Qred <$> values p) <$> drawn_series a (histplot a).1
  = [[1 # 8; 3 # 8]; [3 # 8; 5 # 8]]
  /\ Qred (total_area (drawn_series a (histplot a).1)) = 3 # 2.
Proof. split; vm_compute; reflexivity. Qed.

(** Stacked series whose flow bins are shown have one more value than
    [final_bins] has bins, and the product of line 376 fails: nothing is
    drawn. *)
Example stacked_density_shown_flow :
  exists msg,
    histplot (mkArgs two_with_overflow [0; 1; 2] YerrNone None None true true
                None "step" (YerrBool false) LabelNone SortNone true AxNone
                (Some "show") [])
    = ([], Raise (ValueError msg)).
Proof. eexists. reflexivity. Qed.

(** A histogram without content: the divisor is zero.  numpy goes on with
    [inf] and [nan] and draws them; the exact model stops. *)
Example density_without_content :
  histplot (density_call false [[0; 0]] [0; 1; 2]) = ([], Raise NotFinite).
Proof. reflexivity. Qed.
